(** * cuOSD: a functional model of the compositor kernels

    This development embeds [libraries/cuOSD/src/cuosd_kernel.cu] and states
    properties of the per-quad compositor, of the box-blur stage and of the
    host-side launch function.

    Modelling conventions.
    - [int] values are integers of [Z]; signed overflow, which C++ leaves
      undefined, is not modelled.  [unsigned int] arithmetic wraps modulo
      2^32 ([uint]); a conversion to [unsigned char] reduces modulo 256
      ([u8]).  [>>] is the arithmetic shift [Z.shiftr], [/] on integers is
      the truncating [Z.quot].
    - [float] is IEEE-754 binary32, computed with the executable operations
      of [SpecFloat] at precision 24; every operation is rounded on its own.
    - An integer division by zero does not trap on the device: the thread
      goes on with an unspecified quotient.  The model computes in the
      monad [dev], which carries the value together with a flag telling
      whether some division met a zero divisor.
    - Device memory behind a [void*] is a total map: from byte offsets when
      the handle is used as a pointer, from coordinates when it is used as a
      surface object. *)

From Stdlib Require Import ZArith List Bool Lia Permutation.
From Stdlib Require Import Floats.SpecFloat.
Import ListNotations.
Local Open Scope Z_scope.

(** ** Machine integers *)

Definition u8 (v : Z) : Z := v mod 256.

Definition uint (v : Z) : Z := v mod 2 ^ 32.

Definition int_of_uint (v : Z) : Z := if v <? 2 ^ 31 then v else v - 2 ^ 32.

Definition INT_MAX : Z := 2 ^ 31 - 1.
Definition INT_MIN : Z := - 2 ^ 31.

Definition b2z (b : bool) : Z := if b then 1 else 0.

Definition max (a b : Z) : Z := if a >=? b then a else b.
Definition min (a b : Z) : Z := if a <=? b then a else b.

Definition u8cast (value : Z) : Z :=
  if value <? 0 then 0 else if value >? 255 then 255 else value.

Definition round_down2 (num : Z) : Z := Z.land (uint num) (uint (Z.lnot 1)).

Definition limit (value low high : Z) : Z :=
  if value <? low then low else if value >? high then high else value.

Definition INTER_RESIZE_COEF_BITS : Z := 11.
Definition INTER_RESIZE_COEF_SCALE : Z := Z.shiftl 1 INTER_RESIZE_COEF_BITS.

(** ** binary32 *)

Module F32.
Definition prec : Z := 24.
Definition emax : Z := 128.
Definition float : Type := spec_float.

Definition add : float -> float -> float := SFadd prec emax.
Definition sub : float -> float -> float := SFsub prec emax.
Definition mul : float -> float -> float := SFmul prec emax.
Definition div : float -> float -> float := SFdiv prec emax.
Definition sqrt : float -> float := SFsqrt prec emax.
Definition ltb : float -> float -> bool := SFltb.
Definition leb : float -> float -> bool := SFleb.
Definition eqb : float -> float -> bool := SFeqb.
Definition gtb (a b : float) : bool := SFltb b a.
Definition geb (a b : float) : bool := SFleb b a.

(** Conversion of an integer, round to nearest even. *)
Definition of_int (n : Z) : float := binary_normalize prec emax n 0 false.

(** The literals of the source: [m * 2^e] for small [m]. *)
Definition lit (m e : Z) : float := binary_normalize prec emax m e false.
Definition zero : float := of_int 0.
Definition quarter : float := lit 1 (-2).
Definition half : float := lit 1 (-1).

(** Integral part, rounding toward zero, of a finite value. *)
Definition trunc (v : float) : Z :=
  match v with
  | S754_finite s m e =>
      cond_Zopp s (if e <? 0 then Zpos m / 2 ^ (- e) else Zpos m * 2 ^ e)
  | _ => 0
  end.

(** Largest integer below a finite value. *)
Definition floorZ (v : float) : Z :=
  match v with
  | S754_finite s m e =>
      if e <? 0 then cond_Zopp s (Zpos m) / 2 ^ (- e)
      else cond_Zopp s (Zpos m * 2 ^ e)
  | _ => 0
  end.

(** Nearest integer, ties to even, of a finite value. *)
Definition rintZ (v : float) : Z :=
  match v with
  | S754_finite s m e =>
      if e <? 0 then
        let d := 2 ^ (- e) in
        let q := Zpos m / d in
        let r := Zpos m mod d in
        cond_Zopp s
          (if 2 * r <? d then q
           else if 2 * r >? d then q + 1
           else if Z.even q then q else q + 1)
      else cond_Zopp s (Zpos m * 2 ^ e)
  | _ => 0
  end.

(** Conversion to [int] as the device does it: toward zero, saturating,
    a NaN becoming 0. *)
Definition to_int (v : float) : Z :=
  match v with
  | S754_nan => 0
  | S754_infinity s => if s then INT_MIN else INT_MAX
  | _ => limit (trunc v) INT_MIN INT_MAX
  end.

Definition to_uchar (v : float) : Z := u8 (to_int v).

(** [floorf] and [rintf]: values that have no fractional bits, zeros,
    infinities and NaN are returned as they are. *)
Definition floorf (v : float) : float :=
  match v with
  | S754_finite s m e =>
      if e <? 0 then
        (if floorZ v =? 0 then S754_zero s else of_int (floorZ v))
      else v
  | _ => v
  end.

Definition rint (v : float) : float :=
  match v with
  | S754_finite s m e =>
      if e <? 0 then
        (if rintZ v =? 0 then S754_zero s else of_int (rintZ v))
      else v
  | _ => v
  end.
End F32.

Declare Scope f32_scope.
Delimit Scope f32_scope with f32.
Bind Scope f32_scope with F32.float.
Infix "+" := F32.add : f32_scope.
Infix "-" := F32.sub : f32_scope.
Infix "*" := F32.mul : f32_scope.
Infix "/" := F32.div : f32_scope.
Infix "<?" := F32.ltb : f32_scope.
Infix "<=?" := F32.leb : f32_scope.
Infix ">?" := F32.gtb : f32_scope.
Infix ">=?" := F32.geb : f32_scope.

(** ** Computations on the device *)

Record dev (A : Type) : Type := Dev { value : A; div_by_zero : bool }.
Arguments Dev {A} _ _.
Arguments value {A} _.
Arguments div_by_zero {A} _.

Definition ret {A : Type} (a : A) : dev A := Dev a false.

Definition bind {A B : Type} (m : dev A) (f : A -> dev B) : dev B :=
  let r := f (value m) in
  Dev (value r) (div_by_zero m || div_by_zero r).

Notation "v <- m ;; k" := (bind m (fun v => k))
  (at level 61, m at next level, right associativity).
Notation "' pat <- m ;; k" := (bind m (fun v => let pat := v in k))
  (at level 61, pat pattern, m at next level, right associativity).

(** The quotient of the source's [/] on [int], flagged when the divisor is 0. *)
Definition idiv (a b : Z) : dev Z := Dev (Z.quot a b) (b =? 0).

(** ** Colors *)

Module uchar4.
Record t : Type := make { x : Z; y : Z; z : Z; w : Z }.
Definition zero : t := make 0 0 0 0.
End uchar4.

Definition make_uchar4 (x y z w : Z) : uchar4.t :=
  uchar4.make (u8 x) (u8 y) (u8 z) (u8 w).

(** [uchar4 color[4]]: the four pixels of a quad, in the order
    (ix,iy), (ix+1,iy), (ix,iy+1), (ix+1,iy+1). *)
Record Quad : Type := mkQuad
  { color0 : uchar4.t; color1 : uchar4.t; color2 : uchar4.t; color3 : uchar4.t }.

Definition quad_get (q : Quad) (k : Z) : uchar4.t :=
  if k =? 0 then color0 q else if k =? 1 then color1 q
  else if k =? 2 then color2 q else color3 q.

Definition blend_single_color (color : uchar4.t) (c0 c1 c2 a : Z) : dev uchar4.t :=
  let foreground_alpha := a in
  let background_alpha := uchar4.w color in
  let blend_alpha :=
    Z.shiftr (background_alpha * (255 - foreground_alpha)) 8 + foreground_alpha in
  x' <- idiv (Z.shiftr (uchar4.x color * background_alpha * (255 - foreground_alpha)) 8
              + c0 * foreground_alpha) blend_alpha ;;
  y' <- idiv (Z.shiftr (uchar4.y color * background_alpha * (255 - foreground_alpha)) 8
              + c1 * foreground_alpha) blend_alpha ;;
  z' <- idiv (Z.shiftr (uchar4.z color * background_alpha * (255 - foreground_alpha)) 8
              + c2 * foreground_alpha) blend_alpha ;;
  ret (uchar4.make (u8cast x') (u8cast y') (u8cast z') (u8 blend_alpha)).

(** ** Commands

    The header [cuosd_kernel.h] declares the command structures; the fields
    below are the ones this source file reads, with the types it reads them
    at.  A command of the stream is decoded by its [type] tag, which the
    model renders as the constructor of [Command]. *)

Module cuOSDContextCommand.
Record t : Type := make
  { bounding_left : Z; bounding_top : Z; bounding_right : Z; bounding_bottom : Z;
    c0 : Z; c1 : Z; c2 : Z; c3 : Z }.
End cuOSDContextCommand.
Module H := cuOSDContextCommand.

Module RectangleCommand.
Record t : Type := make
  { base : H.t;
    ax1 : F32.float; ay1 : F32.float; bx1 : F32.float; by1 : F32.float;
    cx1 : F32.float; cy1 : F32.float; dx1 : F32.float; dy1 : F32.float;
    ax2 : F32.float; ay2 : F32.float; bx2 : F32.float; by2 : F32.float;
    cx2 : F32.float; cy2 : F32.float; dx2 : F32.float; dy2 : F32.float;
    thickness : Z; interpolation : bool }.
End RectangleCommand.

Module CircleCommand.
Record t : Type := make
  { base : H.t; cx : Z; cy : Z; radius : Z; thickness : Z }.
End CircleCommand.

Module TextCommand.
Record t : Type := make { base : H.t; text_line_size : Z; ilocation : Z }.
End TextCommand.

Module TextLocation.
Record t : Type := make
  { image_x : Z; image_y : Z; text_x : Z; text_w : Z; text_h : Z }.
End TextLocation.

(** Linear device memory behind a pointer, and a surface object. *)
Definition mem : Type := Z -> Z.
Definition surf : Type := Z -> Z -> Z.

Definition store (m : mem) (a v : Z) : mem :=
  fun a' => if a' =? a then u8 v else m a'.

Definition surf2Dread (s : surf) (x y : Z) : Z := s x y.

Definition surf2Dwrite (v : Z) (s : surf) (x y : Z) : surf :=
  fun x' y' => if (x' =? x) && (y' =? y) then u8 v else s x' y'.

(** What a [void*] of the interface denotes: bytes when it is used as a
    pointer, a two-dimensional array when it is used as a surface handle. *)
Record handle : Type := mkHandle { linear : mem; surface : surf }.

Module SegmentCommand.
Record t : Type := make
  { base : H.t; d_seg : Z -> F32.float; seg_width : Z; seg_height : Z;
    scale_x : F32.float; scale_y : F32.float; seg_threshold : F32.float }.
End SegmentCommand.

Module RGBASourceCommand.
Record t : Type := make
  { base : H.t; cx : Z; cy : Z; width : Z; height : Z; d_src : mem }.
End RGBASourceCommand.

Module NV12SourceCommand.
Record t : Type := make
  { base : H.t; cx : Z; cy : Z; width : Z; height : Z;
    d_src0 : handle; d_src1 : handle; block_linear : bool }.
End NV12SourceCommand.

Module BoxBlurCommand.
Record t : Type := make { base : H.t; kernel_size : Z }.
End BoxBlurCommand.

Inductive Command : Type :=
  | Rectangle (p : RectangleCommand.t)
  | Text (p : TextCommand.t)
  | Circle (p : CircleCommand.t)
  | Segment (p : SegmentCommand.t)
  | RGBASource (p : RGBASourceCommand.t)
  | NV12Source (p : NV12SourceCommand.t)
  | OtherCommand (p : H.t).

(** The common header of a command ([(cuOSDContextCommand* )pcommand]);
    [OtherCommand] stands for the tags the kernel's [switch] has no case
    for. *)
Definition header (c : Command) : H.t :=
  match c with
  | Rectangle p => RectangleCommand.base p
  | Text p => TextCommand.base p
  | Circle p => CircleCommand.base p
  | Segment p => SegmentCommand.base p
  | RGBASource p => RGBASourceCommand.base p
  | NV12Source p => NV12SourceCommand.base p
  | OtherCommand p => p
  end.

Definition is_text (c : Command) : bool :=
  match c with Text _ => true | _ => false end.

(** ** Coverage: rectangles *)

Definition inbox_single_pixel
    (ix iy ax ay bx by_ cx cy dx dy : F32.float) : bool :=
  (((bx - ax) * (iy - ay) - (by_ - ay) * (ix - ax)) <? F32.zero)%f32 &&
  (((cx - bx) * (iy - by_) - (cy - by_) * (ix - bx)) <? F32.zero)%f32 &&
  (((dx - cx) * (iy - cy) - (dy - cy) * (ix - cx)) <? F32.zero)%f32 &&
  (((ax - dx) * (iy - dy) - (ay - dy) * (ix - dx)) <? F32.zero)%f32.

(** [alpha] is passed by reference in the source: the model takes the old
    value and returns the new one with the result. *)
Definition external_msaa4x
    (ix iy ax ay bx by_ cx cy dx dy : F32.float) (a : Z) (alpha : Z) : bool * Z :=
  let h0 := negb (inbox_single_pixel (ix - F32.quarter)%f32 (iy - F32.quarter)%f32 ax ay bx by_ cx cy dx dy) in
  let h1 := negb (inbox_single_pixel (ix + F32.quarter)%f32 (iy - F32.quarter)%f32 ax ay bx by_ cx cy dx dy) in
  let h2 := negb (inbox_single_pixel (ix + F32.quarter)%f32 (iy + F32.quarter)%f32 ax ay bx by_ cx cy dx dy) in
  let h3 := negb (inbox_single_pixel (ix - F32.quarter)%f32 (iy + F32.quarter)%f32 ax ay bx by_ cx cy dx dy) in
  if h0 || h1 || h2 || h3 then
    if h0 && h1 && h2 && h3 then (true, alpha)
    else (true, F32.to_uchar (F32.of_int (a * (b2z h0 + b2z h1 + b2z h2 + b2z h3)) * F32.quarter)%f32)
  else (false, alpha).

Definition internal_msaa4x
    (ix iy ax ay bx by_ cx cy dx dy : F32.float) (a : Z) (alpha : Z) : bool * Z :=
  let h0 := inbox_single_pixel (ix - F32.quarter)%f32 (iy - F32.quarter)%f32 ax ay bx by_ cx cy dx dy in
  let h1 := inbox_single_pixel (ix + F32.quarter)%f32 (iy - F32.quarter)%f32 ax ay bx by_ cx cy dx dy in
  let h2 := inbox_single_pixel (ix + F32.quarter)%f32 (iy + F32.quarter)%f32 ax ay bx by_ cx cy dx dy in
  let h3 := inbox_single_pixel (ix - F32.quarter)%f32 (iy + F32.quarter)%f32 ax ay bx by_ cx cy dx dy in
  if h0 || h1 || h2 || h3 then
    (true, F32.to_uchar (F32.of_int (a * (b2z h0 + b2z h1 + b2z h2 + b2z h3)) * F32.quarter)%f32)
  else (false, alpha).

(** [if (cond) blend_single_color(color, c0, c1, c2, a);] *)
Definition blend_when (cond : bool) (color : uchar4.t) (c0 c1 c2 a : Z) : dev uchar4.t :=
  if cond then blend_single_color color c0 c1 c2 a else ret color.

Section Rectangles.
Import RectangleCommand.
Variable p : RectangleCommand.t.

(** The outer quad (corners 1) and the inner quad (corners 2) at a pixel. *)
Definition inbox_outer (px py : Z) : bool :=
  inbox_single_pixel (F32.of_int px) (F32.of_int py)
    (ax1 p) (ay1 p) (bx1 p) (by1 p) (cx1 p) (cy1 p) (dx1 p) (dy1 p).

Definition inbox_inner (px py : Z) : bool :=
  inbox_single_pixel (F32.of_int px) (F32.of_int py)
    (ax2 p) (ay2 p) (bx2 p) (by2 p) (cx2 p) (cy2 p) (dx2 p) (dy2 p).

Definition internal_outer (px py : Z) (alpha : Z) : bool * Z :=
  internal_msaa4x (F32.of_int px) (F32.of_int py)
    (ax1 p) (ay1 p) (bx1 p) (by1 p) (cx1 p) (cy1 p) (dx1 p) (dy1 p)
    (H.c3 (base p)) alpha.

Definition external_inner (px py : Z) (alpha : Z) : bool * Z :=
  external_msaa4x (F32.of_int px) (F32.of_int py)
    (ax2 p) (ay2 p) (bx2 p) (by2 p) (cx2 p) (cy2 p) (dx2 p) (dy2 p)
    (H.c3 (base p)) alpha.

(** [internal_msaa4x(outer) && external_msaa4x(inner)], the second call
    being made only when the first succeeds. *)
Definition border_msaa4x (px py : Z) (alpha : Z) : bool * Z :=
  let '(hit, alpha1) := internal_outer px py alpha in
  if hit then external_inner px py alpha1 else (false, alpha1).

Definition render_rectangle_fill_msaa4x (ix iy : Z) (color : Quad) : dev Quad :=
  let alpha := 0 in
  let '(hit0, alpha) := internal_outer ix iy alpha in
  q0 <- blend_when hit0 (color0 color) (H.c0 (base p)) (H.c1 (base p)) (H.c2 (base p)) alpha ;;
  let '(hit1, alpha) := internal_outer (ix + 1) iy alpha in
  q1 <- blend_when hit1 (color1 color) (H.c0 (base p)) (H.c1 (base p)) (H.c2 (base p)) alpha ;;
  let '(hit2, alpha) := internal_outer ix (iy + 1) alpha in
  q2 <- blend_when hit2 (color2 color) (H.c0 (base p)) (H.c1 (base p)) (H.c2 (base p)) alpha ;;
  let '(hit3, alpha) := internal_outer (ix + 1) (iy + 1) alpha in
  q3 <- blend_when hit3 (color3 color) (H.c0 (base p)) (H.c1 (base p)) (H.c2 (base p)) alpha ;;
  ret (mkQuad q0 q1 q2 q3).

Definition render_rectangle_fill (ix iy : Z) (color : Quad) : dev Quad :=
  q0 <- blend_when (inbox_outer ix iy)
          (color0 color) (H.c0 (base p)) (H.c1 (base p)) (H.c2 (base p)) (H.c3 (base p)) ;;
  q1 <- blend_when (inbox_outer (ix + 1) iy)
          (color1 color) (H.c0 (base p)) (H.c1 (base p)) (H.c2 (base p)) (H.c3 (base p)) ;;
  q2 <- blend_when (inbox_outer ix (iy + 1))
          (color2 color) (H.c0 (base p)) (H.c1 (base p)) (H.c2 (base p)) (H.c3 (base p)) ;;
  q3 <- blend_when (inbox_outer (ix + 1) (iy + 1))
          (color3 color) (H.c0 (base p)) (H.c1 (base p)) (H.c2 (base p)) (H.c3 (base p)) ;;
  ret (mkQuad q0 q1 q2 q3).

Definition render_rectangle_border_msaa4x (ix iy : Z) (color : Quad) : dev Quad :=
  let alpha := 0 in
  let '(hit0, alpha) := border_msaa4x ix iy alpha in
  q0 <- blend_when hit0 (color0 color) (H.c0 (base p)) (H.c1 (base p)) (H.c2 (base p)) alpha ;;
  let '(hit1, alpha) := border_msaa4x (ix + 1) iy alpha in
  q1 <- blend_when hit1 (color1 color) (H.c0 (base p)) (H.c1 (base p)) (H.c2 (base p)) alpha ;;
  let '(hit2, alpha) := border_msaa4x ix (iy + 1) alpha in
  q2 <- blend_when hit2 (color2 color) (H.c0 (base p)) (H.c1 (base p)) (H.c2 (base p)) alpha ;;
  let '(hit3, alpha) := border_msaa4x (ix + 1) (iy + 1) alpha in
  q3 <- blend_when hit3 (color3 color) (H.c0 (base p)) (H.c1 (base p)) (H.c2 (base p)) alpha ;;
  ret (mkQuad q0 q1 q2 q3).

Definition render_rectangle_border (ix iy : Z) (color : Quad) : dev Quad :=
  q0 <- blend_when (negb (inbox_inner ix iy) && inbox_outer ix iy)
          (color0 color) (H.c0 (base p)) (H.c1 (base p)) (H.c2 (base p)) (H.c3 (base p)) ;;
  q1 <- blend_when (negb (inbox_inner (ix + 1) iy) && inbox_outer (ix + 1) iy)
          (color1 color) (H.c0 (base p)) (H.c1 (base p)) (H.c2 (base p)) (H.c3 (base p)) ;;
  q2 <- blend_when (negb (inbox_inner ix (iy + 1)) && inbox_outer ix (iy + 1))
          (color2 color) (H.c0 (base p)) (H.c1 (base p)) (H.c2 (base p)) (H.c3 (base p)) ;;
  q3 <- blend_when (negb (inbox_inner (ix + 1) (iy + 1)) && inbox_outer (ix + 1) (iy + 1))
          (color3 color) (H.c0 (base p)) (H.c1 (base p)) (H.c2 (base p)) (H.c3 (base p)) ;;
  ret (mkQuad q0 q1 q2 q3).

(** [do_rectangle<have_rotate_msaa>] *)
Definition do_rectangle (have_rotate_msaa : bool) (ix iy : Z) (context_color : Quad)
    : dev Quad :=
  if have_rotate_msaa then
    if thickness p =? -1 then
      if interpolation p then render_rectangle_fill_msaa4x ix iy context_color
      else render_rectangle_fill ix iy context_color
    else
      if interpolation p then render_rectangle_border_msaa4x ix iy context_color
      else render_rectangle_border ix iy context_color
  else
    if thickness p =? -1 then render_rectangle_fill ix iy context_color
    else render_rectangle_border ix iy context_color.
End Rectangles.

(** ** Coverage: circles *)

Definition interpolation_fn (x : F32.float) (a b padding : Z) (origin_alpha : Z) : Z :=
  let x0 := if a - padding <? 0 then 0 else a - padding in
  let x1 := b + padding in
  if (x <? F32.of_int x0)%f32 || (x >? F32.of_int x1)%f32 then 0
  else if (x >=? F32.of_int a)%f32 && (x <? F32.of_int b)%f32 then origin_alpha
  else if (x >=? F32.of_int b)%f32 && (x <=? F32.of_int x1)%f32 then
    F32.to_uchar ((F32.of_int x1 - x) / F32.of_int padding * F32.of_int origin_alpha)%f32
  else if (x <? F32.of_int a)%f32 && (x >=? F32.of_int x0)%f32 then
    F32.to_uchar ((x - F32.of_int x0) / F32.of_int padding * F32.of_int origin_alpha)%f32
  else 0.

Section Circles.
Import CircleCommand.
Variable p : CircleCommand.t.

(** Distance of the pixel (px, py) to the centre, as the kernel computes
    it: [sqrt((float)(px - cx) * (px - cx) + (py - cy) * (py - cy))].  The
    cast binds to the first factor only: the product of the x offsets is a
    product of floats, the product of the y offsets is a product of two
    [int], which wraps at 32 bits before it is converted. *)
Definition circle_distance (px py : Z) : F32.float :=
  F32.sqrt (F32.of_int (px - cx p) * F32.of_int (px - cx p)
            + F32.of_int (int_of_uint (uint ((py - cy p) * (py - cy p)))))%f32.

(** The square of the exact distance of the pixel (px, py) to the centre. *)
Definition squared_distance (px py : Z) : Z :=
  (px - cx p) * (px - cx p) + (py - cy p) * (py - cy p).

(** The inner and the outer radius of the annulus. *)
Definition circle_bounds : Z * Z :=
  let inner_boundsize := radius p - Z.quot (thickness p) 2 in
  let external_boundsize := inner_boundsize + thickness p in
  if thickness p <? 0 then
    (0, if thickness p =? -1 then radius p else inner_boundsize)
  else (inner_boundsize, external_boundsize).

Definition circle_alpha (px py : Z) : Z :=
  interpolation_fn (circle_distance px py) (fst circle_bounds) (snd circle_bounds) 1
    (H.c3 (base p)).

Definition render_circle_interpolation (ix iy : Z) (color : Quad) : dev Quad :=
  let alpha0 := circle_alpha ix iy in
  let alpha1 := circle_alpha (ix + 1) iy in
  let alpha2 := circle_alpha ix (iy + 1) in
  let alpha3 := circle_alpha (ix + 1) (iy + 1) in
  q0 <- blend_when (negb (alpha0 =? 0)) (color0 color)
          (H.c0 (base p)) (H.c1 (base p)) (H.c2 (base p)) alpha0 ;;
  q1 <- blend_when (negb (alpha1 =? 0)) (color1 color)
          (H.c0 (base p)) (H.c1 (base p)) (H.c2 (base p)) alpha1 ;;
  q2 <- blend_when (negb (alpha2 =? 0)) (color2 color)
          (H.c0 (base p)) (H.c1 (base p)) (H.c2 (base p)) alpha2 ;;
  q3 <- blend_when (negb (alpha3 =? 0)) (color3 color)
          (H.c0 (base p)) (H.c1 (base p)) (H.c2 (base p)) alpha3 ;;
  ret (mkQuad q0 q1 q2 q3).
End Circles.

(** ** Coverage: segmentation masks *)

Definition sample_pixel_bilinear
    (d_ptr : Z -> F32.float) (x y : Z) (sx sy : F32.float) (width height : Z)
    (threshold : F32.float) : Z :=
  let src_x := ((F32.of_int x + F32.half) * sx - F32.half)%f32 in
  let src_y := ((F32.of_int y + F32.half) * sy - F32.half)%f32 in
  let y_low := F32.to_int (F32.floorf src_y) in
  let x_low := F32.to_int (F32.floorf src_x) in
  let y_high := limit (y_low + 1) 0 (height - 1) in
  let x_high := limit (x_low + 1) 0 (width - 1) in
  let y_low := limit y_low 0 (height - 1) in
  let x_low := limit x_low 0 (width - 1) in
  let ly := F32.to_int (F32.rint ((src_y - F32.of_int y_low) * F32.of_int INTER_RESIZE_COEF_SCALE)%f32) in
  let lx := F32.to_int (F32.rint ((src_x - F32.of_int x_low) * F32.of_int INTER_RESIZE_COEF_SCALE)%f32) in
  let hy := INTER_RESIZE_COEF_SCALE - ly in
  let hx := INTER_RESIZE_COEF_SCALE - lx in
  let scr_x := if F32.gtb (d_ptr (x_low + y_low * width)) threshold then 127 else 0 in
  let scr_y := if F32.gtb (d_ptr (x_high + y_low * width)) threshold then 127 else 0 in
  let scr_z := if F32.gtb (d_ptr (x_low + y_high * width)) threshold then 127 else 0 in
  let scr_w := if F32.gtb (d_ptr (x_high + y_high * width)) threshold then 127 else 0 in
  u8 (Z.shiftr
        (Z.shiftr (hy * Z.shiftr (hx * scr_x + lx * scr_y) 4) 16
         + Z.shiftr (ly * Z.shiftr (hx * scr_z + lx * scr_w) 4) 16 + 2) 2).

(** The four pixels of a quad against a box [left, right) x [top, bottom):
    the early return and the four [alpha] flags shared by the segment and
    the stamp paths. *)
Definition quad_misses_box (ix iy left top right bottom : Z) : bool :=
  (ix + 1 <? left) || (iy + 1 <? top) || (ix >=? right) || (iy >=? bottom).

Definition pixel_in_box (px py left top right bottom : Z) : bool :=
  negb ((px <? left) || (py <? top) || (px >=? right) || (py >=? bottom)).

Section Segments.
Import SegmentCommand.
Variable p : SegmentCommand.t.

Definition segment_sample (x y : Z) : Z :=
  sample_pixel_bilinear (d_seg p) x y (scale_x p) (scale_y p)
    (seg_width p) (seg_height p) (seg_threshold p).

Definition segment_pixel (inside : bool) (x y : Z) (color : uchar4.t) : dev uchar4.t :=
  if inside then
    blend_single_color color (H.c0 (base p)) (H.c1 (base p)) (H.c2 (base p))
      (segment_sample x y)
  else ret color.

Definition render_segment_bilinear (ix iy : Z) (color : Quad) : dev Quad :=
  let left := H.bounding_left (base p) in
  let top := H.bounding_top (base p) in
  let right := H.bounding_right (base p) in
  let bottom := H.bounding_bottom (base p) in
  if quad_misses_box ix iy left top right bottom then ret color
  else
    let alpha0 := pixel_in_box ix iy left top right bottom in
    let alpha1 := pixel_in_box (ix + 1) iy left top right bottom in
    let alpha2 := pixel_in_box ix (iy + 1) left top right bottom in
    let alpha3 := pixel_in_box (ix + 1) (iy + 1) left top right bottom in
    let fx := ix - left in
    let fy := iy - top in
    q0 <- segment_pixel alpha0 fx fy (color0 color) ;;
    q1 <- segment_pixel alpha1 (fx + 1) fy (color1 color) ;;
    q2 <- segment_pixel alpha2 fx (fy + 1) (color2 color) ;;
    q3 <- segment_pixel alpha3 (fx + 1) (fy + 1) (color3 color) ;;
    ret (mkQuad q0 q1 q2 q3).
End Segments.

(** ** Coverage: text *)

Section TextGlyphs.
Import TextLocation.
Variable location : TextLocation.t.
Variable text_bitmap : mem.
Variable text_bitmap_width : Z.

(** Coverage of the pixel at offset (gx, gy) in the glyph; its atlas byte
    is [text_bitmap[gy * text_bitmap_width + bfx + col]]. *)
Definition text_alpha (gx gy col : Z) (bfx : Z) (a : Z) : Z :=
  if (gx <? 0) || (gy <? 0) || (gx >=? text_w location) || (gy >=? text_h location)
  then 0
  else u8 (Z.shiftr (text_bitmap (gy * text_bitmap_width + bfx + col) * a) 8).

Definition render_text (ix iy : Z) (color : Quad) (c0 c1 c2 a : Z) : dev (bool * Quad) :=
  if (ix + 1 <? image_x location) || (iy + 1 <? image_y location)
     || (ix >=? image_x location + text_w location)
     || (iy >=? image_y location + text_h location)
  then ret (false, color)
  else
    let fx := ix - image_x location in
    let fy := iy - image_y location in
    let bfx := fx + text_x location in
    let alpha0 := text_alpha fx fy 0 bfx a in
    let alpha1 := text_alpha (fx + 1) fy 1 bfx a in
    let alpha2 := text_alpha fx (fy + 1) 0 bfx a in
    let alpha3 := text_alpha (fx + 1) (fy + 1) 1 bfx a in
    q0 <- blend_when (negb (alpha0 =? 0)) (color0 color) c0 c1 c2 alpha0 ;;
    q1 <- blend_when (negb (alpha1 =? 0)) (color1 color) c0 c1 c2 alpha1 ;;
    q2 <- blend_when (negb (alpha2 =? 0)) (color2 color) c0 c1 c2 alpha2 ;;
    q3 <- blend_when (negb (alpha3 =? 0)) (color3 color) c0 c1 c2 alpha3 ;;
    ret (true, mkQuad q0 q1 q2 q3).
End TextGlyphs.

(** ** Image stamps *)

(** [c.w = c.x == trans_0 && c.y == trans_1 && c.z == trans_2 ? 0 : trans_a] *)
Definition chroma_key (c : uchar4.t) (trans_0 trans_1 trans_2 trans_a : Z) : uchar4.t :=
  uchar4.make (uchar4.x c) (uchar4.y c) (uchar4.z c)
    (if (uchar4.x c =? trans_0) && (uchar4.y c =? trans_1) && (uchar4.z c =? trans_2)
     then 0 else trans_a).

Definition render_bl_nv12_src
    (ix iy left top right bottom : Z) (d_src0 d_src1 : surf) (color : Quad)
    (trans_0 trans_1 trans_2 trans_a : Z) : Quad :=
  if quad_misses_box ix iy left top right bottom then color
  else
    let alpha0 := pixel_in_box ix iy left top right bottom in
    let alpha1 := pixel_in_box (ix + 1) iy left top right bottom in
    let alpha2 := pixel_in_box ix (iy + 1) left top right bottom in
    let alpha3 := pixel_in_box (ix + 1) (iy + 1) left top right bottom in
    let fx := ix - left in
    let fy := iy - top in
    let c0 :=
      if alpha0 then
        chroma_key (make_uchar4 (surf2Dread d_src0 fx fy)
                      (surf2Dread d_src1 fx (Z.shiftr fy 1))
                      (surf2Dread d_src1 (fx + 1) (Z.shiftr fy 1)) 0)
          trans_0 trans_1 trans_2 trans_a
      else color0 color in
    let c1 :=
      if alpha1 then
        chroma_key (make_uchar4 (surf2Dread d_src0 (fx + 1) fy)
                      (surf2Dread d_src1 fx (Z.shiftr fy 1))
                      (surf2Dread d_src1 (fx + 1) (Z.shiftr fy 1)) 0)
          trans_0 trans_1 trans_2 trans_a
      else color1 color in
    let c2 :=
      if alpha2 then
        chroma_key (make_uchar4 (surf2Dread d_src0 fx (fy + 1))
                      (surf2Dread d_src1 fx (Z.shiftr fy 1))
                      (surf2Dread d_src1 (fx + 1) (Z.shiftr fy 1)) 0)
          trans_0 trans_1 trans_2 trans_a
      else color2 color in
    let c3 :=
      if alpha3 then
        chroma_key (make_uchar4 (surf2Dread d_src0 (fx + 1) (fy + 1))
                      (surf2Dread d_src1 fx (Z.shiftr fy 1))
                      (surf2Dread d_src1 (fx + 1) (Z.shiftr fy 1)) 0)
          trans_0 trans_1 trans_2 trans_a
      else color3 color in
    mkQuad c0 c1 c2 c3.

Definition render_pl_nv12_src
    (ix iy left top right bottom : Z) (d_src0 d_src1 : mem) (color : Quad)
    (trans_0 trans_1 trans_2 trans_a : Z) : Quad :=
  if quad_misses_box ix iy left top right bottom then color
  else
    let alpha0 := pixel_in_box ix iy left top right bottom in
    let alpha1 := pixel_in_box (ix + 1) iy left top right bottom in
    let alpha2 := pixel_in_box ix (iy + 1) left top right bottom in
    let alpha3 := pixel_in_box (ix + 1) (iy + 1) left top right bottom in
    let fx := ix - left in
    let fy := iy - top in
    let width := right - left in
    let offset_0 := fy * width + fx in
    let offset_1 := Z.shiftr fy 1 * width + fx in
    let offset_2 := Z.shiftr fy 1 * width + fx + 1 in
    let c0 :=
      if alpha0 then
        chroma_key (make_uchar4 (d_src0 offset_0) (d_src1 offset_1) (d_src1 offset_2) 0)
          trans_0 trans_1 trans_2 trans_a
      else color0 color in
    let c1 :=
      if alpha1 then
        chroma_key (make_uchar4 (d_src0 (offset_0 + 1)) (d_src1 offset_1) (d_src1 offset_2) 0)
          trans_0 trans_1 trans_2 trans_a
      else color1 color in
    let c2 :=
      if alpha2 then
        chroma_key (make_uchar4 (d_src0 (offset_0 + width)) (d_src1 offset_1) (d_src1 offset_2) 0)
          trans_0 trans_1 trans_2 trans_a
      else color2 color in
    let c3 :=
      if alpha3 then
        chroma_key (make_uchar4 (d_src0 (offset_0 + width + 1)) (d_src1 offset_1) (d_src1 offset_2) 0)
          trans_0 trans_1 trans_2 trans_a
      else color3 color in
    mkQuad c0 c1 c2 c3.

Definition render_rgba_src
    (ix iy left top right bottom : Z) (d_src : mem) (color : Quad) : Quad :=
  if quad_misses_box ix iy left top right bottom then color
  else
    let alpha0 := pixel_in_box ix iy left top right bottom in
    let alpha1 := pixel_in_box (ix + 1) iy left top right bottom in
    let alpha2 := pixel_in_box ix (iy + 1) left top right bottom in
    let alpha3 := pixel_in_box (ix + 1) (iy + 1) left top right bottom in
    let fx := ix - left in
    let fy := iy - top in
    let width := right - left in
    let offset_0 := (fy * width + fx) * 4 in
    let offset_1 := ((fy + 1) * width + fx) * 4 in
    mkQuad
      (if alpha0 then
         make_uchar4 (d_src offset_0) (d_src (offset_0 + 1)) (d_src (offset_0 + 2)) (d_src (offset_0 + 3))
       else color0 color)
      (if alpha1 then
         make_uchar4 (d_src (offset_0 + 4)) (d_src (offset_0 + 5)) (d_src (offset_0 + 6)) (d_src (offset_0 + 7))
       else color1 color)
      (if alpha2 then
         make_uchar4 (d_src offset_1) (d_src (offset_1 + 1)) (d_src (offset_1 + 2)) (d_src (offset_1 + 3))
       else color2 color)
      (if alpha3 then
         make_uchar4 (d_src (offset_1 + 4)) (d_src (offset_1 + 5)) (d_src (offset_1 + 6)) (d_src (offset_1 + 7))
       else color3 color).

(** ** The destination surface and the pixel blender *)

Inductive ImageFormat : Type := RGB | RGBA | BlockLinearNV12 | PitchLinearNV12.

(** The two planes of the destination; they are taken to be disjoint. *)
Record Image : Type := mkImage { image0 : handle; image1 : handle }.

Definition set_linear (h : handle) (m : mem) : handle := mkHandle m (surface h).
Definition set_surface (h : handle) (s : surf) : handle := mkHandle (linear h) s.

(** [for (int i = first; i < first + n; ++i) body] *)
Fixpoint for_loop {S : Type} (n : nat) (i : Z) (body : Z -> S -> dev S) (s : S) : dev S :=
  match n with
  | O => ret s
  | Datatypes.S n' => s' <- body i s ;; for_loop n' (i + 1) body s'
  end.

(** Body of the inner loop of [BlendingPixel<RGBA>::call] at the pointer [p]. *)
Definition blend_rgba_pixel (m : mem) (p : Z) (rcolor : uchar4.t) : dev mem :=
  let foreground_alpha := uchar4.w rcolor in
  let background_alpha := m (p + 3) in
  let blend_alpha :=
    Z.shiftr (background_alpha * (255 - foreground_alpha)) 8 + foreground_alpha in
  v0 <- idiv (Z.shiftr (m p * background_alpha * (255 - foreground_alpha)) 8
              + uchar4.x rcolor * foreground_alpha) blend_alpha ;;
  let m := store m p (u8cast v0) in
  v1 <- idiv (Z.shiftr (m (p + 1) * background_alpha * (255 - foreground_alpha)) 8
              + uchar4.y rcolor * foreground_alpha) blend_alpha ;;
  let m := store m (p + 1) (u8cast v1) in
  v2 <- idiv (Z.shiftr (m (p + 2) * background_alpha * (255 - foreground_alpha)) 8
              + uchar4.z rcolor * foreground_alpha) blend_alpha ;;
  let m := store m (p + 2) (u8cast v2) in
  ret (store m (p + 3) blend_alpha).

(** Body of the inner loop of [BlendingPixel<RGB>::call] at the pointer [p]. *)
Definition blend_rgb_pixel (m : mem) (p : Z) (rcolor : uchar4.t) : dev mem :=
  let foreground_alpha := uchar4.w rcolor in
  let background_alpha := 255 in
  let blend_alpha :=
    Z.shiftr (background_alpha * (255 - foreground_alpha)) 8 + foreground_alpha in
  v0 <- idiv (Z.shiftr (m p * background_alpha * (255 - foreground_alpha)) 8
              + uchar4.x rcolor * foreground_alpha) blend_alpha ;;
  let m := store m p (u8cast v0) in
  v1 <- idiv (Z.shiftr (m (p + 1) * background_alpha * (255 - foreground_alpha)) 8
              + uchar4.y rcolor * foreground_alpha) blend_alpha ;;
  let m := store m (p + 1) (u8cast v1) in
  v2 <- idiv (Z.shiftr (m (p + 2) * background_alpha * (255 - foreground_alpha)) 8
              + uchar4.z rcolor * foreground_alpha) blend_alpha ;;
  ret (store m (p + 2) (u8cast v2)).

Section BlendingPixel.
Variables (x y stride : Z) (plot_colors : Quad).

Definition BlendingPixel_RGBA (img : Image) : dev Image :=
  m <- for_loop 2 0 (fun i m =>
         for_loop 2 0 (fun j m =>
           blend_rgba_pixel m ((y + i) * stride + x * 4 + j * 4)
             (quad_get plot_colors (i * 2 + j))) m)
       (linear (image0 img)) ;;
  ret (mkImage (set_linear (image0 img) m) (image1 img)).

Definition BlendingPixel_RGB (img : Image) : dev Image :=
  m <- for_loop 2 0 (fun i m =>
         for_loop 2 0 (fun j m =>
           blend_rgb_pixel m ((y + i) * stride + x * 3 + j * 3)
             (quad_get plot_colors (i * 2 + j))) m)
       (linear (image0 img)) ;;
  ret (mkImage (set_linear (image0 img) m) (image1 img)).

(** Sum of the four alphas, and the alpha-weighted means of the G and B
    channels, shared by the two NV12 blenders. *)
Definition nv12_alpha_sum : Z :=
  uchar4.w (color0 plot_colors) + uchar4.w (color1 plot_colors)
  + uchar4.w (color2 plot_colors) + uchar4.w (color3 plot_colors).

Definition nv12_meanu : dev Z :=
  idiv (uchar4.y (color0 plot_colors) * uchar4.w (color0 plot_colors)
        + uchar4.y (color1 plot_colors) * uchar4.w (color1 plot_colors)
        + uchar4.y (color2 plot_colors) * uchar4.w (color2 plot_colors)
        + uchar4.y (color3 plot_colors) * uchar4.w (color3 plot_colors))
    nv12_alpha_sum.

Definition nv12_meanv : dev Z :=
  idiv (uchar4.z (color0 plot_colors) * uchar4.w (color0 plot_colors)
        + uchar4.z (color1 plot_colors) * uchar4.w (color1 plot_colors)
        + uchar4.z (color2 plot_colors) * uchar4.w (color2 plot_colors)
        + uchar4.z (color3 plot_colors) * uchar4.w (color3 plot_colors))
    nv12_alpha_sum.

(** [(c.x * c.w + (255 - c.w) * img_y) >> 8] *)
Definition nv12_luma (c : uchar4.t) (img_y : Z) : Z :=
  Z.shiftr (uchar4.x c * uchar4.w c + (255 - uchar4.w c) * img_y) 8.

Definition BlendingPixel_BlockLinearNV12 (img : Image) : dev Image :=
  let s0 := surface (image0 img) in
  let s1 := surface (image1 img) in
  let img_y0 := surf2Dread s0 (x + 0) y in
  let img_y1 := surf2Dread s0 (x + 1) y in
  let img_y2 := surf2Dread s0 (x + 0) (y + 1) in
  let img_y3 := surf2Dread s0 (x + 1) (y + 1) in
  let img_u := surf2Dread s1 x (Z.quot y 2) in
  let img_v := surf2Dread s1 (x + 1) (Z.quot y 2) in
  let alpha := nv12_alpha_sum in
  meanu <- nv12_meanu ;;
  meanv <- nv12_meanv ;;
  let alpha := Z.shiftr alpha 2 in
  let s0 := surf2Dwrite (nv12_luma (color0 plot_colors) img_y0) s0 (x + 0) y in
  let s0 := surf2Dwrite (nv12_luma (color1 plot_colors) img_y1) s0 (x + 1) y in
  let s0 := surf2Dwrite (nv12_luma (color2 plot_colors) img_y2) s0 (x + 0) (y + 1) in
  let s0 := surf2Dwrite (nv12_luma (color3 plot_colors) img_y3) s0 (x + 1) (y + 1) in
  let s1 := surf2Dwrite (Z.shiftr (alpha * meanu + (255 - alpha) * img_u) 8) s1 x (Z.quot y 2) in
  let s1 := surf2Dwrite (Z.shiftr (alpha * meanv + (255 - alpha) * img_v) 8) s1 (x + 1) (Z.quot y 2) in
  ret (mkImage (set_surface (image0 img) s0) (set_surface (image1 img) s1)).

(** The luma and chroma samples are references into the planes: each
    assignment reads the plane as the previous ones left it. *)
Definition BlendingPixel_PitchLinearNV12 (img : Image) : dev Image :=
  let m0 := linear (image0 img) in
  let m1 := linear (image1 img) in
  let img_y0 := y * stride + x + 0 in
  let img_y1 := y * stride + x + 1 in
  let img_y2 := (y + 1) * stride + x + 0 in
  let img_y3 := (y + 1) * stride + x + 1 in
  let img_uv_ptr := Z.quot y 2 * stride + x in
  let alpha := nv12_alpha_sum in
  meanu <- nv12_meanu ;;
  meanv <- nv12_meanv ;;
  let alpha := Z.shiftr alpha 2 in
  let m0 := store m0 img_y0 (nv12_luma (color0 plot_colors) (m0 img_y0)) in
  let m0 := store m0 img_y1 (nv12_luma (color1 plot_colors) (m0 img_y1)) in
  let m0 := store m0 img_y2 (nv12_luma (color2 plot_colors) (m0 img_y2)) in
  let m0 := store m0 img_y3 (nv12_luma (color3 plot_colors) (m0 img_y3)) in
  let m1 := store m1 img_uv_ptr
              (Z.shiftr (alpha * meanu + (255 - alpha) * m1 img_uv_ptr) 8) in
  let m1 := store m1 (img_uv_ptr + 1)
              (Z.shiftr (alpha * meanv + (255 - alpha) * m1 (img_uv_ptr + 1)) 8) in
  ret (mkImage (set_linear (image0 img) m0) (set_linear (image1 img) m1)).

(** [BlendingPixel<format>::call] *)
Definition BlendingPixel (format : ImageFormat) (img : Image) : dev Image :=
  match format with
  | RGB => BlendingPixel_RGB img
  | RGBA => BlendingPixel_RGBA img
  | BlockLinearNV12 => BlendingPixel_BlockLinearNV12 img
  | PitchLinearNV12 => BlendingPixel_PitchLinearNV12 img
  end.
End BlendingPixel.

(** ** The composite kernel *)

Module dim3.
Record t : Type := make { x : Z; y : Z }.
End dim3.

Record ThreadState : Type := mkThread { itext_line : Z; context_color : Quad }.

Definition zero_quad : Quad := mkQuad uchar4.zero uchar4.zero uchar4.zero uchar4.zero.

(** The bounding-box test of the command loop. *)
Definition outside_bounding (ix iy : Z) (pcommand : H.t) : bool :=
  (ix + 1 <? H.bounding_left pcommand) || (ix >? H.bounding_right pcommand)
  || (iy + 1 <? H.bounding_top pcommand) || (iy >? H.bounding_bottom pcommand).

Section RenderElementsKernel.
Variable format : ImageFormat.
Variable have_rotate_msaa : bool.
Variables bx by_ : Z.
Variable text_locations : Z -> TextLocation.t.
Variable text_bitmap : mem.
Variable text_bitmap_width : Z.
Variable line_location_base : Z -> Z.
Variable commands : Z -> Command.
Variable num_command : Z.
Variables image_width stride image_height : Z.

(** [for (j = ilocation_begin; j < ilocation_end; ++j)], leaving at the
    first glyph that is hit; [n] is the number of iterations left. *)
Fixpoint text_line_loop (n : nat) (j : Z) (ix iy : Z) (pcommand : H.t) (color : Quad)
    : dev Quad :=
  match n with
  | O => ret color
  | S n' =>
      r <- render_text (text_locations j) text_bitmap text_bitmap_width ix iy color
             (H.c0 pcommand) (H.c1 pcommand) (H.c2 pcommand) (H.c3 pcommand) ;;
      if fst r then ret (snd r)
      else text_line_loop n' (j + 1) ix iy pcommand (snd r)
  end.

(** One iteration of the command loop. *)
Definition command_body (ix iy : Z) (st : ThreadState) (pcommand : Command)
    : dev ThreadState :=
  if outside_bounding ix iy (header pcommand) then
    ret (if is_text pcommand
         then mkThread (itext_line st + 1) (context_color st)
         else st)
  else
    match pcommand with
    | Rectangle rect_cmd =>
        c <- do_rectangle rect_cmd have_rotate_msaa ix iy (context_color st) ;;
        ret (mkThread (itext_line st) c)
    | Text _ =>
        let ilocation_begin := line_location_base (itext_line st) in
        let ilocation_end := line_location_base (itext_line st + 1) in
        c <- text_line_loop (Z.to_nat (ilocation_end - ilocation_begin)) ilocation_begin
               ix iy (header pcommand) (context_color st) ;;
        ret (mkThread (itext_line st + 1) c)
    | Circle circle_cmd =>
        c <- render_circle_interpolation circle_cmd ix iy (context_color st) ;;
        ret (mkThread (itext_line st) c)
    | Segment seg_cmd =>
        c <- render_segment_bilinear seg_cmd ix iy (context_color st) ;;
        ret (mkThread (itext_line st) c)
    | RGBASource rgba_src_cmd =>
        let b := RGBASourceCommand.base rgba_src_cmd in
        ret (mkThread (itext_line st)
               (render_rgba_src ix iy
                  (H.bounding_left b) (H.bounding_top b)
                  (H.bounding_left b + RGBASourceCommand.width rgba_src_cmd)
                  (H.bounding_top b + RGBASourceCommand.height rgba_src_cmd)
                  (RGBASourceCommand.d_src rgba_src_cmd) (context_color st)))
    | NV12Source nv12_src_cmd =>
        let b := NV12SourceCommand.base nv12_src_cmd in
        ret (mkThread (itext_line st)
               (if NV12SourceCommand.block_linear nv12_src_cmd then
                  render_bl_nv12_src ix iy
                    (H.bounding_left b) (H.bounding_top b)
                    (H.bounding_left b + NV12SourceCommand.width nv12_src_cmd)
                    (H.bounding_top b + NV12SourceCommand.height nv12_src_cmd)
                    (surface (NV12SourceCommand.d_src0 nv12_src_cmd))
                    (surface (NV12SourceCommand.d_src1 nv12_src_cmd))
                    (context_color st) (H.c0 b) (H.c1 b) (H.c2 b) (H.c3 b)
                else
                  render_pl_nv12_src ix iy
                    (H.bounding_left b) (H.bounding_top b)
                    (H.bounding_left b + NV12SourceCommand.width nv12_src_cmd)
                    (H.bounding_top b + NV12SourceCommand.height nv12_src_cmd)
                    (linear (NV12SourceCommand.d_src0 nv12_src_cmd))
                    (linear (NV12SourceCommand.d_src1 nv12_src_cmd))
                    (context_color st) (H.c0 b) (H.c1 b) (H.c2 b) (H.c3 b)))
    | OtherCommand _ => ret st
    end.

(** [for (int i = 0; i < num_command; ++i)]: the commands in stream order. *)
Definition command_stream : list Command :=
  map (fun i => commands (Z.of_nat i)) (seq 0 (Z.to_nat num_command)).

Fixpoint command_loop (ix iy : Z) (cmds : list Command) (st : ThreadState)
    : dev ThreadState :=
  match cmds with
  | [] => ret st
  | pcommand :: rest =>
      st' <- command_body ix iy st pcommand ;;
      command_loop ix iy rest st'
  end.

(** Quad origin of a thread. *)
Definition quad_origin (dim idx tid : Z) (b : Z) : Z :=
  int_of_uint (uint (Z.shiftl (uint (dim * idx + tid)) 1 + b)).

Definition render_elements_kernel (blockDim blockIdx threadIdx : dim3.t) (img : Image)
    : dev Image :=
  let ix := quad_origin (dim3.x blockDim) (dim3.x blockIdx) (dim3.x threadIdx) bx in
  let iy := quad_origin (dim3.y blockDim) (dim3.y blockIdx) (dim3.y threadIdx) by_ in
  if (ix <? 0) || (iy <? 0) || (ix >=? image_width - 1) || (iy >=? image_height - 1)
  then ret img
  else
    st <- command_loop ix iy command_stream (mkThread 0 zero_quad) ;;
    let context_color := context_color st in
    if (uchar4.w (color0 context_color) =? 0) && (uchar4.w (color1 context_color) =? 0)
       && (uchar4.w (color2 context_color) =? 0) && (uchar4.w (color3 context_color) =? 0)
    then ret img
    else BlendingPixel ix iy stride context_color format img.
End RenderElementsKernel.

(** ** Kernel launches

    The threads of a grid run in some order the device chooses; the model
    runs them one after the other, block by block.  Every thread of the
    composite kernel owns its quad, so the order does not show there. *)

Fixpoint foldM {A S : Type} (f : A -> S -> dev S) (l : list A) (s : S) : dev S :=
  match l with
  | [] => ret s
  | a :: rest => s' <- f a s ;; foldM f rest s'
  end.

Definition range (n : Z) : list Z := map Z.of_nat (seq 0 (Z.to_nat n)).

(** The pairs (blockIdx, threadIdx) of a launch [<<<grid, block>>>]. *)
Definition grid_threads (grid block : dim3.t) : list (dim3.t * dim3.t) :=
  flat_map (fun biy =>
    flat_map (fun bix =>
      flat_map (fun tiy =>
        map (fun tix => (dim3.make bix biy, dim3.make tix tiy))
          (range (dim3.x block)))
        (range (dim3.y block)))
      (range (dim3.x grid)))
    (range (dim3.y grid)).

Definition launch (grid block : dim3.t)
    (kernel : dim3.t -> dim3.t -> dim3.t -> Image -> dev Image) (img : Image)
    : dev Image :=
  foldM (fun bt img => kernel block (fst bt) (snd bt) img) (grid_threads grid block) img.

(** ** The box-blur kernel *)

Module uchar3.
Record t : Type := make { x : Z; y : Z; z : Z }.
End uchar3.

Definition make_uchar3 (x y z : Z) : uchar3.t := uchar3.make (u8 x) (u8 y) (u8 z).

Definition yuv2rgb (y u v : Z) : uchar3.t :=
  let iyval := 1220542 * max 0 (y - 16) in
  uchar3.make
    (u8cast (Z.shiftr (iyval + 1673527 * (v - 128) + Z.shiftl 1 19) 20))
    (u8cast (Z.shiftr (iyval - 852492 * (v - 128) - 409993 * (u - 128) + Z.shiftl 1 19) 20))
    (u8cast (Z.shiftr (iyval + 2116026 * (u - 128) + Z.shiftl 1 19) 20)).

(** The three results are stored to [uint8_t]. *)
Definition rgb2yuv (r g b : Z) : uchar3.t :=
  uchar3.make
    (u8 (Z.shiftr (66 * r + 129 * g + 25 * b + 128) 8 + 16))
    (u8 (Z.shiftr (-38 * r - 74 * g + 112 * b + 128) 8 + 128))
    (u8 (Z.shiftr (112 * r - 94 * g - 18 * b + 128) 8 + 128)).

Definition load_pixel (format : ImageFormat) (img : Image)
    (x y down_x width stride : Z) : uchar3.t :=
  match format with
  | BlockLinearNV12 =>
      let yv := surf2Dread (surface (image0 img)) x y in
      let uv := surf2Dread (surface (image1 img)) (down_x + 0) (Z.quot y 2) in
      let vv := surf2Dread (surface (image1 img)) (down_x + 1) (Z.quot y 2) in
      yuv2rgb yv uv vv
  | PitchLinearNV12 =>
      let yv := linear (image0 img) (y * stride + x) in
      let uv := linear (image1 img) (Z.quot y 2 * stride + down_x + 0) in
      let vv := linear (image1 img) (Z.quot y 2 * stride + down_x + 1) in
      yuv2rgb yv uv vv
  | RGB =>
      uchar3.make (linear (image0 img) (y * stride + x * 3))
        (linear (image0 img) (y * stride + x * 3 + 1))
        (linear (image0 img) (y * stride + x * 3 + 2))
  | RGBA =>
      uchar3.make (linear (image0 img) (y * stride + x * 4))
        (linear (image0 img) (y * stride + x * 4 + 1))
        (linear (image0 img) (y * stride + x * 4 + 2))
  end.

Definition save_pixel (format : ImageFormat) (img : Image)
    (x y down_x width stride : Z) (pix : uchar3.t) : Image :=
  let r := uchar3.x pix in
  let g := uchar3.y pix in
  let b := uchar3.z pix in
  match format with
  | BlockLinearNV12 =>
      let yuv := rgb2yuv r g b in
      let s0 := surf2Dwrite (uchar3.x yuv) (surface (image0 img)) x y in
      let s1 := surf2Dwrite (uchar3.y yuv) (surface (image1 img)) (down_x + 0) (Z.quot y 2) in
      let s1 := surf2Dwrite (uchar3.z yuv) s1 (down_x + 1) (Z.quot y 2) in
      mkImage (set_surface (image0 img) s0) (set_surface (image1 img) s1)
  | PitchLinearNV12 =>
      let yuv := rgb2yuv r g b in
      let m0 := store (linear (image0 img)) (y * stride + x) (uchar3.x yuv) in
      let m1 := store (linear (image1 img)) (Z.quot y 2 * stride + down_x + 0) (uchar3.y yuv) in
      let m1 := store m1 (Z.quot y 2 * stride + down_x + 1) (uchar3.z yuv) in
      mkImage (set_linear (image0 img) m0) (set_linear (image1 img) m1)
  | RGB =>
      let m := store (linear (image0 img)) (y * stride + x * 3) r in
      let m := store m (y * stride + x * 3 + 1) g in
      let m := store m (y * stride + x * 3 + 2) b in
      mkImage (set_linear (image0 img) m) (image1 img)
  | RGBA =>
      let m := store (linear (image0 img)) (y * stride + x * 4) r in
      let m := store m (y * stride + x * 4 + 1) g in
      let m := store m (y * stride + x * 4 + 2) b in
      let m := store m (y * stride + x * 4 + 3) 255 in
      mkImage (set_linear (image0 img) m) (image1 img)
  end.

(** [__shared__ uchar3 crop[32][32]], indexed [crop[row][column]]. *)
Definition tile : Type := Z -> Z -> uchar3.t.

Definition tile_set (t : tile) (u v : Z) (c : uchar3.t) : tile :=
  fun u' v' => if (u' =? u) && (v' =? v) then c else t u' v'.

(** The threads (ix, iy) of a 32 x 32 block. *)
Definition block_threads : list (Z * Z) :=
  flat_map (fun iy => map (fun ix => (ix, iy)) (range 32)) (range 32).

Section RenderBlurKernel.
Variable format : ImageFormat.
Variable commands : Z -> BoxBlurCommand.t.
Variable num_command : Z.
Variables image_width stride image_height : Z.

Section Block.
Variable box : BoxBlurCommand.t.

Definition boxwidth : Z :=
  H.bounding_right (BoxBlurCommand.base box) - H.bounding_left (BoxBlurCommand.base box).
Definition boxheight : Z :=
  H.bounding_bottom (BoxBlurCommand.base box) - H.bounding_top (BoxBlurCommand.base box).

(** Up to the first barrier: every thread stages one pixel. *)
Definition blur_stage (img : Image) (ixy : Z * Z) (crop : tile) : dev tile :=
  let ix := fst ixy in
  let iy := snd ixy in
  let sx := limit (F32.to_int (F32.of_int ix / F32.of_int 32 * F32.of_int boxwidth + F32.half
                               + F32.of_int (H.bounding_left (BoxBlurCommand.base box)))%f32)
              0 image_width in
  let sy := limit (F32.to_int (F32.of_int iy / F32.of_int 32 * F32.of_int boxheight + F32.half
                               + F32.of_int (H.bounding_top (BoxBlurCommand.base box)))%f32)
              0 image_height in
  ret (tile_set crop iy ix
         (load_pixel format img sx sy (int_of_uint (round_down2 sx)) image_width stride)).

(** Between the barriers: the mean of the window, read from the staged
    tile [crop] and written to the tile [out] once every thread has
    read. *)
Definition blur_mean (crop : tile) (ixy : Z * Z) (out : tile) : dev tile :=
  let ix := fst ixy in
  let iy := snd ixy in
  let lo := Z.quot (- BoxBlurCommand.kernel_size box) 2 in
  let hi := Z.quot (BoxBlurCommand.kernel_size box) 2 in
  acc <- for_loop (Z.to_nat (hi - lo + 1)) lo (fun i acc =>
           for_loop (Z.to_nat (hi - lo + 1)) lo (fun j acc =>
             let u := i + iy in
             let v := j + ix in
             if (u >=? 0) && (u <? 32) && (v >=? 0) && (v <? 32) then
               let c := crop u v in
               let '(color, n) := acc in
               ret (uchar3.make (uint (uchar3.x color + uchar3.x c))
                      (uint (uchar3.y color + uchar3.y c))
                      (uint (uchar3.z color + uchar3.z c)), n + 1)
             else ret acc) acc)
         (uchar3.make 0 0 0, 0) ;;
  let '(color, n) := acc in
  r <- idiv (uchar3.x color) n ;;
  g <- idiv (uchar3.y color) n ;;
  b <- idiv (uchar3.z color) n ;;
  ret (tile_set out iy ix (make_uchar3 r g b)).

(** After the last barrier: the blurred tile is written back. *)
Definition blur_write (crop : tile) (ixy : Z * Z) (img : Image) : dev Image :=
  let ix := fst ixy in
  let iy := snd ixy in
  let gap_width := Z.quot (boxwidth + 31) 32 in
  let gap_height := Z.quot (boxheight + 31) 32 in
  for_loop (Z.to_nat gap_height) 0 (fun i img =>
    for_loop (Z.to_nat gap_width) 0 (fun j img =>
      let fx := ix * gap_width + j + H.bounding_left (BoxBlurCommand.base box) in
      let fy := iy * gap_height + i + H.bounding_top (BoxBlurCommand.base box) in
      if (fx >=? 0) && (fx <? image_width) && (fy >=? 0) && (fy <? image_height) then
        let sx := F32.to_int (F32.of_int (ix * gap_width + j) / F32.of_int boxwidth
                              * F32.of_int 32)%f32 in
        let sy := F32.to_int (F32.of_int (iy * gap_height + i) / F32.of_int boxheight
                              * F32.of_int 32)%f32 in
        if (sx <? 32) && (sy <? 32) then
          ret (save_pixel format img fx fy (int_of_uint (round_down2 sx))
                 image_width stride (crop sy sx))
        else ret img
      else ret img) img) img.

Definition render_blur_block (img : Image) : dev Image :=
  staged <- foldM (blur_stage img) block_threads (fun _ _ => uchar3.make 0 0 0) ;;
  blurred <- foldM (blur_mean staged) block_threads staged ;;
  foldM (blur_write blurred) block_threads img.
End Block.

(** One block per blur command ([commands[blockIdx.x]]). *)
Definition render_blur_kernel (gridDim : Z) (img : Image) : dev Image :=
  foldM (fun blockIdx img => render_blur_block (commands blockIdx) img) (range gridDim) img.
End RenderBlurKernel.

(** ** The launch functions *)

Inductive Message : Type :=
  | Warning_nothing_to_draw
  | Error_unsupported_configure (index : Z).

(** What the host does that can be observed: the lines it prints and the
    kernels it launches. *)
Inductive Event : Type :=
  | Print (m : Message)
  | LaunchElements (format : ImageFormat) (have_rotate_msaa : bool)
      (grid block : dim3.t) (bx by_ : Z)
  | LaunchBlur (format : ImageFormat) (grid : Z).

Record Outcome : Type := mkOutcome { surface_after : Image; events : list Event }.

Section LaunchKernel.
Variables (image : Image) (width stride height : Z).
Variable text_location : Z -> TextLocation.t.
Variable text_bitmap : mem.
Variable text_bitmap_width : Z.
Variable line_location_base : Z -> Z.
Variable commands : Z -> Command.
Variable num_commands : Z.
Variables bounding_left bounding_top bounding_right bounding_bottom : Z.

(** [cuosd_launch_kernel_impl<format, have_rotate_msaa>]; the kernel
    launch itself is taken to succeed. *)
Definition cuosd_launch_kernel_impl (format : ImageFormat) (have_rotate_msaa : bool)
    (img : Image) : dev Outcome :=
  let bounding_left := max (min bounding_left (width - 1)) 0 in
  let bounding_top := max (min bounding_top (height - 1)) 0 in
  let bounding_right := max (min bounding_right (width - 1)) 0 in
  let bounding_bottom := max (min bounding_bottom (height - 1)) 0 in
  let bounding_left := int_of_uint (round_down2 bounding_left) in
  let bounding_top := int_of_uint (round_down2 bounding_top) in
  let bounding_width := bounding_right - bounding_left + 1 in
  let bounding_height := bounding_bottom - bounding_top + 1 in
  if (bounding_width <? 1) || (bounding_height <? 1) then
    ret (mkOutcome img [Print Warning_nothing_to_draw])
  else
    let block := dim3.make 16 8 in
    let grid :=
      dim3.make
        (uint (Z.quot (bounding_width + 1) 2 + dim3.x block - 1) / dim3.x block)
        (uint (Z.quot (bounding_height + 1) 2 + dim3.y block - 1) / dim3.y block) in
    img' <- launch grid block
              (render_elements_kernel format have_rotate_msaa bounding_left bounding_top
                 text_location text_bitmap text_bitmap_width line_location_base
                 commands num_commands width stride height) img ;;
    ret (mkOutcome img'
           [LaunchElements format have_rotate_msaa grid block bounding_left bounding_top]).

(** [cuosd_launch_blur_kernel_impl<format>] *)
Definition cuosd_launch_blur_kernel_impl (format : ImageFormat)
    (blur_commands : Z -> BoxBlurCommand.t) (num_blur_commands : Z) (img : Image)
    : dev Outcome :=
  if num_blur_commands <? 1 then
    ret (mkOutcome img [Print Warning_nothing_to_draw])
  else
    let grid := num_blur_commands in
    img' <- render_blur_kernel format blur_commands width stride height grid img ;;
    ret (mkOutcome img' [LaunchBlur format grid]).

(** The two tables of specializations. *)
Definition blur_func_list : list ImageFormat :=
  [RGB; RGBA; BlockLinearNV12; PitchLinearNV12].

Definition func_list : list (ImageFormat * bool) :=
  [(RGB, false); (RGBA, false); (BlockLinearNV12, false); (PitchLinearNV12, false);
   (RGB, true); (RGBA, true); (BlockLinearNV12, true); (PitchLinearNV12, true)].

(** The second half of [cuosd_launch_kernel], reached unless the blur
    half returned; [done] is what has been printed and launched so far. *)
Definition launch_elements (format : Z) (have_rotate_msaa : bool)
    (img : Image) (done : list Event) : dev Outcome :=
  if num_commands >? 0 then
    let index := b2z have_rotate_msaa * 4 + format - 1 in
    if (index <? 0) || (index >=? Z.of_nat (length func_list)) then
      ret (mkOutcome img (done ++ [Print (Error_unsupported_configure index)]))
    else
      match nth_error func_list (Z.to_nat index) with
      | Some f =>
          r <- cuosd_launch_kernel_impl (fst f) (snd f) img ;;
          ret (mkOutcome (surface_after r) (done ++ events r))
      | None => ret (mkOutcome img done)
      end
  else ret (mkOutcome img done).

(** [cuosd_launch_kernel]; [format] is the integer value of the
    [ImageFormat] argument. *)
Definition cuosd_launch_kernel (format : Z) (have_rotate_msaa : bool)
    (blur_commands : Z -> BoxBlurCommand.t) (num_blur_commands : Z) : dev Outcome :=
  if num_blur_commands >? 0 then
    let index := format - 1 in
    if (index <? 0) || (index >=? Z.of_nat (length blur_func_list)) then
      ret (mkOutcome image [Print (Error_unsupported_configure index)])
    else
      match nth_error blur_func_list (Z.to_nat index) with
      | Some f =>
          r <- cuosd_launch_blur_kernel_impl f blur_commands num_blur_commands image ;;
          launch_elements format have_rotate_msaa (surface_after r) (events r)
      | None => ret (mkOutcome image [])
      end
  else launch_elements format have_rotate_msaa image [].
End LaunchKernel.

(** ** Vocabulary of the statements *)

Definition is_byte (v : Z) : Prop := 0 <= v < 256.

(** ** The format tag *)

(** Position of a format in the dispatch tables. *)
Definition format_tag (f : ImageFormat) : Z :=
  match f with
  | RGB => 0
  | RGBA => 1
  | BlockLinearNV12 => 2
  | PitchLinearNV12 => 3
  end.

(** Modelled from the spec: the header [cuosd_kernel.h], which declares
    [enum class ImageFormat], is not among the sources.  The launch function
    subtracts 1 from [(int)format] to reach the table positions
    RGB=0, RGBA=1, BlockLinearNV12=2, PitchLinearNV12=3 of the spec, so the
    enumerators are numbered from 1, the value 0 being no format. *)
Definition ImageFormat_value (f : ImageFormat) : Z := format_tag f + 1.

(** ** Scenarios

    Small closed inputs on which the launch function is evaluated: a 2 x 2
    RGBA surface of stride 8, one command, no blur rectangle. *)

Module Scenario.
Definition no_surface : surf := fun _ _ => 0.

(** An RGBA surface whose every pixel is [px]. *)
Definition rgba_surface (px : uchar4.t) : Image :=
  mkImage
    (mkHandle (fun a => if a mod 4 =? 0 then uchar4.x px
                        else if a mod 4 =? 1 then uchar4.y px
                        else if a mod 4 =? 2 then uchar4.z px
                        else uchar4.w px) no_surface)
    (mkHandle (fun _ => 0) no_surface).

Definition black_opaque : Image := rgba_surface (uchar4.make 0 0 0 255).
Definition black_transparent : Image := rgba_surface (uchar4.make 0 0 0 0).

(** One glyph of [w] x [h] pixels at the origin, in an atlas of row width
    [w] whose bytes are all 200. *)
Definition glyph (w h : Z) : TextLocation.t := TextLocation.make 0 0 0 w h.
Definition atlas : mem := fun _ => 200.
Definition line_base : Z -> Z := fun k => k.

Definition text_command : Command :=
  Text (TextCommand.make (H.make 0 0 1 1 10 20 30 255) 1 0).

(** An axis-aligned rectangle around the whole surface, colour (255, 0, 0)
    with alpha [c3]; its inner quad has the corners (0,0), (0,4), (4,4),
    (4,0). *)
Definition rectangle (c3 thickness : Z) : RectangleCommand.t :=
  RectangleCommand.make (H.make 0 0 1 1 255 0 0 c3)
    (F32.of_int (-1)) (F32.of_int (-1)) (F32.of_int (-1)) (F32.of_int 5)
    (F32.of_int 5) (F32.of_int 5) (F32.of_int 5) (F32.of_int (-1))
    (F32.of_int 0) (F32.of_int 0) (F32.of_int 0) (F32.of_int 4)
    (F32.of_int 4) (F32.of_int 4) (F32.of_int 4) (F32.of_int 0)
    thickness false.

(** The same rectangle, filled. *)
Definition rectangle_command (c3 : Z) : Command := Rectangle (rectangle c3 (-1)).

(** A 2 x 2 segmentation mask that is below its threshold everywhere. *)
Definition segment_command : Command :=
  Segment
    (SegmentCommand.make (H.make 0 0 2 2 0 255 0 255)
       (fun _ => F32.zero) 2 2 (F32.of_int 1) (F32.of_int 1) F32.half).

Definition no_blur : Z -> BoxBlurCommand.t :=
  fun _ => BoxBlurCommand.make (H.make 0 0 0 0 0 0 0 0) 1.

(** [cuosd_launch_kernel] on the surface [img] with the single command
    [cmd], the glyph being [w] x [h]; the format argument is the one that
    selects the RGBA specializations. *)
Definition launch_one (img : Image) (cmd : Command) (w h : Z) : dev Outcome :=
  cuosd_launch_kernel img 2 8 2
    (fun _ => glyph w h) atlas w line_base
    (fun _ => cmd) 1 0 0 1 1 (ImageFormat_value RGBA) false no_blur 0.

(** The bytes of the pixel (x, y) after a launch. *)
Definition pixel_after (o : dev Outcome) (x y : Z) : list Z :=
  map (fun k => linear (image0 (surface_after (value o))) (y * 8 + x * 4 + k)) [0; 1; 2; 3].
(** A circle of radius 5 around (10, 10), filled or with a stroke. *)
Definition circle (thickness : Z) : CircleCommand.t :=
  CircleCommand.make (H.make 0 0 20 20 1 2 3 255) 10 10 5 thickness.
End Scenario.

(** Number of text commands of a command list. *)
Fixpoint count_text (cmds : list Command) : Z :=
  match cmds with
  | [] => 0
  | c :: rest => (if is_text c then 1 else 0) + count_text rest
  end.

(** ** Vocabulary of the coverage statements *)

(** Signed cross product of the edge vector from (ox, oy) to (ex, ey) with
    the vector from (ox, oy) to the point (px, py), in binary32. *)
Definition edge_cross (ox oy ex ey px py : F32.float) : F32.float :=
  ((ex - ox) * (py - oy) - (ey - oy) * (px - ox))%f32.

(** A float that compares below zero. *)
Definition negative (v : F32.float) : Prop := F32.ltb v F32.zero = true.

(** ** Vocabulary of the frame statements *)

(** A byte of the destination: in the memory behind one of the two
    pointers, or in one of the two surface objects. *)
Inductive location : Type :=
  | Linear0 (a : Z)
  | Linear1 (a : Z)
  | Surface0 (x y : Z)
  | Surface1 (x y : Z).

Definition read_location (img : Image) (l : location) : Z :=
  match l with
  | Linear0 a => linear (image0 img) a
  | Linear1 a => linear (image1 img) a
  | Surface0 x y => surface (image0 img) x y
  | Surface1 x y => surface (image1 img) x y
  end.

Definition bytes_per_pixel (format : ImageFormat) : Z :=
  match format with
  | RGB => 3
  | RGBA => 4
  | BlockLinearNV12 => 1
  | PitchLinearNV12 => 1
  end.

(** The bytes of the pixel (px, py): its channels in the packed formats;
    in the NV12 formats its luma sample and the sample of the chroma plane
    in the same column, on the chroma row [py / 2]. *)
Definition pixel_owns (format : ImageFormat) (stride px py : Z) (l : location) : Prop :=
  match format, l with
  | RGB, Linear0 a => exists k, 0 <= k < 3 /\ a = py * stride + px * 3 + k
  | RGBA, Linear0 a => exists k, 0 <= k < 4 /\ a = py * stride + px * 4 + k
  | BlockLinearNV12, Surface0 sx sy => sx = px /\ sy = py
  | BlockLinearNV12, Surface1 sx sy => sx = px /\ sy = Z.quot py 2
  | PitchLinearNV12, Linear0 a => a = py * stride + px
  | PitchLinearNV12, Linear1 a => a = Z.quot py 2 * stride + px
  | _, _ => False
  end.

(** The grid origin that [cuosd_launch_kernel_impl] derives from a bound of
    the bounding box: clipped to the image, then rounded down to even. *)
Definition grid_origin (bounding size : Z) : Z :=
  int_of_uint (round_down2 (max (min bounding (size - 1)) 0)).

(** The pixels of the quads that a launch with grid origin (bx, by) can
    blend on a surface of the given size. *)
Definition blendable (bx by_ width height px py : Z) : Prop :=
  exists ix iy i j,
    px = ix + i /\ py = iy + j /\ 0 <= i <= 1 /\ 0 <= j <= 1
    /\ 0 <= ix <= width - 2 /\ 0 <= iy <= height - 2
    /\ ix mod 2 = bx mod 2 /\ iy mod 2 = by_ mod 2.

(** ** Vocabulary of the binary32 order *)

(** The mantissa of a small integer once it is aligned on 24 digits. *)
Definition align24 (p : positive) : positive :=
  match (24 - Zpos (digits2_pos p))%Z with
  | Zpos k => Pos.iter xO p k
  | _ => p
  end.

(** A key whose lexicographic order is the order [SFcompare] computes on
    the values that are not NaN. *)
Definition order_key (v : spec_float) : Z * Z * Z :=
  match v with
  | S754_infinity true => (-2, 0, 0)
  | S754_finite true m e => (-1, - e, - Zpos m)
  | S754_zero _ => (0, 0, 0)
  | S754_nan => (0, 0, 0)
  | S754_finite false m e => (1, e, Zpos m)
  | S754_infinity false => (2, 0, 0)
  end.

Definition is_nan (v : spec_float) : bool :=
  match v with S754_nan => true | _ => false end.

Definition key_lt (a b : Z * Z * Z) : Prop :=
  fst (fst a) < fst (fst b)
  \/ (fst (fst a) = fst (fst b)
      /\ (snd (fst a) < snd (fst b)
          \/ (snd (fst a) = snd (fst b) /\ snd a < snd b))).

Definition key_le (a b : Z * Z * Z) : Prop :=
  fst (fst a) < fst (fst b)
  \/ (fst (fst a) = fst (fst b)
      /\ (snd (fst a) < snd (fst b)
          \/ (snd (fst a) = snd (fst b) /\ snd a <= snd b))).

(** Comparisons of a distance with an integer bound, as the kernel makes
    them: the bound is converted to binary32. *)
Definition dist_lt (r : F32.float) (n : Z) : Prop := F32.ltb r (F32.of_int n) = true.
Definition dist_le (r : F32.float) (n : Z) : Prop := F32.leb r (F32.of_int n) = true.
Definition dist_ge (r : F32.float) (n : Z) : Prop := F32.geb r (F32.of_int n) = true.
Definition dist_gt (r : F32.float) (n : Z) : Prop := F32.gtb r (F32.of_int n) = true.

(** Where the inner ramp of a circle border starts: [max (inner - 1) 0]. *)
Definition inner_edge (inner : Z) : Z := if inner - 1 <? 0 then 0 else inner - 1.

(** The linear ramps of the circle border, as the kernel evaluates them. *)
Definition outer_ramp (r : F32.float) (outer c3 : Z) : Z :=
  F32.to_uchar ((F32.of_int (outer + 1) - r) / F32.of_int 1 * F32.of_int c3)%f32.

Definition inner_ramp (r : F32.float) (inner_edge c3 : Z) : Z :=
  F32.to_uchar ((r - F32.of_int inner_edge) / F32.of_int 1 * F32.of_int c3)%f32.


(** ** Further vocabulary *)

(** The 8-bit mix [(fg * a + (255 - a) * dst) >> 8] of the NV12 blits. *)
Definition mix8 (fg a dst : Z) : Z := Z.shiftr (fg * a + (255 - a) * dst) 8.

(** A colour whose four components are bytes, and a quad of such colours. *)
Definition color_wf (c : uchar4.t) : Prop :=
  is_byte (uchar4.x c) /\ is_byte (uchar4.y c) /\ is_byte (uchar4.z c) /\ is_byte (uchar4.w c).

Definition quad_wf (q : Quad) : Prop :=
  color_wf (color0 q) /\ color_wf (color1 q) /\ color_wf (color2 q) /\ color_wf (color3 q).

(** Number of the four sub-samples of the pixel (ix, iy), at the offsets
    (-1/4, -1/4), (+1/4, -1/4), (+1/4, +1/4) and (-1/4, +1/4), that
    [inbox_single_pixel] finds inside the quad a-b-c-d. *)
Definition samples_inside (ix iy ax ay bx by_ cx cy dx dy : F32.float) : Z :=
  b2z (inbox_single_pixel (ix - F32.quarter)%f32 (iy - F32.quarter)%f32 ax ay bx by_ cx cy dx dy)
  + b2z (inbox_single_pixel (ix + F32.quarter)%f32 (iy - F32.quarter)%f32 ax ay bx by_ cx cy dx dy)
  + b2z (inbox_single_pixel (ix + F32.quarter)%f32 (iy + F32.quarter)%f32 ax ay bx by_ cx cy dx dy)
  + b2z (inbox_single_pixel (ix - F32.quarter)%f32 (iy + F32.quarter)%f32 ax ay bx by_ cx cy dx dy).

(** ** Constructors of the commands *)

(** [CircleCommand::CircleCommand] *)
Definition CircleCommand_ctor (cx cy radius thickness c0 c1 c2 c3 : Z) : CircleCommand.t :=
  let half_thickness := Z.quot (thickness + 1) 2 + 2 in
  CircleCommand.make
    (H.make (cx - radius - half_thickness) (cy - radius - half_thickness)
       (cx + radius + half_thickness) (cy + radius + half_thickness)
       c0 c1 c2 c3)
    cx cy radius thickness.

(** [RGBASourceCommand::RGBASourceCommand].  The constructor does not assign
    the colour fields of the header; [unset] is the header as it was
    allocated. *)
Definition RGBASourceCommand_ctor (unset : H.t) (cx cy width height : Z) (d_src : mem)
    : RGBASourceCommand.t :=
  RGBASourceCommand.make
    (H.make (cx - Z.quot (width + 1) 2) (cy - Z.quot (height + 1) 2)
       (cx + Z.quot (width + 1) 2) (cy + Z.quot (height + 1) 2)
       (H.c0 unset) (H.c1 unset) (H.c2 unset) (H.c3 unset))
    cx cy width height d_src.

(** [NV12SourceCommand::NV12SourceCommand] *)
Definition NV12SourceCommand_ctor (cx cy width height : Z) (d_src0 d_src1 : handle)
    (block_linear : bool) (c0 c1 c2 c3 : Z) : NV12SourceCommand.t :=
  NV12SourceCommand.make
    (H.make (cx - Z.quot (width + 1) 2) (cy - Z.quot (height + 1) 2)
       (cx + Z.quot (width + 1) 2) (cy + Z.quot (height + 1) 2)
       c0 c1 c2 c3)
    cx cy width height d_src0 d_src1 block_linear.

(** The commands that blend behind an [if (alpha)] guard only, or that do
    not blend at all: every command but the rectangles and the
    segmentation masks. *)
Definition guarded_command (c : Command) : bool :=
  match c with
  | Rectangle _ | Segment _ => false
  | _ => true
  end.

(** Number of the columns (or rows) 0..31 of a tile that are below [k]. *)
Definition tile_below (k : Z) : Z := Z.max 0 (Z.min k 32).

(** A binary32 value whose sign bit is clear, or a NaN. *)
Definition sign_clear (v : F32.float) : Prop :=
  match v with
  | S754_zero s | S754_infinity s | S754_finite s _ _ => s = false
  | S754_nan => True
  end.

(** The interpolation weight [lx] (or [ly]) of [sample_pixel_bilinear] for
    the destination column (or row) [x], the scale [s] and a mask of
    [size] columns (or rows). *)
Definition bilinear_weight (x : Z) (s : F32.float) (size : Z) : Z :=
  let src := ((F32.of_int x + F32.half) * s - F32.half)%f32 in
  let low := limit (F32.to_int (F32.floorf src)) 0 (size - 1) in
  F32.to_int (F32.rint ((src - F32.of_int low) * F32.of_int INTER_RESIZE_COEF_SCALE)%f32).

(** ** Vocabulary of the scheduling statements *)

(** Two surfaces that hold the same bytes on a set of locations. *)
Definition agree_on (S : location -> Prop) (a b : Image) : Prop :=
  forall l, S l -> read_location a l = read_location b l.

(** The bytes of the four pixels of the quad at (ix, iy). *)
Definition quad_owns (format : ImageFormat) (stride ix iy : Z) (l : location) : Prop :=
  exists i j, 0 <= i <= 1 /\ 0 <= j <= 1 /\ pixel_owns format stride (ix + i) (iy + j) l.

(** The bytes of a thread of the composite kernel: those of its quad when
    the quad is inside the image, none when the thread returns at once. *)
Definition thread_owns (format : ImageFormat) (image_width stride image_height ix iy : Z)
    (l : location) : Prop :=
  0 <= ix < image_width - 1 /\ 0 <= iy < image_height - 1
  /\ quad_owns format stride ix iy l.

(** Two results of the device that cannot be told apart: the same flag,
    and surfaces that hold the same bytes everywhere. *)
Definition same_result (r1 r2 : dev Image) : Prop :=
  div_by_zero r1 = div_by_zero r2
  /\ forall l, read_location (value r1) l = read_location (value r2) l.

(** The quad origin of the thread [(blockIdx, threadIdx)]. *)
Definition thread_origin (blockDim : dim3.t) (bx by_ : Z) (bt : dim3.t * dim3.t) : Z * Z :=
  (quad_origin (dim3.x blockDim) (dim3.x (fst bt)) (dim3.x (snd bt)) bx,
   quad_origin (dim3.y blockDim) (dim3.y (fst bt)) (dim3.y (snd bt)) by_).

(** * Properties *)

(** ** Integer facts *)

Lemma shiftr8_eq (a q r : Z) : a = q * 256 + r -> 0 <= r < 256 -> Z.shiftr a 8 = q.
Proof.
  intros -> Hr. rewrite Z.shiftr_div_pow2 by lia. change (2 ^ 8) with 256.
  rewrite Z.div_add_l by lia. rewrite Z.div_small by lia. lia.
Qed.

Lemma u8cast_byte (v : Z) : is_byte v -> u8cast v = v.
Proof.
  unfold is_byte, u8cast. intros Hv.
  destruct (Z.ltb_spec v 0); [lia|].
  destruct (v >? 255) eqn:E; [apply Z.gtb_lt in E; lia | reflexivity].
Qed.

Lemma u8_byte (v : Z) : is_byte v -> u8 v = v.
Proof. unfold is_byte, u8. intros Hv. apply Z.mod_small. exact Hv. Qed.

Lemma store_same (m : mem) (a v : Z) : store m a v a = u8 v.
Proof. unfold store. rewrite Z.eqb_refl. reflexivity. Qed.

Lemma store_other (m : mem) (a v a' : Z) : a' <> a -> store m a v a' = m a'.
Proof. unfold store. intros Hne. destruct (Z.eqb_spec a' a); [contradiction | reflexivity]. Qed.

(** Reading back through a chain of stores at distinct addresses. *)
Ltac store_read :=
  repeat first [ rewrite store_same | rewrite store_other by lia ].

(** ** Source-over at the alpha extremes *)

(** An opaque foreground replaces the accumulator pixel. *)
Lemma blend_single_color_opaque (dst : uchar4.t) (c0 c1 c2 : Z) :
  is_byte c0 -> is_byte c1 -> is_byte c2 ->
  blend_single_color dst c0 c1 c2 255 = ret (uchar4.make c0 c1 c2 255).
Proof.
  intros H0 H1 H2. unfold blend_single_color, bind, idiv, ret. cbn [value div_by_zero].
  replace (255 - 255) with 0 by lia. rewrite !Z.mul_0_r.
  change (Z.shiftr 0 8) with 0. cbn [Z.add].
  rewrite !Z.quot_mul by lia. rewrite !u8cast_byte by assumption.
  reflexivity.
Qed.

(** A transparent foreground lowers the alpha of the accumulator pixel by
    one. *)
Lemma blend_single_color_transparent_alpha (dst : uchar4.t) (c0 c1 c2 : Z) :
  2 <= uchar4.w dst <= 255 ->
  uchar4.w (value (blend_single_color dst c0 c1 c2 0)) = uchar4.w dst - 1
  /\ div_by_zero (blend_single_color dst c0 c1 c2 0) = false.
Proof.
  intros Hw. unfold blend_single_color, bind, idiv, ret. cbn [value div_by_zero uchar4.w].
  rewrite (shiftr8_eq (uchar4.w dst * (255 - 0)) (uchar4.w dst - 1) (256 - uchar4.w dst))
    by lia.
  rewrite Z.add_0_r. split.
  - apply u8_byte. unfold is_byte. lia.
  - destruct (Z.eqb_spec (uchar4.w dst - 1) 0); [lia | reflexivity].
Qed.

(** Over an opaque pixel a transparent foreground keeps the colour. *)
Lemma blend_single_color_transparent_opaque (r g b c0 c1 c2 : Z) :
  is_byte r -> is_byte g -> is_byte b ->
  blend_single_color (uchar4.make r g b 255) c0 c1 c2 0 = ret (uchar4.make r g b 254).
Proof.
  intros Hr Hg Hb. unfold blend_single_color, bind, idiv, ret.
  cbn [value div_by_zero uchar4.x uchar4.y uchar4.z uchar4.w].
  unfold is_byte in *.
  rewrite (shiftr8_eq (r * 255 * (255 - 0)) (r * 254) r) by lia.
  rewrite (shiftr8_eq (g * 255 * (255 - 0)) (g * 254) g) by lia.
  rewrite (shiftr8_eq (b * 255 * (255 - 0)) (b * 254) b) by lia.
  change (Z.shiftr (255 * (255 - 0)) 8 + 0) with 254.
  rewrite !Z.mul_0_r, !Z.add_0_r. rewrite !Z.quot_mul by lia.
  rewrite !u8cast_byte by (unfold is_byte; lia). reflexivity.
Qed.

(** The same three facts for the final blit of one RGBA pixel. *)
Lemma blend_rgba_pixel_opaque (m : mem) (p : Z) (fg : uchar4.t) :
  is_byte (uchar4.x fg) -> is_byte (uchar4.y fg) -> is_byte (uchar4.z fg) ->
  uchar4.w fg = 255 ->
  let r := blend_rgba_pixel m p fg in
  div_by_zero r = false
  /\ value r p = uchar4.x fg /\ value r (p + 1) = uchar4.y fg
  /\ value r (p + 2) = uchar4.z fg /\ value r (p + 3) = 255.
Proof.
  intros Hx Hy Hz Hw. unfold blend_rgba_pixel, bind, idiv, ret.
  cbn [value div_by_zero]. rewrite Hw.
  replace (255 - 255) with 0 by lia. rewrite !Z.mul_0_r.
  change (Z.shiftr 0 8) with 0. cbn [Z.add].
  rewrite !Z.quot_mul by lia. rewrite !u8cast_byte by assumption.
  split; [reflexivity|].
  repeat split.
  - store_read. apply u8_byte; assumption.
  - store_read. apply u8_byte; assumption.
  - store_read. apply u8_byte; assumption.
  - store_read. reflexivity.
Qed.

Lemma blend_rgba_pixel_transparent_opaque (m : mem) (p : Z) (fg : uchar4.t) :
  is_byte (m p) -> is_byte (m (p + 1)) -> is_byte (m (p + 2)) -> m (p + 3) = 255 ->
  uchar4.w fg = 0 ->
  let r := blend_rgba_pixel m p fg in
  div_by_zero r = false
  /\ value r p = m p /\ value r (p + 1) = m (p + 1)
  /\ value r (p + 2) = m (p + 2) /\ value r (p + 3) = 254.
Proof.
  intros H0 H1 H2 H3 Hw. unfold blend_rgba_pixel, bind, idiv, ret.
  cbn [value div_by_zero]. rewrite Hw, H3.
  change (Z.shiftr (255 * (255 - 0)) 8 + 0) with 254.
  rewrite !Z.mul_0_r, !Z.add_0_r.
  unfold is_byte in *.
  rewrite (shiftr8_eq (m p * 255 * (255 - 0)) (m p * 254) (m p)) by lia.
  rewrite Z.quot_mul by lia.
  rewrite (store_other _ p _ (p + 1)) by lia.
  rewrite (shiftr8_eq (m (p + 1) * 255 * (255 - 0)) (m (p + 1) * 254) (m (p + 1))) by lia.
  rewrite Z.quot_mul by lia.
  rewrite !(store_other _ _ _ (p + 2)) by lia.
  rewrite (shiftr8_eq (m (p + 2) * 255 * (255 - 0)) (m (p + 2) * 254) (m (p + 2))) by lia.
  rewrite Z.quot_mul by lia.
  rewrite !u8cast_byte by (unfold is_byte; lia).
  split; [reflexivity|].
  repeat split.
  - store_read. apply u8_byte; unfold is_byte; lia.
  - store_read. apply u8_byte; unfold is_byte; lia.
  - store_read. apply u8_byte; unfold is_byte; lia.
  - store_read. reflexivity.
Qed.

(** C1, as amended.  Source-over at the alpha extremes, in the per-quad
    accumulator ([blend_single_color]) and in the final blit of one RGBA
    pixel ([blend_rgba_pixel]).  Over any destination, a foreground of
    alpha 255 writes exactly the foreground colour, with alpha 255, and no
    division meets a zero divisor.  A foreground of alpha 0 is not the
    identity: over an opaque destination it leaves the R, G and B bytes
    as they are and stores the alpha 254. *)
Theorem C1_alpha_extremes (dst fg : uchar4.t) (m : mem) (p : Z) :
  is_byte (uchar4.x fg) -> is_byte (uchar4.y fg) -> is_byte (uchar4.z fg) ->
  is_byte (uchar4.x dst) -> is_byte (uchar4.y dst) -> is_byte (uchar4.z dst) ->
  uchar4.w dst = 255 ->
  is_byte (m p) -> is_byte (m (p + 1)) -> is_byte (m (p + 2)) -> m (p + 3) = 255 ->
  (forall any : uchar4.t,
      blend_single_color any (uchar4.x fg) (uchar4.y fg) (uchar4.z fg) 255
      = ret (uchar4.make (uchar4.x fg) (uchar4.y fg) (uchar4.z fg) 255))
  /\ (forall any : mem,
      let r := blend_rgba_pixel any p
                 (uchar4.make (uchar4.x fg) (uchar4.y fg) (uchar4.z fg) 255) in
      div_by_zero r = false
      /\ value r p = uchar4.x fg /\ value r (p + 1) = uchar4.y fg
      /\ value r (p + 2) = uchar4.z fg /\ value r (p + 3) = 255)
  /\ blend_single_color dst (uchar4.x fg) (uchar4.y fg) (uchar4.z fg) 0
     = ret (uchar4.make (uchar4.x dst) (uchar4.y dst) (uchar4.z dst) 254)
  /\ (let r := blend_rgba_pixel m p
                 (uchar4.make (uchar4.x fg) (uchar4.y fg) (uchar4.z fg) 0) in
      div_by_zero r = false
      /\ value r p = m p /\ value r (p + 1) = m (p + 1)
      /\ value r (p + 2) = m (p + 2) /\ value r (p + 3) = 254).
Proof.
  intros Hx Hy Hz Dx Dy Dz Dw M0 M1 M2 M3.
  split; [| split; [| split]].
  - intros any. apply blend_single_color_opaque; assumption.
  - intros any.
    apply (blend_rgba_pixel_opaque any p
             (uchar4.make (uchar4.x fg) (uchar4.y fg) (uchar4.z fg) 255)); cbn; auto.
  - destruct dst as [r g b a]. cbn in *. subst a.
    apply blend_single_color_transparent_opaque; assumption.
  - apply (blend_rgba_pixel_transparent_opaque m p
             (uchar4.make (uchar4.x fg) (uchar4.y fg) (uchar4.z fg) 0)); cbn; auto.
Qed.

Lemma C1_alpha_extremes_witness :
  let m : mem := fun a => if a mod 4 =? 3 then 255 else 7 in
  blend_single_color (uchar4.make 10 20 30 255) 1 2 3 0
  = ret (uchar4.make 10 20 30 254)
  /\ value (blend_rgba_pixel m 0 (uchar4.make 1 2 3 0)) (0 + 3) = 254.
Proof.
  intros m.
  assert (B : forall v, 0 <= v < 256 -> is_byte v) by (intros v Hv; exact Hv).
  pose proof (C1_alpha_extremes (uchar4.make 10 20 30 255) (uchar4.make 1 2 3 77) m 0
                (B 1 ltac:(lia)) (B 2 ltac:(lia)) (B 3 ltac:(lia))
                (B 10 ltac:(lia)) (B 20 ltac:(lia)) (B 30 ltac:(lia)) eq_refl
                (B 7 ltac:(lia)) (B 7 ltac:(lia)) (B 7 ltac:(lia)) eq_refl) as W.
  split.
  - exact (proj1 (proj2 (proj2 W))).
  - exact (proj2 (proj2 (proj2 (proj2 (proj2 (proj2 (proj2 W))))))).
Defined.

(** Compositing a foreground of alpha 0 is not the identity: the
    destination alpha does not survive, in the accumulator and in the blit
    alike. *)
Lemma C1_alpha_zero_not_identity :
  let dst := uchar4.make 10 20 30 255 in
  let m : mem := fun a => if a mod 4 =? 3 then 255 else 7 in
  value (blend_single_color dst 1 2 3 0) <> dst
  /\ value (blend_rgba_pixel m 0 (uchar4.make 1 2 3 0)) 3 <> m 3.
Proof.
  cbv zeta. split.
  - vm_compute. discriminate.
  - vm_compute. discriminate.
Qed.

(** ** Divisions by the blended alpha *)

(** With a foreground alpha that is not zero the divisor of
    [blend_single_color] is not zero: this is what the [if (alpha)] guards
    of the circle and text paths rely on. *)
Lemma blend_single_color_guarded (color : uchar4.t) (c0 c1 c2 a : Z) :
  0 <= uchar4.w color -> 0 < a <= 255 ->
  div_by_zero (blend_single_color color c0 c1 c2 a) = false.
Proof.
  intros Hw Ha. unfold blend_single_color, bind, idiv, ret. cbn [value div_by_zero].
  assert (0 <= Z.shiftr (uchar4.w color * (255 - a)) 8)
    by (apply Z.shiftr_nonneg; apply Z.mul_nonneg_nonneg; lia).
  destruct (Z.eqb_spec (Z.shiftr (uchar4.w color * (255 - a)) 8 + a) 0); [lia|].
  reflexivity.
Qed.

(** The RGB blit divides by [((255 * (255 - fa)) >> 8) + fa], which is
    never zero for an alpha byte. *)
Lemma blend_rgb_pixel_no_division_by_zero (m : mem) (p : Z) (rcolor : uchar4.t) :
  is_byte (uchar4.w rcolor) ->
  div_by_zero (blend_rgb_pixel m p rcolor) = false.
Proof.
  intros Hw. unfold blend_rgb_pixel, bind, idiv, ret. cbn [value div_by_zero].
  unfold is_byte in Hw.
  assert (0 <= Z.shiftr (255 * (255 - uchar4.w rcolor)) 8)
    by (apply Z.shiftr_nonneg; lia).
  assert (Z.shiftr (255 * (255 - uchar4.w rcolor)) 8 + uchar4.w rcolor <> 0).
  { destruct (Z.eq_dec (uchar4.w rcolor) 0) as [->|]; [vm_compute; discriminate | lia]. }
  destruct (Z.eqb_spec (Z.shiftr (255 * (255 - uchar4.w rcolor)) 8 + uchar4.w rcolor) 0);
    [contradiction | reflexivity].
Qed.

(** The NV12 blits divide by the sum of the four alphas, which the kernel
    has found not to be all zero. *)
Lemma nv12_mean_no_division_by_zero (plot_colors : Quad) :
  0 <= uchar4.w (color0 plot_colors) -> 0 <= uchar4.w (color1 plot_colors) ->
  0 <= uchar4.w (color2 plot_colors) -> 0 <= uchar4.w (color3 plot_colors) ->
  (uchar4.w (color0 plot_colors) =? 0) && (uchar4.w (color1 plot_colors) =? 0)
  && (uchar4.w (color2 plot_colors) =? 0) && (uchar4.w (color3 plot_colors) =? 0) = false ->
  div_by_zero (nv12_meanu plot_colors) = false
  /\ div_by_zero (nv12_meanv plot_colors) = false.
Proof.
  intros H0 H1 H2 H3 Hsome. unfold nv12_meanu, nv12_meanv, idiv, nv12_alpha_sum.
  cbn [div_by_zero].
  destruct (Z.eqb_spec (uchar4.w (color0 plot_colors)) 0);
    destruct (Z.eqb_spec (uchar4.w (color1 plot_colors)) 0);
    destruct (Z.eqb_spec (uchar4.w (color2 plot_colors)) 0);
    destruct (Z.eqb_spec (uchar4.w (color3 plot_colors)) 0);
    try discriminate Hsome;
    (split; apply Z.eqb_neq; lia).
Qed.

(** C2.  The divisions by the blended alpha are not all guarded.  In the
    accumulator, [blend_single_color] divides by zero as soon as it is
    called with a zero alpha on a still transparent pixel, which the
    rectangle path (a colour of alpha 0) and the segment path (a mask sample
    below the threshold) do; in the final RGBA blit, a quad that a glyph
    covers only in part divides by zero on its uncovered pixels when the
    destination alpha there is 0. *)
Theorem C2_division_by_zero_reached :
  div_by_zero (blend_single_color uchar4.zero 255 0 0 0) = true
  /\ div_by_zero
       (Scenario.launch_one Scenario.black_opaque (Scenario.rectangle_command 0) 1 1) = true
  /\ div_by_zero
       (Scenario.launch_one Scenario.black_opaque Scenario.segment_command 1 1) = true
  /\ div_by_zero
       (Scenario.launch_one Scenario.black_transparent Scenario.text_command 1 1) = true.
Proof. repeat split; vm_compute; reflexivity. Qed.

(** ** Text coverage *)

(** Inside the glyph, the coverage is the atlas byte times the command
    alpha, shifted right by 8. *)
Lemma text_alpha_inside
    (location : TextLocation.t) (text_bitmap : mem) (text_bitmap_width : Z)
    (gx gy col bfx a : Z) :
  0 <= gx < TextLocation.text_w location -> 0 <= gy < TextLocation.text_h location ->
  is_byte (text_bitmap (gy * text_bitmap_width + bfx + col)) -> is_byte a ->
  text_alpha location text_bitmap text_bitmap_width gx gy col bfx a
  = Z.shiftr (text_bitmap (gy * text_bitmap_width + bfx + col) * a) 8.
Proof.
  intros Hx Hy Hb Ha. unfold text_alpha.
  destruct (Z.ltb_spec gx 0); [lia|].
  destruct (Z.ltb_spec gy 0); [lia|].
  destruct (Z.geb_spec gx (TextLocation.text_w location)); [lia|].
  destruct (Z.geb_spec gy (TextLocation.text_h location)); [lia|].
  cbn [orb]. apply u8_byte. unfold is_byte in *.
  rewrite Z.shiftr_div_pow2 by lia. change (2 ^ 8) with 256. split.
  - apply Z.div_pos; nia.
  - apply Z.div_lt_upper_bound; nia.
Qed.

(** C5, as amended.  For a pixel (ix + dx, iy + dy) of a quad that lies
    inside a glyph's rectangle, the coverage is the atlas byte at
    [fy * atlas_width + (fx + text_x)] scaled by [c3 / 256], rounded down:
    [(byte * c3) >> 8]; the pixel is blended with it unless it is zero.  For
    an atlas byte 200 and c3 = 255 the coverage is 199, and after the launch
    over an opaque black RGBA destination the alpha at the glyph pixel is
    254 (over a transparent black one, 199). *)
Theorem C5_text_coverage
    (location : TextLocation.t) (text_bitmap : mem) (text_bitmap_width : Z)
    (ix iy dx dy : Z) (color : Quad) (c0 c1 c2 c3 : Z) :
  0 <= dx <= 1 -> 0 <= dy <= 1 ->
  TextLocation.image_x location <= ix + dx
    < TextLocation.image_x location + TextLocation.text_w location ->
  TextLocation.image_y location <= iy + dy
    < TextLocation.image_y location + TextLocation.text_h location ->
  let fx := ix + dx - TextLocation.image_x location in
  let fy := iy + dy - TextLocation.image_y location in
  let atlas_byte :=
    text_bitmap (fy * text_bitmap_width + (fx + TextLocation.text_x location)) in
  is_byte atlas_byte -> is_byte c3 ->
  let coverage := Z.shiftr (atlas_byte * c3) 8 in
  let r := render_text location text_bitmap text_bitmap_width ix iy color c0 c1 c2 c3 in
  fst (value r) = true
  /\ quad_get (snd (value r)) (dy * 2 + dx)
     = value (blend_when (negb (coverage =? 0))
                (quad_get color (dy * 2 + dx)) c0 c1 c2 coverage)
  /\ Z.shiftr (200 * 255) 8 = 199
  /\ Scenario.pixel_after
       (Scenario.launch_one Scenario.black_opaque Scenario.text_command 1 1) 0 0
     = [7; 15; 23; 254]
  /\ Scenario.pixel_after
       (Scenario.launch_one Scenario.black_transparent Scenario.text_command 1 1) 0 0
     = [10; 20; 30; 199].
Proof.
  intros Hdx Hdy Hx Hy fx fy atlas_byte Hb Hc coverage r.
  assert (Hr : r = render_text location text_bitmap text_bitmap_width ix iy color c0 c1 c2 c3)
    by reflexivity.
  unfold render_text in Hr.
  destruct (Z.ltb_spec (ix + 1) (TextLocation.image_x location)); [lia|].
  destruct (Z.ltb_spec (iy + 1) (TextLocation.image_y location)); [lia|].
  destruct (Z.geb_spec ix (TextLocation.image_x location + TextLocation.text_w location));
    [lia|].
  destruct (Z.geb_spec iy (TextLocation.image_y location + TextLocation.text_h location));
    [lia|].
  cbn [orb] in Hr. rewrite Hr. unfold bind, ret. cbn [value fst snd].
  split; [reflexivity|].
  split; [| repeat split; vm_compute; reflexivity].
  assert (Hcov : forall gx gy col bfx,
             gx = fx -> gy = fy ->
             bfx + col = fx + TextLocation.text_x location ->
             text_alpha location text_bitmap text_bitmap_width gx gy col bfx c3 = coverage).
  { intros gx gy col bfx -> -> Hcol.
    assert (Haddr : fy * text_bitmap_width + bfx + col
                    = fy * text_bitmap_width + (fx + TextLocation.text_x location)) by lia.
    rewrite text_alpha_inside; rewrite ?Haddr; try assumption;
      [reflexivity | unfold fx; lia | unfold fy; lia]. }
  assert (Cx : dx = 0 \/ dx = 1) by lia.
  assert (Cy : dy = 0 \/ dy = 1) by lia.
  destruct Cx as [Ex | Ex], Cy as [Ey | Ey]; subst dx dy;
    cbn [Z.mul Z.add Pos.mul Pos.add quad_get Z.eqb Pos.eqb color0 color1 color2 color3];
    rewrite Hcov by (unfold fx, fy; lia); reflexivity.
Qed.

Lemma C5_text_coverage_witness :
  Z.shiftr (200 * 255) 8 = 199
  /\ Scenario.pixel_after
       (Scenario.launch_one Scenario.black_opaque Scenario.text_command 1 1) 0 0
     = [7; 15; 23; 254].
Proof.
  assert (Hx : 0 <= 0 + 0 < 0 + 1) by lia.
  assert (Hb : is_byte 200) by (unfold is_byte; lia).
  assert (Hc : is_byte 255) by (unfold is_byte; lia).
  assert (Hd : 0 <= 0 <= 1) by lia.
  pose proof (C5_text_coverage (Scenario.glyph 1 1) Scenario.atlas 1 0 0 0 0 zero_quad
                10 20 30 255 Hd Hd Hx Hx Hb Hc) as W.
  split.
  - exact (proj1 (proj2 (proj2 W))).
  - exact (proj1 (proj2 (proj2 (proj2 W)))).
Defined.

(** The scaling is by c3/256, not c3/255: the destination alpha of the
    scenario is 254 over opaque black and 199 over transparent black, and
    200 in neither case. *)
Lemma C5_alpha_is_not_200 :
  text_alpha (Scenario.glyph 1 1) Scenario.atlas 1 0 0 0 0 255 <> 200
  /\ nth 3 (Scenario.pixel_after
              (Scenario.launch_one Scenario.black_opaque Scenario.text_command 1 1) 0 0) 0
     <> 200
  /\ nth 3 (Scenario.pixel_after
              (Scenario.launch_one Scenario.black_transparent Scenario.text_command 1 1) 0 0) 0
     <> 200.
Proof. repeat split; vm_compute; discriminate. Qed.

(** ** The launch function: empty requests and dispatch *)

Section LaunchFacts.
Variables (image : Image) (width stride height : Z).
Variable text_location : Z -> TextLocation.t.
Variable text_bitmap : mem.
Variable text_bitmap_width : Z.
Variable line_location_base : Z -> Z.
Variable commands : Z -> Command.
Variables bounding_left bounding_top bounding_right bounding_bottom : Z.
Variable blur_commands : Z -> BoxBlurCommand.t.

(** C6, as amended.  When [num_commands == 0] and there is no blur command
    the launch function does nothing at all: no kernel is launched, the
    destination is returned as it was, and nothing is printed -- no warning
    either. *)
Theorem C6_empty_request_is_silent (format : Z) (have_rotate_msaa : bool) :
  cuosd_launch_kernel image width stride height
    text_location text_bitmap text_bitmap_width line_location_base
    commands 0 bounding_left bounding_top bounding_right bounding_bottom
    format have_rotate_msaa blur_commands 0 = ret (mkOutcome image []).
Proof. reflexivity. Qed.

(** C7.  Identity on empty input: when the two counts sum to zero the
    surface after the launch is the surface before it. *)
Theorem C7_identity_on_empty_input
    (num_commands num_blur_commands format : Z) (have_rotate_msaa : bool) :
  0 <= num_commands -> 0 <= num_blur_commands ->
  num_commands + num_blur_commands = 0 ->
  surface_after (value (cuosd_launch_kernel image width stride height
    text_location text_bitmap text_bitmap_width line_location_base
    commands num_commands bounding_left bounding_top bounding_right bounding_bottom
    format have_rotate_msaa blur_commands num_blur_commands))
  = image.
Proof.
  intros Hc Hb Hsum.
  assert (num_commands = 0) by lia. assert (num_blur_commands = 0) by lia.
  subst. reflexivity.
Qed.

(** The composite half of the launch function at a format of the
    enumeration. *)
Lemma launch_elements_dispatch
    (num_commands : Z) (f : ImageFormat) (have_rotate_msaa : bool)
    (img : Image) (done : list Event) :
  launch_elements width stride height
    text_location text_bitmap text_bitmap_width line_location_base
    commands num_commands bounding_left bounding_top bounding_right bounding_bottom
    (ImageFormat_value f) have_rotate_msaa img done
  = if num_commands >? 0 then
      r <- cuosd_launch_kernel_impl width stride height
             text_location text_bitmap text_bitmap_width line_location_base
             commands num_commands bounding_left bounding_top bounding_right bounding_bottom
             f have_rotate_msaa img ;;
      ret (mkOutcome (surface_after r) (done ++ events r))
    else ret (mkOutcome img done).
Proof.
  unfold launch_elements. destruct (num_commands >? 0); [| reflexivity].
  destruct f, have_rotate_msaa; reflexivity.
Qed.

(** C4.  Dispatch indexing of the launch function.  The blur path selects
    the specialization at the position [format_tag] of the format
    (RGB=0, RGBA=1, BlockLinearNV12=2, PitchLinearNV12=3), the composite path
    the one at [(int)rotate_msaa * 4 + format_tag]: called with a format of
    the enumeration, the function runs the blur specialization of that
    format, then the composite specialization of that format and switch.  A
    format whose index falls outside its table makes the function print an
    error and return: nothing is launched and the surface is untouched. *)
Theorem C4_dispatch_indexing :
  (forall f : ImageFormat,
      ImageFormat_value f - 1 = format_tag f
      /\ nth_error blur_func_list (Z.to_nat (format_tag f)) = Some f)
  /\ (forall (f : ImageFormat) (msaa : bool),
      b2z msaa * 4 + ImageFormat_value f - 1 = b2z msaa * 4 + format_tag f
      /\ nth_error func_list (Z.to_nat (b2z msaa * 4 + format_tag f)) = Some (f, msaa))
  /\ (forall (f : ImageFormat) (msaa : bool) (num_commands num_blur_commands : Z),
      cuosd_launch_kernel image width stride height
    text_location text_bitmap text_bitmap_width line_location_base
    commands num_commands bounding_left bounding_top bounding_right bounding_bottom
    (ImageFormat_value f) msaa blur_commands num_blur_commands
      = r1 <- (if num_blur_commands >? 0
               then cuosd_launch_blur_kernel_impl width stride height f
                      blur_commands num_blur_commands image
               else ret (mkOutcome image [])) ;;
        if num_commands >? 0 then
          r2 <- cuosd_launch_kernel_impl width stride height
                  text_location text_bitmap text_bitmap_width line_location_base
                  commands num_commands
                  bounding_left bounding_top bounding_right bounding_bottom
                  f msaa (surface_after r1) ;;
          ret (mkOutcome (surface_after r2) (events r1 ++ events r2))
        else ret (mkOutcome (surface_after r1) (events r1)))
  /\ (forall (format : Z) (msaa : bool) (num_commands num_blur_commands : Z),
      let blur_index := format - 1 in
      let index := b2z msaa * 4 + format - 1 in
      (num_blur_commands > 0 /\ (blur_index < 0 \/ blur_index >= 4)
       -> cuosd_launch_kernel image width stride height
    text_location text_bitmap text_bitmap_width line_location_base
    commands num_commands bounding_left bounding_top bounding_right bounding_bottom
    format msaa blur_commands num_blur_commands
          = ret (mkOutcome image [Print (Error_unsupported_configure blur_index)]))
      /\ (num_commands > 0 /\ (index < 0 \/ index >= 8)
          -> exists shown,
             cuosd_launch_kernel image width stride height
    text_location text_bitmap text_bitmap_width line_location_base
    commands num_commands bounding_left bounding_top bounding_right bounding_bottom
    format msaa blur_commands num_blur_commands
             = ret (mkOutcome image [Print (Error_unsupported_configure shown)]))).
Proof.
  split; [| split; [| split]].
  - intros f. split; [unfold ImageFormat_value; lia | destruct f; reflexivity].
  - intros f msaa. split; [unfold ImageFormat_value; lia | destruct f, msaa; reflexivity].
  - intros f msaa num_commands num_blur_commands.
    unfold cuosd_launch_kernel.
    destruct (num_blur_commands >? 0).
    + replace (nth_error blur_func_list (Z.to_nat (ImageFormat_value f - 1))) with (Some f)
        by (destruct f; reflexivity).
      replace ((ImageFormat_value f - 1 <? 0)
               || (ImageFormat_value f - 1 >=? Z.of_nat (length blur_func_list)))
        with false by (destruct f; reflexivity).
      unfold bind at 1 3. cbv zeta. rewrite launch_elements_dispatch.
      destruct (num_commands >? 0); reflexivity.
    + rewrite launch_elements_dispatch. unfold bind, ret.
      cbn [value div_by_zero surface_after events app orb].
      destruct (num_commands >? 0); reflexivity.
  - intros format msaa num_commands num_blur_commands blur_index index.
    assert (Hblur : num_blur_commands > 0 -> blur_index < 0 \/ blur_index >= 4 ->
                    cuosd_launch_kernel image width stride height
    text_location text_bitmap text_bitmap_width line_location_base
    commands num_commands bounding_left bounding_top bounding_right bounding_bottom
    format msaa blur_commands num_blur_commands
                    = ret (mkOutcome image [Print (Error_unsupported_configure blur_index)])).
    { intros Hn Hout. unfold cuosd_launch_kernel.
      destruct (Z.gtb_spec num_blur_commands 0); [| lia].
      fold blur_index. change (Z.of_nat (length blur_func_list)) with 4.
      destruct (Z.ltb_spec blur_index 0); [reflexivity|].
      destruct (Z.geb_spec blur_index 4); [reflexivity | lia]. }
    split.
    + intros [Hn Hout]. apply Hblur; assumption.
    + intros [Hn Hout].
      destruct (Z.gtb_spec num_blur_commands 0) as [Hb | Hb].
      * exists blur_index. apply Hblur; [lia|].
        unfold index, blur_index in *. destruct msaa; cbn [b2z] in Hout; lia.
      * exists index. unfold cuosd_launch_kernel.
        destruct (Z.gtb_spec num_blur_commands 0); [lia|].
        unfold launch_elements.
        destruct (Z.gtb_spec num_commands 0); [| lia].
        fold index. change (Z.of_nat (length func_list)) with 8.
        destruct (Z.ltb_spec index 0); [reflexivity|].
        destruct (Z.geb_spec index 8); [reflexivity | lia].
Qed.
End LaunchFacts.

Lemma C7_identity_on_empty_input_witness :
  surface_after
    (value (cuosd_launch_kernel Scenario.black_opaque 2 8 2
              (fun _ => Scenario.glyph 1 1) Scenario.atlas 1 Scenario.line_base
              (fun _ => Scenario.text_command) 0 0 0 1 1 2 false Scenario.no_blur 0))
  = Scenario.black_opaque.
Proof.
  apply (C7_identity_on_empty_input Scenario.black_opaque 2 8 2
           (fun _ => Scenario.glyph 1 1) Scenario.atlas 1 Scenario.line_base
           (fun _ => Scenario.text_command) 0 0 1 1 Scenario.no_blur 0 0 2 false);
    lia.
Defined.

(** With no command and no blur rectangle the function prints nothing, so
    it emits no warning. *)
Lemma C6_no_warning_is_emitted :
  ~ In (Print Warning_nothing_to_draw)
      (events
         (value (cuosd_launch_kernel Scenario.black_opaque 2 8 2
                   (fun _ => Scenario.glyph 1 1) Scenario.atlas 1 Scenario.line_base
                   (fun _ => Scenario.text_command) 0 0 0 1 1 2 false Scenario.no_blur 0))).
Proof. vm_compute. intros []. Qed.

Lemma C4_dispatch_indexing_witness :
  cuosd_launch_kernel Scenario.black_opaque 2 8 2
    (fun _ => Scenario.glyph 1 1) Scenario.atlas 1 Scenario.line_base
    (fun _ => Scenario.text_command) 1 0 0 1 1 0 false Scenario.no_blur 1
  = ret (mkOutcome Scenario.black_opaque [Print (Error_unsupported_configure (0 - 1))]).
Proof.
  apply (proj1 (proj2 (proj2 (proj2
           (C4_dispatch_indexing Scenario.black_opaque 2 8 2
              (fun _ => Scenario.glyph 1 1) Scenario.atlas 1 Scenario.line_base
              (fun _ => Scenario.text_command) 0 0 1 1 Scenario.no_blur)))
           0 false 1 1)).
  split; lia.
Defined.

(** ** The text-line counter *)

Section TextLineCounter.
Variable have_rotate_msaa : bool.
Variable text_bitmap : mem.
Variable text_bitmap_width : Z.
Variable line_location_base : Z -> Z.
Variables ix iy : Z.






End TextLineCounter.


(** ** Rectangle coverage *)

Lemma inbox_single_pixel_spec (ix iy ax ay bx by_ cx cy dx dy : F32.float) :
  inbox_single_pixel ix iy ax ay bx by_ cx cy dx dy = true
  <-> negative (edge_cross ax ay bx by_ ix iy)
      /\ negative (edge_cross bx by_ cx cy ix iy)
      /\ negative (edge_cross cx cy dx dy ix iy)
      /\ negative (edge_cross dx dy ax ay ix iy).
Proof.
  unfold inbox_single_pixel, negative, edge_cross.
  rewrite !andb_true_iff. tauto.
Qed.

(** C8.  Rectangle coverage without antialiasing.  A point is inside the
    quad (a, b, c, d) exactly when, on each of the four consecutive edges,
    the signed cross product of the edge vector with the vector from the
    edge origin to the point is strictly negative.  A hollow rectangle
    (thickness >= 0) blends the pixel (ix + i, iy + j) of the quad with the
    command colour exactly when the pixel is inside the outer quad and not
    inside the inner quad; every other pixel of the quad keeps its
    accumulator value. *)
Theorem C8_rectangle_coverage
    (p : RectangleCommand.t) (have_rotate_msaa : bool) (ix iy i j : Z) (color : Quad) :
  0 <= RectangleCommand.thickness p ->
  have_rotate_msaa = false \/ RectangleCommand.interpolation p = false ->
  0 <= i <= 1 -> 0 <= j <= 1 ->
  (forall px py ax ay bx by_ cx cy dx dy : F32.float,
      inbox_single_pixel px py ax ay bx by_ cx cy dx dy = true
      <-> negative (edge_cross ax ay bx by_ px py)
          /\ negative (edge_cross bx by_ cx cy px py)
          /\ negative (edge_cross cx cy dx dy px py)
          /\ negative (edge_cross dx dy ax ay px py))
  /\ quad_get (value (do_rectangle p have_rotate_msaa ix iy color)) (j * 2 + i)
     = if inbox_outer p (ix + i) (iy + j) && negb (inbox_inner p (ix + i) (iy + j))
       then value (blend_single_color (quad_get color (j * 2 + i))
                     (H.c0 (RectangleCommand.base p)) (H.c1 (RectangleCommand.base p))
                     (H.c2 (RectangleCommand.base p)) (H.c3 (RectangleCommand.base p)))
       else quad_get color (j * 2 + i).
Proof.
  intros Ht Haa Hi Hj. split; [intros; apply inbox_single_pixel_spec|].
  assert (Hdo : do_rectangle p have_rotate_msaa ix iy color
                = render_rectangle_border p ix iy color).
  { unfold do_rectangle.
    destruct (Z.eqb_spec (RectangleCommand.thickness p) (-1)); [lia|].
    destruct Haa as [-> | ->]; [reflexivity|].
    destruct have_rotate_msaa; reflexivity. }
  rewrite Hdo. unfold render_rectangle_border, bind, ret. cbn [value].
  assert (Ci : i = 0 \/ i = 1) by lia. assert (Cj : j = 0 \/ j = 1) by lia.
  destruct Ci, Cj; subst i j;
    cbn [Z.mul Z.add Pos.mul Pos.add quad_get Z.eqb Pos.eqb color0 color1 color2 color3];
    rewrite ?Z.add_0_r;
    rewrite andb_comm; unfold blend_when;
    match goal with |- context [if ?b then _ else _] => destruct b end; reflexivity.
Qed.

Lemma C8_rectangle_coverage_witness :
  quad_get (value (do_rectangle (Scenario.rectangle 255 1) false 0 0 zero_quad)) (0 * 2 + 0)
  = uchar4.make 255 0 0 255
  /\ quad_get (value (do_rectangle (Scenario.rectangle 255 1) false 0 0 zero_quad)) (1 * 2 + 1)
     = uchar4.zero.
Proof.
  assert (Ht : 0 <= RectangleCommand.thickness (Scenario.rectangle 255 1))
    by (cbn; lia).
  assert (H0 : 0 <= 0 <= 1) by lia. assert (H1 : 0 <= 1 <= 1) by lia.
  split.
  - rewrite (proj2 (C8_rectangle_coverage (Scenario.rectangle 255 1) false 0 0 0 0
                      zero_quad Ht (or_introl eq_refl) H0 H0)).
    vm_compute. reflexivity.
  - rewrite (proj2 (C8_rectangle_coverage (Scenario.rectangle 255 1) false 0 0 1 1
                      zero_quad Ht (or_introl eq_refl) H1 H1)).
    vm_compute. reflexivity.
Defined.

(** ** What the composite pass writes *)

Lemma surf2Dwrite_other (v : Z) (s : surf) (x y x' y' : Z) :
  x' <> x \/ y' <> y -> surf2Dwrite v s x y x' y' = s x' y'.
Proof.
  intros Hne. unfold surf2Dwrite.
  destruct (Z.eqb_spec x' x), (Z.eqb_spec y' y); cbn [andb]; try reflexivity.
  destruct Hne; contradiction.
Qed.

Lemma blend_rgba_pixel_frame (m : mem) (p : Z) (rcolor : uchar4.t) (a : Z) :
  a < p \/ p + 3 < a -> value (blend_rgba_pixel m p rcolor) a = m a.
Proof.
  intros Ha. unfold blend_rgba_pixel, bind, ret, idiv. cbn [value].
  rewrite !store_other by lia. reflexivity.
Qed.

Lemma blend_rgb_pixel_frame (m : mem) (p : Z) (rcolor : uchar4.t) (a : Z) :
  a < p \/ p + 2 < a -> value (blend_rgb_pixel m p rcolor) a = m a.
Proof.
  intros Ha. unfold blend_rgb_pixel, bind, ret, idiv. cbn [value].
  rewrite !store_other by lia. reflexivity.
Qed.

Lemma value_bind {A B : Type} (m : dev A) (f : A -> dev B) :
  value (bind m f) = value (f (value m)).
Proof. reflexivity. Qed.

Lemma for_loop_two {S : Type} (i : Z) (body : Z -> S -> dev S) (s : S) :
  value (for_loop 2 i body s) = value (body (i + 1) (value (body i s))).
Proof. reflexivity. Qed.

Lemma BlendingPixel_RGBA_frame (x y stride : Z) (plot_colors : Quad) (img : Image) (a : Z) :
  (forall i j, 0 <= i <= 1 -> 0 <= j <= 1 ->
     a < (y + j) * stride + (x + i) * 4 \/ (y + j) * stride + (x + i) * 4 + 3 < a) ->
  linear (image0 (value (BlendingPixel_RGBA x y stride plot_colors img))) a
  = linear (image0 img) a.
Proof.
  intros Hfree.
  assert (H00 := Hfree 0 0 ltac:(lia) ltac:(lia)).
  assert (H10 := Hfree 1 0 ltac:(lia) ltac:(lia)).
  assert (H01 := Hfree 0 1 ltac:(lia) ltac:(lia)).
  assert (H11 := Hfree 1 1 ltac:(lia) ltac:(lia)).
  unfold BlendingPixel_RGBA. rewrite value_bind. unfold ret, set_linear.
  cbn [value image0 linear].
  rewrite for_loop_two. rewrite !(for_loop_two 0).
  rewrite !blend_rgba_pixel_frame by lia. reflexivity.
Qed.

Lemma BlendingPixel_RGB_frame (x y stride : Z) (plot_colors : Quad) (img : Image) (a : Z) :
  (forall i j, 0 <= i <= 1 -> 0 <= j <= 1 ->
     a < (y + j) * stride + (x + i) * 3 \/ (y + j) * stride + (x + i) * 3 + 2 < a) ->
  linear (image0 (value (BlendingPixel_RGB x y stride plot_colors img))) a
  = linear (image0 img) a.
Proof.
  intros Hfree.
  assert (H00 := Hfree 0 0 ltac:(lia) ltac:(lia)).
  assert (H10 := Hfree 1 0 ltac:(lia) ltac:(lia)).
  assert (H01 := Hfree 0 1 ltac:(lia) ltac:(lia)).
  assert (H11 := Hfree 1 1 ltac:(lia) ltac:(lia)).
  unfold BlendingPixel_RGB. rewrite value_bind. unfold ret, set_linear.
  cbn [value image0 linear].
  rewrite for_loop_two. rewrite !(for_loop_two 0).
  rewrite !blend_rgb_pixel_frame by lia. reflexivity.
Qed.

Lemma outside_pixel_bytes (n a base : Z) :
  0 < n -> (~ exists k, 0 <= k < n /\ a = base + k) -> a < base \/ base + (n - 1) < a.
Proof.
  intros Hn Hno.
  destruct (Z_lt_dec a base); [left; assumption|].
  destruct (Z_lt_dec (base + (n - 1)) a); [right; assumption|].
  exfalso. apply Hno. exists (a - base). lia.
Qed.

(** The blender touches the bytes of the four pixels of its quad only. *)
Lemma BlendingPixel_frame
    (format : ImageFormat) (x y stride : Z) (plot_colors : Quad) (img : Image)
    (l : location) :
  (forall i j, 0 <= i <= 1 -> 0 <= j <= 1 -> ~ pixel_owns format stride (x + i) (y + j) l) ->
  read_location (value (BlendingPixel x y stride plot_colors format img)) l
  = read_location img l.
Proof.
  intros Hfree.
  destruct format, l; try reflexivity; unfold BlendingPixel; cbn [pixel_owns read_location] in *.
  - (* RGB *)
    apply BlendingPixel_RGB_frame. intros i j Hi Hj.
    pose proof (outside_pixel_bytes 3 a ((y + j) * stride + (x + i) * 3) ltac:(lia)
                  (Hfree i j Hi Hj)). lia.
  - (* RGBA *)
    apply BlendingPixel_RGBA_frame. intros i j Hi Hj.
    pose proof (outside_pixel_bytes 4 a ((y + j) * stride + (x + i) * 4) ltac:(lia)
                  (Hfree i j Hi Hj)). lia.
  - (* block-linear NV12, luma *)
    assert (H00 := Hfree 0 0 ltac:(lia) ltac:(lia)).
    assert (H10 := Hfree 1 0 ltac:(lia) ltac:(lia)).
    assert (H01 := Hfree 0 1 ltac:(lia) ltac:(lia)).
    assert (H11 := Hfree 1 1 ltac:(lia) ltac:(lia)).
    rewrite ?Z.add_0_r in *.
    unfold BlendingPixel_BlockLinearNV12. rewrite !value_bind. unfold ret, set_surface.
    cbn [value image0 surface].
    rewrite !surf2Dwrite_other by lia. reflexivity.
  - (* block-linear NV12, chroma *)
    assert (H00 := Hfree 0 0 ltac:(lia) ltac:(lia)).
    assert (H10 := Hfree 1 0 ltac:(lia) ltac:(lia)).
    rewrite ?Z.add_0_r in *.
    unfold BlendingPixel_BlockLinearNV12. rewrite !value_bind. unfold ret, set_surface.
    cbn [value image1 surface].
    rewrite !surf2Dwrite_other by lia. reflexivity.
  - (* pitch-linear NV12, luma *)
    assert (H00 := Hfree 0 0 ltac:(lia) ltac:(lia)).
    assert (H10 := Hfree 1 0 ltac:(lia) ltac:(lia)).
    assert (H01 := Hfree 0 1 ltac:(lia) ltac:(lia)).
    assert (H11 := Hfree 1 1 ltac:(lia) ltac:(lia)).
    rewrite ?Z.add_0_r in *.
    unfold BlendingPixel_PitchLinearNV12. rewrite !value_bind. unfold ret, set_linear.
    cbn [value image0 linear].
    rewrite !store_other by lia. reflexivity.
  - (* pitch-linear NV12, chroma *)
    assert (H00 := Hfree 0 0 ltac:(lia) ltac:(lia)).
    assert (H10 := Hfree 1 0 ltac:(lia) ltac:(lia)).
    rewrite ?Z.add_0_r in *.
    unfold BlendingPixel_PitchLinearNV12. rewrite !value_bind. unfold ret, set_linear.
    cbn [value image1 linear].
    rewrite !store_other by lia. reflexivity.
Qed.

Lemma quad_origin_parity (dim idx tid b : Z) :
  quad_origin dim idx tid b mod 2 = b mod 2.
Proof.
  unfold quad_origin, uint, int_of_uint. rewrite Z.shiftl_mul_pow2 by lia.
  change (2 ^ 1) with 2. change (2 ^ 32) with 4294967296. change (2 ^ 31) with 2147483648.
  generalize ((dim * idx + tid) mod 4294967296). intros u.
  pose proof (Z.div_mod (u * 2 + b) 4294967296 ltac:(lia)) as E.
  set (q := (u * 2 + b) / 4294967296) in *.
  set (v := (u * 2 + b) mod 4294967296) in *.
  destruct (Z.ltb_spec v 2147483648).
  - replace v with (b + (u - 2147483648 * q) * 2) by lia. apply Z_mod_plus_full.
  - replace (v - 4294967296) with (b + (u - 2147483648 * q - 2147483648) * 2) by lia.
    apply Z_mod_plus_full.
Qed.

Lemma round_down2_even (num : Z) : int_of_uint (round_down2 num) mod 2 = 0.
Proof.
  assert (Hodd : Z.odd (round_down2 num) = false).
  { rewrite <- Z.bit0_odd. unfold round_down2. rewrite Z.land_spec.
    replace (Z.testbit (uint (Z.lnot 1)) 0) with false by (vm_compute; reflexivity).
    apply andb_false_r. }
  assert (Hmod : round_down2 num mod 2 = 0) by (rewrite Zmod_odd, Hodd; reflexivity).
  unfold int_of_uint. change (2 ^ 32) with 4294967296.
  destruct (round_down2 num <? 2 ^ 31); [exact Hmod|].
  replace (round_down2 num - 4294967296)
    with (round_down2 num + (- 2147483648) * 2) by lia.
  rewrite Z_mod_plus_full. exact Hmod.
Qed.

Lemma foldM_frame {A : Type} (f : A -> Image -> dev Image) (l : location) (ts : list A) :
  (forall t img, read_location (value (f t img)) l = read_location img l) ->
  forall img, read_location (value (foldM f ts img)) l = read_location img l.
Proof.
  intros Hf. induction ts as [| t rest IH]; intros img.
  - reflexivity.
  - cbn [foldM]. unfold bind. cbn [value]. rewrite IH. apply Hf.
Qed.

Section CompositeFrame.
Variable format : ImageFormat.
Variable have_rotate_msaa : bool.
Variables bx by_ : Z.
Variable text_locations : Z -> TextLocation.t.
Variable text_bitmap : mem.
Variable text_bitmap_width : Z.
Variable line_location_base : Z -> Z.
Variable commands : Z -> Command.
Variable num_command : Z.
Variables image_width stride image_height : Z.

(** A thread whose quad origin is off the image, or on its last column or
    row, returns the surface as it found it. *)
Lemma render_elements_kernel_bail_out (blockDim blockIdx threadIdx : dim3.t) (img : Image) :
  let ix := quad_origin (dim3.x blockDim) (dim3.x blockIdx) (dim3.x threadIdx) bx in
  let iy := quad_origin (dim3.y blockDim) (dim3.y blockIdx) (dim3.y threadIdx) by_ in
  ix < 0 \/ iy < 0 \/ ix >= image_width - 1 \/ iy >= image_height - 1 ->
  render_elements_kernel format have_rotate_msaa bx by_
    text_locations text_bitmap text_bitmap_width line_location_base
    commands num_command image_width stride image_height
    blockDim blockIdx threadIdx img
  = ret img.
Proof.
  intros ix iy Hout. unfold render_elements_kernel. fold ix iy.
  destruct (Z.ltb_spec ix 0); [reflexivity|].
  destruct (Z.ltb_spec iy 0); [reflexivity|].
  destruct (Z.geb_spec ix (image_width - 1)); [reflexivity|].
  destruct (Z.geb_spec iy (image_height - 1)); [reflexivity|].
  lia.
Qed.

(** What a thread changes lies in a blendable quad. *)
Lemma render_elements_kernel_frame
    (blockDim blockIdx threadIdx : dim3.t) (img : Image) (l : location) :
  (forall px py, blendable bx by_ image_width image_height px py ->
                 ~ pixel_owns format stride px py l) ->
  read_location
    (value (render_elements_kernel format have_rotate_msaa bx by_
              text_locations text_bitmap text_bitmap_width line_location_base
              commands num_command image_width stride image_height
              blockDim blockIdx threadIdx img)) l
  = read_location img l.
Proof.
  intros Hfree. unfold render_elements_kernel.
  set (ix := quad_origin (dim3.x blockDim) (dim3.x blockIdx) (dim3.x threadIdx) bx).
  set (iy := quad_origin (dim3.y blockDim) (dim3.y blockIdx) (dim3.y threadIdx) by_).
  destruct (Z.ltb_spec ix 0); [reflexivity|].
  destruct (Z.ltb_spec iy 0); [reflexivity|].
  destruct (Z.geb_spec ix (image_width - 1)); [reflexivity|].
  destruct (Z.geb_spec iy (image_height - 1)); [reflexivity|].
  cbn [orb]. unfold bind at 1. cbn [value].
  match goal with |- context [if ?b then ret img else _] => destruct b end;
    [reflexivity|].
  apply BlendingPixel_frame. intros i j Hi Hj. apply Hfree.
  exists ix, iy, i, j. repeat split; try lia.
  - apply quad_origin_parity.
  - apply quad_origin_parity.
Qed.

Lemma launch_frame (grid block : dim3.t) (img : Image) (l : location) :
  (forall px py, blendable bx by_ image_width image_height px py ->
                 ~ pixel_owns format stride px py l) ->
  read_location
    (value (launch grid block
              (render_elements_kernel format have_rotate_msaa bx by_
                 text_locations text_bitmap text_bitmap_width line_location_base
                 commands num_command image_width stride image_height) img)) l
  = read_location img l.
Proof.
  intros Hfree. unfold launch. apply foldM_frame.
  intros t img'. apply render_elements_kernel_frame. exact Hfree.
Qed.
End CompositeFrame.

(** Two bytes of rows that do not overlap: equal addresses mean equal rows
    and equal offsets in the row. *)
Lemma row_offset_unique (s y y' o o' : Z) :
  0 <= o < s -> 0 <= o' < s -> y * s + o = y' * s + o' -> y = y' /\ o = o'.
Proof.
  intros Ho Ho' E.
  assert (y = y').
  { destruct (Z_lt_dec y y'); [nia|]. destruct (Z_lt_dec y' y); [nia|]. lia. }
  subst. lia.
Qed.

(** On an odd width, with an even grid origin, no blendable quad holds a
    pixel of the last column. *)
Lemma last_column_free (format : ImageFormat) (bx by_ width stride height y : Z)
    (l : location) :
  width mod 2 = 1 -> bx mod 2 = 0 -> bytes_per_pixel format * width <= stride ->
  0 <= y < height ->
  pixel_owns format stride (width - 1) y l ->
  forall px py, blendable bx by_ width height px py -> ~ pixel_owns format stride px py l.
Proof.
  intros Hodd Hbx Hstride Hy Hown px py (ix & iy & i & j & -> & -> & Hi & Hj & Hix & Hiy & Px & Py) Hown'.
  assert (Hlt : ix + i <= width - 2) by (Z.div_mod_to_equations; lia).
  destruct format, l; cbn [pixel_owns bytes_per_pixel] in *; try contradiction.
  - destruct Hown as (k & Hk & ->). destruct Hown' as (k' & Hk' & E).
    pose proof (row_offset_unique stride y (iy + j) ((width - 1) * 3 + k) ((ix + i) * 3 + k')
                  ltac:(lia) ltac:(lia) ltac:(lia)).
    lia.
  - destruct Hown as (k & Hk & ->). destruct Hown' as (k' & Hk' & E).
    pose proof (row_offset_unique stride y (iy + j) ((width - 1) * 4 + k) ((ix + i) * 4 + k')
                  ltac:(lia) ltac:(lia) ltac:(lia)).
    lia.
  - lia.
  - lia.
  - subst a.
    pose proof (row_offset_unique stride y (iy + j) (width - 1) (ix + i)
                  ltac:(lia) ltac:(lia) ltac:(lia)).
    lia.
  - subst a.
    pose proof (row_offset_unique stride (Z.quot y 2) (Z.quot (iy + j) 2) (width - 1) (ix + i)
                  ltac:(lia) ltac:(lia) ltac:(lia)).
    lia.
Qed.

(** On an odd height, with an even grid origin, no blendable quad holds a
    pixel of the last row. *)
Lemma last_row_free (format : ImageFormat) (bx by_ width stride height x : Z)
    (l : location) :
  height mod 2 = 1 -> by_ mod 2 = 0 -> bytes_per_pixel format * width <= stride ->
  0 <= x < width ->
  pixel_owns format stride x (height - 1) l ->
  forall px py, blendable bx by_ width height px py -> ~ pixel_owns format stride px py l.
Proof.
  intros Hodd Hby Hstride Hx Hown px py (ix & iy & i & j & -> & -> & Hi & Hj & Hix & Hiy & Px & Py) Hown'.
  assert (Hlt : iy + j <= height - 2) by (Z.div_mod_to_equations; lia).
  assert (Hq : Z.quot (iy + j) 2 < Z.quot (height - 1) 2).
  { rewrite !Z.quot_div_nonneg by lia. Z.div_mod_to_equations. lia. }
  destruct format, l; cbn [pixel_owns bytes_per_pixel] in *; try contradiction.
  - destruct Hown as (k & Hk & ->). destruct Hown' as (k' & Hk' & E).
    pose proof (row_offset_unique stride (height - 1) (iy + j) (x * 3 + k) ((ix + i) * 3 + k')
                  ltac:(lia) ltac:(lia) ltac:(lia)).
    lia.
  - destruct Hown as (k & Hk & ->). destruct Hown' as (k' & Hk' & E).
    pose proof (row_offset_unique stride (height - 1) (iy + j) (x * 4 + k) ((ix + i) * 4 + k')
                  ltac:(lia) ltac:(lia) ltac:(lia)).
    lia.
  - lia.
  - lia.
  - subst a.
    pose proof (row_offset_unique stride (height - 1) (iy + j) x (ix + i)
                  ltac:(lia) ltac:(lia) ltac:(lia)).
    lia.
  - subst a.
    pose proof (row_offset_unique stride (Z.quot (height - 1) 2) (Z.quot (iy + j) 2) x (ix + i)
                  ltac:(lia) ltac:(lia) ltac:(lia)).
    lia.
Qed.

Section CompositePass.
Variable format : ImageFormat.
Variable have_rotate_msaa : bool.
Variables (img : Image) (width stride height : Z).
Variable text_location : Z -> TextLocation.t.
Variable text_bitmap : mem.
Variable text_bitmap_width : Z.
Variable line_location_base : Z -> Z.
Variable commands : Z -> Command.
Variable num_commands : Z.
Variables bounding_left bounding_top bounding_right bounding_bottom : Z.

Lemma cuosd_launch_kernel_impl_frame (l : location) :
  (forall px py,
      blendable (grid_origin bounding_left width) (grid_origin bounding_top height)
        width height px py ->
      ~ pixel_owns format stride px py l) ->
  read_location
    (surface_after
       (value (cuosd_launch_kernel_impl width stride height
                 text_location text_bitmap text_bitmap_width line_location_base
                 commands num_commands
                 bounding_left bounding_top bounding_right bounding_bottom
                 format have_rotate_msaa img))) l
  = read_location img l.
Proof.
  intros Hfree. unfold cuosd_launch_kernel_impl.
  fold (grid_origin bounding_left width) (grid_origin bounding_top height).
  match goal with |- context [if ?b then _ else _] => destruct b end.
  - reflexivity.
  - unfold bind. cbn [value ret surface_after]. apply launch_frame. exact Hfree.
Qed.

(** C10, as amended.  For every command list and every surface: a thread
    whose quad origin has [ix >= width - 1] or [iy >= height - 1] returns
    before any blending, so the composite pass blends only quads whose
    origin has [ix <= width - 2] and [iy <= height - 2], and writes only
    bytes of pixels (x, y) with [x <= width - 1] and [y <= height - 1].  The
    quad origins are even, so on a surface of odd width (respectively odd
    height) whose rows hold [width] pixels the last pixel column
    (respectively the last row) is never modified by the composite pass. *)
Theorem C10_composite_pass_writes :
  (forall (gx gy : Z) (blockDim blockIdx threadIdx : dim3.t) (any : Image),
      let ix := quad_origin (dim3.x blockDim) (dim3.x blockIdx) (dim3.x threadIdx) gx in
      let iy := quad_origin (dim3.y blockDim) (dim3.y blockIdx) (dim3.y threadIdx) gy in
      ix >= width - 1 \/ iy >= height - 1 ->
      render_elements_kernel format have_rotate_msaa gx gy
        text_location text_bitmap text_bitmap_width line_location_base
        commands num_commands width stride height blockDim blockIdx threadIdx any
      = ret any)
  /\ (forall l : location,
      (forall px py, 0 <= px <= width - 1 -> 0 <= py <= height - 1 ->
                     ~ pixel_owns format stride px py l) ->
      read_location
        (surface_after
           (value (cuosd_launch_kernel_impl width stride height
                     text_location text_bitmap text_bitmap_width line_location_base
                     commands num_commands
                     bounding_left bounding_top bounding_right bounding_bottom
                     format have_rotate_msaa img))) l
      = read_location img l)
  /\ (forall (y : Z) (l : location),
      width mod 2 = 1 -> bytes_per_pixel format * width <= stride ->
      0 <= y < height -> pixel_owns format stride (width - 1) y l ->
      read_location
        (surface_after
           (value (cuosd_launch_kernel_impl width stride height
                     text_location text_bitmap text_bitmap_width line_location_base
                     commands num_commands
                     bounding_left bounding_top bounding_right bounding_bottom
                     format have_rotate_msaa img))) l
      = read_location img l)
  /\ (forall (x : Z) (l : location),
      height mod 2 = 1 -> bytes_per_pixel format * width <= stride ->
      0 <= x < width -> pixel_owns format stride x (height - 1) l ->
      read_location
        (surface_after
           (value (cuosd_launch_kernel_impl width stride height
                     text_location text_bitmap text_bitmap_width line_location_base
                     commands num_commands
                     bounding_left bounding_top bounding_right bounding_bottom
                     format have_rotate_msaa img))) l
      = read_location img l).
Proof.
  split; [| split; [| split]].
  - intros gx gy blockDim blockIdx threadIdx any ix iy Hout.
    apply render_elements_kernel_bail_out. fold ix iy. lia.
  - intros l Hfree. apply cuosd_launch_kernel_impl_frame.
    intros px py (ix & iy & i & j & -> & -> & Hi & Hj & Hix & Hiy & _). apply Hfree; lia.
  - intros y l Hodd Hstride Hy Hown. apply cuosd_launch_kernel_impl_frame.
    apply (last_column_free format (grid_origin bounding_left width)
             (grid_origin bounding_top height) width stride height y l); try assumption.
    unfold grid_origin. apply round_down2_even.
  - intros x l Hodd Hstride Hx Hown. apply cuosd_launch_kernel_impl_frame.
    apply (last_row_free format (grid_origin bounding_left width)
             (grid_origin bounding_top height) width stride height x l); try assumption.
    unfold grid_origin. apply round_down2_even.
Qed.
End CompositePass.

Lemma C10_composite_pass_writes_witness :
  let img := Scenario.rgba_surface (uchar4.make 0 0 0 255) in
  read_location
    (surface_after
       (value (cuosd_launch_kernel_impl 3 12 3
                 (fun _ => Scenario.glyph 3 3) Scenario.atlas 3 Scenario.line_base
                 (fun _ => Scenario.text_command) 1 0 0 2 2 RGBA false img)))
    (Linear0 (1 * 12 + (3 - 1) * 4 + 3))
  = 255.
Proof.
  intros img.
  assert (Hown : pixel_owns RGBA 12 (3 - 1) 1 (Linear0 (1 * 12 + (3 - 1) * 4 + 3)))
    by (exists 3; lia).
  exact (proj1 (proj2 (proj2
           (C10_composite_pass_writes RGBA false img 3 12 3
              (fun _ => Scenario.glyph 3 3) Scenario.atlas 3 Scenario.line_base
              (fun _ => Scenario.text_command) 1 0 0 2 2)))
           1 (Linear0 (1 * 12 + (3 - 1) * 4 + 3))
           eq_refl ltac:(cbn; lia) ltac:(lia) Hown).
Defined.

(** On an even width the last column is written: the pixel (1, 1) of the
    2 x 2 surface, which has [x = width - 1 > width - 2], changes. *)
Lemma C10_last_column_written_on_even_width :
  Scenario.pixel_after
    (Scenario.launch_one Scenario.black_opaque Scenario.text_command 2 2) 1 1
  <> Scenario.pixel_after (ret (mkOutcome Scenario.black_opaque [])) 1 1.
Proof. vm_compute. discriminate. Qed.

(** ** The order of binary32 and the conversion of small integers *)

Lemma digits2_pos_iter (p : positive) (k : positive) :
  digits2_pos (Pos.iter xO p k) = (digits2_pos p + k)%positive.
Proof.
  induction k using Pos.peano_ind.
  - cbn. lia.
  - rewrite Pos.iter_succ. cbn [digits2_pos]. rewrite IHk. lia.
Qed.

Lemma binary_round_aux_exact (s : bool) (m : positive) (e : Z) :
  Zpos (digits2_pos m) = 24 -> -149 <= e <= 104 ->
  binary_round_aux F32.prec F32.emax s (Zpos m) e loc_Exact = S754_finite s m e.
Proof.
  intros Hd He.
  assert (Hf : fexp F32.prec F32.emax (Zpos (digits2_pos m) + e) - e = 0).
  { unfold fexp, emin, F32.prec, F32.emax. lia. }
  unfold binary_round_aux, shr_fexp. cbn [Zdigits2 shr_record_of_loc].
  rewrite Hf. cbn [shr loc_of_shr_record round_nearest_even shr_m].
  cbn [Zdigits2 shr_record_of_loc]. rewrite Hf. cbn [shr shr_m].
  unfold F32.emax, F32.prec.
  destruct (Z.leb_spec e (128 - 24)); [reflexivity | lia].
Qed.

Lemma binary_round_small (s : bool) (p : positive) :
  Zpos (digits2_pos p) <= 24 ->
  binary_round F32.prec F32.emax s p 0
  = S754_finite s (align24 p) (Zpos (digits2_pos p) - 24).
Proof.
  intros Hd. unfold binary_round.
  assert (Hf : fexp F32.prec F32.emax (Zpos (digits2_pos p) + 0) = Zpos (digits2_pos p) - 24).
  { unfold fexp, emin, F32.prec, F32.emax. lia. }
  rewrite Hf. unfold shl_align, align24.
  replace (Zpos (digits2_pos p) - 24 - 0) with (- (24 - Zpos (digits2_pos p))) by lia.
  destruct (24 - Zpos (digits2_pos p)) as [| k | k] eqn:Ek.
  - cbn [Z.opp]. replace (Zpos (digits2_pos p) - 24) with 0 by lia.
    apply binary_round_aux_exact; lia.
  - cbn [Z.opp]. apply binary_round_aux_exact; [| lia].
    rewrite digits2_pos_iter. lia.
  - lia.
Qed.

Lemma of_int_small (n : Z) :
  - 2 ^ 24 < n < 2 ^ 24 ->
  F32.of_int n =
  match n with
  | Z0 => S754_zero false
  | Zpos p => S754_finite false (align24 p) (Zpos (digits2_pos p) - 24)
  | Zneg p => S754_finite true (align24 p) (Zpos (digits2_pos p) - 24)
  end.
Proof.
  intros Hn. unfold F32.of_int, binary_normalize.
  assert (Hd : forall p, Zpos p < 2 ^ 24 -> Zpos (digits2_pos p) <= 24).
  { intros p Hp. destruct (Z_le_dec (Zpos (digits2_pos p)) 24); [assumption|].
    exfalso. pose proof (Pos.size_le p) as Hs.
    assert (digits2_pos p = Pos.size p) as E by (clear; induction p as [q IH | q IH |]; cbn [digits2_pos Pos.size]; rewrite ?IH; reflexivity).
    rewrite E in *.
    assert (2 ^ 25 <= 2 ^ Zpos (Pos.size p)) by (apply Z.pow_le_mono_r; lia).
    assert (Zpos (2 ^ Pos.size p) = 2 ^ Zpos (Pos.size p)) by (apply Pos2Z.inj_pow).
    lia. }
  destruct n as [| p | p].
  - reflexivity.
  - apply binary_round_small. apply Hd. lia.
  - apply binary_round_small. apply Hd. lia.
Qed.

Lemma ltb_key (x y : spec_float) :
  SFltb x y = true
  <-> is_nan x = false /\ is_nan y = false /\ key_lt (order_key x) (order_key y).
Proof.
  unfold SFltb, SFcompare, key_lt.
  destruct x as [sx | sx | | sx mx ex], y as [sy | sy | | sy my ey];
    try destruct sx; try destruct sy; cbn [order_key is_nan fst snd];
    try (split; [intros; try discriminate; repeat split; lia
                | intros (? & ? & ?); try discriminate; try reflexivity; lia]).
  - change (Pos.compare_cont Eq mx my) with (Pos.compare mx my).
    destruct (Z.compare_spec ex ey), (Pos.compare_spec mx my); cbn [CompOpp];
      (split; [intros; try discriminate; repeat split; lia
              | intros (? & ? & ?); try discriminate; try reflexivity; lia]).
  - change (Pos.compare_cont Eq mx my) with (Pos.compare mx my).
    destruct (Z.compare_spec ex ey), (Pos.compare_spec mx my); cbn [CompOpp];
      (split; [intros; try discriminate; repeat split; lia
              | intros (? & ? & ?); try discriminate; try reflexivity; lia]).
Qed.

Lemma leb_key (x y : spec_float) :
  SFleb x y = true
  <-> is_nan x = false /\ is_nan y = false /\ key_le (order_key x) (order_key y).
Proof.
  unfold SFleb, SFcompare, key_le.
  destruct x as [sx | sx | | sx mx ex], y as [sy | sy | | sy my ey];
    try destruct sx; try destruct sy; cbn [order_key is_nan fst snd];
    try (split; [intros; try discriminate; repeat split; lia
                | intros (? & ? & ?); try discriminate; try reflexivity; lia]).
  - change (Pos.compare_cont Eq mx my) with (Pos.compare mx my).
    destruct (Z.compare_spec ex ey), (Pos.compare_spec mx my); cbn [CompOpp];
      (split; [intros; try discriminate; repeat split; lia
              | intros (? & ? & ?); try discriminate; try reflexivity; lia]).
  - change (Pos.compare_cont Eq mx my) with (Pos.compare mx my).
    destruct (Z.compare_spec ex ey), (Pos.compare_spec mx my); cbn [CompOpp];
      (split; [intros; try discriminate; repeat split; lia
              | intros (? & ? & ?); try discriminate; try reflexivity; lia]).
Qed.

Lemma iter_xO_pow (p k : positive) : Zpos (Pos.iter xO p k) = Zpos p * 2 ^ Zpos k.
Proof.
  induction k using Pos.peano_ind.
  - cbn [Pos.iter]. rewrite Pos2Z.inj_xO. lia.
  - rewrite Pos.iter_succ, Pos2Z.inj_xO, IHk, Pos2Z.inj_succ, Z.pow_succ_r by lia. lia.
Qed.

Lemma digits2_pos_size (p : positive) : digits2_pos p = Pos.size p.
Proof. induction p as [q IH | q IH |]; cbn [digits2_pos Pos.size]; rewrite ?IH; reflexivity. Qed.

Lemma digits2_pos_bounds (p : positive) :
  2 ^ (Zpos (digits2_pos p) - 1) <= Zpos p < 2 ^ Zpos (digits2_pos p).
Proof.
  rewrite digits2_pos_size.
  pose proof (Pos.size_gt p) as Hgt. pose proof (Pos.size_le p) as Hle.
  assert (E : Zpos (2 ^ Pos.size p) = 2 ^ Zpos (Pos.size p)) by apply Pos2Z.inj_pow.
  assert (E2 : 2 ^ Zpos (Pos.size p) = 2 * 2 ^ (Zpos (Pos.size p) - 1)).
  { rewrite <- Z.pow_succ_r by lia. f_equal. lia. }
  split; lia.
Qed.

Lemma digits2_pos_le (p q : positive) :
  Zpos p <= Zpos q -> Zpos (digits2_pos p) <= Zpos (digits2_pos q).
Proof.
  intros Hpq. pose proof (digits2_pos_bounds p) as Hp. pose proof (digits2_pos_bounds q) as Hq.
  destruct (Z_le_dec (Zpos (digits2_pos p)) (Zpos (digits2_pos q))); [assumption|].
  exfalso.
  assert (2 ^ Zpos (digits2_pos q) <= 2 ^ (Zpos (digits2_pos p) - 1))
    by (apply Z.pow_le_mono_r; lia).
  lia.
Qed.

Lemma align24_value (p : positive) :
  Zpos (digits2_pos p) <= 24 ->
  Zpos (align24 p) = Zpos p * 2 ^ (24 - Zpos (digits2_pos p)).
Proof.
  intros Hd. unfold align24.
  destruct (24 - Zpos (digits2_pos p)) as [| k | k] eqn:Ek.
  - cbn. lia.
  - apply iter_xO_pow.
  - lia.
Qed.

Lemma small_digits (p : positive) : Zpos p < 2 ^ 24 -> Zpos (digits2_pos p) <= 24.
Proof.
  intros Hp. pose proof (digits2_pos_bounds p) as Hb.
  destruct (Z_le_dec (Zpos (digits2_pos p)) 24); [assumption|]. exfalso.
  assert (2 ^ 24 <= 2 ^ (Zpos (digits2_pos p) - 1)) by (apply Z.pow_le_mono_r; lia).
  lia.
Qed.

Lemma of_int_key_le (n m : Z) :
  - 2 ^ 24 < n -> n <= m -> m < 2 ^ 24 ->
  key_le (order_key (F32.of_int n)) (order_key (F32.of_int m)).
Proof.
  intros Hn Hnm Hm. rewrite !of_int_small by lia. unfold key_le.
  assert (Hmant : forall p q, Zpos p <= Zpos q -> Zpos q < 2 ^ 24 ->
            Zpos (digits2_pos p) < Zpos (digits2_pos q)
            \/ (Zpos (digits2_pos p) = Zpos (digits2_pos q)
                /\ Zpos (align24 p) <= Zpos (align24 q))).
  { intros p q Hpq Hq. pose proof (digits2_pos_le p q Hpq) as Hd.
    destruct (Z_lt_dec (Zpos (digits2_pos p)) (Zpos (digits2_pos q))); [left; assumption|].
    right. split; [lia|].
    rewrite !align24_value by (apply small_digits; lia).
    replace (Zpos (digits2_pos p)) with (Zpos (digits2_pos q)) by lia.
    apply Z.mul_le_mono_nonneg_r; [apply Z.pow_nonneg; lia | assumption]. }
  destruct n as [| p | p], m as [| q | q]; cbn [order_key fst snd]; try lia.
  - destruct (Hmant p q) as [H | [H1 H2]]; lia.
  - destruct (Hmant q p) as [H | [H1 H2]]; lia.
Qed.

Lemma of_int_not_nan (n : Z) : - 2 ^ 24 < n < 2 ^ 24 -> is_nan (F32.of_int n) = false.
Proof. intros Hn. rewrite of_int_small by lia. destruct n; reflexivity. Qed.

Lemma of_int_leb (n m : Z) :
  - 2 ^ 24 < n -> n <= m -> m < 2 ^ 24 -> F32.leb (F32.of_int n) (F32.of_int m) = true.
Proof.
  intros Hn Hnm Hm. unfold F32.leb. rewrite leb_key.
  repeat split; try (apply of_int_not_nan; lia). apply of_int_key_le; assumption.
Qed.

(** A square root never compares below zero. *)
Lemma binary_round_aux_sign (s : bool) (m e : Z) (l : SpecFloat.location) :
  match binary_round_aux F32.prec F32.emax s m e l with
  | S754_finite s' _ _ => s' = s
  | S754_infinity s' => s' = s
  | _ => True
  end.
Proof.
  unfold binary_round_aux.
  destruct (shr_fexp F32.prec F32.emax m e l) as [mrs' e'].
  destruct (shr_fexp F32.prec F32.emax _ e' loc_Exact) as [mrs'' e''].
  destruct (shr_m mrs''); [exact I | | exact I].
  destruct (e'' <=? F32.emax - F32.prec); reflexivity.
Qed.

Lemma sqrt_not_negative (v : F32.float) : F32.ltb (F32.sqrt v) F32.zero = false.
Proof.
  unfold F32.sqrt, SFsqrt, F32.ltb.
  destruct v as [s | s | | s m e]; try reflexivity; try (destruct s; reflexivity).
  destruct s; [reflexivity|].
  destruct (SFsqrt_core_binary F32.prec F32.emax (Zpos m) e) as [[mz ez] lz].
  pose proof (binary_round_aux_sign false mz ez lz) as Hs.
  destruct (binary_round_aux F32.prec F32.emax false mz ez lz) as [s' | s' | | s' m' e'];
    try reflexivity; subst s'; reflexivity.
Qed.

Lemma flt_fle_false (x y : F32.float) : F32.ltb x y = true -> F32.leb y x = true -> False.
Proof.
  unfold F32.ltb, F32.leb. rewrite ltb_key, leb_key. unfold key_lt, key_le.
  intros (_ & _ & H1) (_ & _ & H2). lia.
Qed.

Lemma fle_flt_trans (x y z : F32.float) :
  F32.leb x y = true -> F32.ltb y z = true -> F32.ltb x z = true.
Proof.
  unfold F32.ltb, F32.leb. rewrite !ltb_key, leb_key. unfold key_lt, key_le.
  intros (Nx & _ & H1) (_ & Nz & H2). repeat split; try assumption. lia.
Qed.

Lemma flt_fle_trans (x y z : F32.float) :
  F32.ltb x y = true -> F32.leb y z = true -> F32.ltb x z = true.
Proof.
  unfold F32.ltb, F32.leb. rewrite !ltb_key, leb_key. unfold key_lt, key_le.
  intros (Nx & _ & H1) (_ & Nz & H2). repeat split; try assumption. lia.
Qed.

Lemma fle_trans (x y z : F32.float) :
  F32.leb x y = true -> F32.leb y z = true -> F32.leb x z = true.
Proof.
  unfold F32.leb. rewrite !leb_key. unfold key_le.
  intros (Nx & _ & H1) (_ & Nz & H2). repeat split; try assumption. lia.
Qed.


Lemma flt_fle (x y : F32.float) : F32.ltb x y = true -> F32.leb x y = true.
Proof.
  unfold F32.ltb, F32.leb. rewrite ltb_key, leb_key. unfold key_lt, key_le.
  intros (Nx & Ny & Hlt). repeat split; try assumption. lia.
Qed.

(** ** Circle coverage *)

Section Annulus.
Variables (r : F32.float) (a b alpha : Z).
Hypothesis r_not_negative : F32.ltb r F32.zero = false.
Hypothesis a_range : - 2 ^ 24 < a - 1.
Hypothesis b_range : b + 1 < 2 ^ 24.
Hypothesis a_le_b : a <= b.

(** [r] is not below the inner edge as soon as it is at least some bound
    that is itself at least [a - 1]. *)
Lemma not_below_inner_edge (v : Z) :
  a - 1 <= v -> v < 2 ^ 24 -> dist_ge r v -> F32.ltb r (F32.of_int (inner_edge a)) = false.
Proof.
  intros Hva Hv Hle.
  destruct (F32.ltb r (F32.of_int (inner_edge a))) eqn:E; [exfalso | reflexivity].
  unfold inner_edge in E. destruct (Z.ltb_spec (a - 1) 0).
  - change (F32.of_int 0) with F32.zero in E. congruence.
  - apply (flt_fle_false r (F32.of_int (a - 1))); [exact E|].
    apply fle_trans with (F32.of_int v); [apply of_int_leb; lia | exact Hle].
Qed.

(** [r] is not beyond the outer edge as soon as it is at most some bound
    that is itself at most [b + 1]. *)
Lemma not_beyond_outer_edge (v : Z) :
  - 2 ^ 24 < v -> v <= b + 1 -> dist_le r v -> F32.gtb r (F32.of_int (b + 1)) = false.
Proof.
  intros Hv Hvb Hle. unfold F32.gtb. fold (F32.ltb (F32.of_int (b + 1)) r).
  destruct (F32.ltb (F32.of_int (b + 1)) r) eqn:E; [exfalso | reflexivity].
  apply (flt_fle_false (F32.of_int (b + 1)) r); [exact E|].
  apply fle_trans with (F32.of_int v); [exact Hle | apply of_int_leb; lia].
Qed.

Lemma interpolation_fn_plateau :
  dist_ge r a -> dist_lt r b -> interpolation_fn r a b 1 alpha = alpha.
Proof.
  intros Ha Hb. unfold interpolation_fn. fold (inner_edge a).
  rewrite (not_below_inner_edge a) by (try assumption; lia).
  rewrite (not_beyond_outer_edge b) by (try lia; apply flt_fle; exact Hb).
  cbn [orb]. unfold dist_ge, dist_lt in *. rewrite Ha, Hb. reflexivity.
Qed.

Lemma interpolation_fn_outer_ramp :
  dist_ge r b -> dist_le r (b + 1) ->
  interpolation_fn r a b 1 alpha = outer_ramp r b alpha.
Proof.
  intros Hb Hb1. unfold interpolation_fn. fold (inner_edge a).
  rewrite (not_below_inner_edge b) by (try assumption; lia).
  rewrite (not_beyond_outer_edge (b + 1)) by (try assumption; lia).
  cbn [orb].
  assert (E : F32.ltb r (F32.of_int b) = false).
  { destruct (F32.ltb r (F32.of_int b)) eqn:E; [exfalso | reflexivity].
    exact (flt_fle_false _ _ E Hb). }
  rewrite E, andb_false_r. unfold dist_ge, dist_le in *. rewrite Hb, Hb1. reflexivity.
Qed.

Lemma interpolation_fn_inner_ramp :
  dist_ge r (inner_edge a) -> dist_lt r a ->
  interpolation_fn r a b 1 alpha = inner_ramp r (inner_edge a) alpha.
Proof.
  intros H0 Ha. unfold interpolation_fn. fold (inner_edge a).
  assert (E0 : F32.ltb r (F32.of_int (inner_edge a)) = false).
  { destruct (F32.ltb r (F32.of_int (inner_edge a))) eqn:E; [exfalso | reflexivity].
    exact (flt_fle_false _ _ E H0). }
  rewrite E0.
  rewrite (not_beyond_outer_edge a) by (try lia; apply flt_fle; exact Ha).
  cbn [orb].
  assert (Ea : F32.geb r (F32.of_int a) = false).
  { destruct (F32.geb r (F32.of_int a)) eqn:E; [exfalso | reflexivity].
    exact (flt_fle_false _ _ Ha E). }
  assert (Eb : F32.geb r (F32.of_int b) = false).
  { destruct (F32.geb r (F32.of_int b)) eqn:E; [exfalso | reflexivity].
    apply (flt_fle_false r (F32.of_int a) Ha).
    apply fle_trans with (F32.of_int b); [apply of_int_leb; lia | exact E]. }
  rewrite Ea, Eb. cbn [andb]. unfold dist_ge, dist_lt in *. rewrite Ha, H0. reflexivity.
Qed.

Lemma interpolation_fn_outside :
  dist_lt r (inner_edge a) \/ dist_gt r (b + 1) -> interpolation_fn r a b 1 alpha = 0.
Proof.
  intros Hout. unfold interpolation_fn. fold (inner_edge a). unfold dist_lt, dist_gt in Hout.
  destruct Hout as [-> | ->]; [reflexivity | rewrite orb_true_r; reflexivity].
Qed.
End Annulus.

(** The square of an offset of at most 46340 fits an [int]. *)
Lemma product_fits_int (d : Z) :
  Z.abs d <= 46340 -> int_of_uint (uint (d * d)) = d * d.
Proof.
  intros Hd. assert (B : 0 <= d * d <= 46340 * 46340) by nia.
  unfold int_of_uint, uint.
  change (2 ^ 32) with 4294967296. change (2 ^ 31) with 2147483648.
  rewrite Z.mod_small by lia.
  destruct (Z.ltb_spec (d * d) 2147483648); [reflexivity | lia].
Qed.

(** C9.  Circle coverage: a pixel at distance [r] from the centre receives
    the alpha [c3] when [inner <= r < outer].  The kernel squares the x
    offset in [float] and the y offset in [int], so the claim fails where
    the y offset is 46341 or more.  For the filled circle of radius 47000
    around (0, -46000): the box of the constructor reaches down to row
    1002 and the annulus is [0, 47000); the pixels of row 340, at the
    distance 46340 and a little more, receive 255; the pixels of row 341,
    at the distance 46341, inside the annulus, receive 0, because
    [46341 * 46341] wraps to a negative [int] and its square root is not a
    number.  The thread of the quad (0, 340) is not culled and blends its
    upper two pixels only. *)
Theorem C9_circle_distance_overflow :
  let p := CircleCommand_ctor 0 (-46000) 47000 (-1) 10 20 30 255 in
  circle_bounds p = (0, 47000)
  /\ H.bounding_bottom (CircleCommand.base p) = 1002
  /\ outside_bounding 0 340 (CircleCommand.base p) = false
  /\ (0 * 0 <= squared_distance p 0 340 < 47000 * 47000
      /\ circle_alpha p 0 340 = 255)
  /\ (0 * 0 <= squared_distance p 0 341 < 47000 * 47000
      /\ int_of_uint (uint ((341 - CircleCommand.cy p) * (341 - CircleCommand.cy p)))
         = -2147479015
      /\ circle_alpha p 0 341 = 0)
  /\ value (render_circle_interpolation p 0 340 zero_quad)
     = mkQuad (uchar4.make 10 20 30 255) (uchar4.make 10 20 30 255)
         uchar4.zero uchar4.zero.
Proof.
  cbv zeta. repeat split; try (vm_compute; reflexivity); vm_compute; discriminate.
Qed.

(** The coverage law of the circle, over the distance [r] that the kernel
    computes.  With [inner = radius - thickness / 2] and
    [outer = inner + thickness], and with [inner = 0], [outer = radius] when
    [thickness == -1], a pixel receives the alpha [c3] when
    [inner <= r < outer]; beyond the outer edge the alpha is ramped linearly
    to 0 over one pixel, [(outer + 1 - r) * c3]; before the inner edge it is
    ramped linearly to 0 over one pixel, from the inner edge down to
    [max (inner - 1) 0]; outside this padded annulus it is 0.  Distances and
    bounds are compared in binary32, and a ramp value is truncated to a
    byte.  Where the y offset is at most 46340 the product of the y offsets
    does not wrap, and [r] is the binary32 square root of the sum of the
    two squares. *)
Theorem circle_coverage_law (p : CircleCommand.t) (px py : Z) :
  0 <= CircleCommand.radius p < 2 ^ 22 ->
  -1 <= CircleCommand.thickness p < 2 ^ 22 ->
  let inner :=
    if CircleCommand.thickness p =? -1 then 0
    else CircleCommand.radius p - Z.quot (CircleCommand.thickness p) 2 in
  let outer :=
    if CircleCommand.thickness p =? -1 then CircleCommand.radius p
    else inner + CircleCommand.thickness p in
  let r := circle_distance p px py in
  let c3 := H.c3 (CircleCommand.base p) in
  circle_bounds p = (inner, outer)
  /\ (dist_ge r inner -> dist_lt r outer -> circle_alpha p px py = c3)
  /\ (dist_ge r outer -> dist_le r (outer + 1) ->
      circle_alpha p px py = outer_ramp r outer c3)
  /\ (dist_ge r (inner_edge inner) -> dist_lt r inner ->
      circle_alpha p px py = inner_ramp r (inner_edge inner) c3)
  /\ (dist_lt r (inner_edge inner) \/ dist_gt r (outer + 1) -> circle_alpha p px py = 0)
  /\ (forall (ix iy : Z) (color : Quad),
      let blended k x y :=
        value (blend_when (negb (circle_alpha p x y =? 0)) (quad_get color k)
                 (H.c0 (CircleCommand.base p)) (H.c1 (CircleCommand.base p))
                 (H.c2 (CircleCommand.base p)) (circle_alpha p x y)) in
      value (render_circle_interpolation p ix iy color)
      = mkQuad (blended 0 ix iy) (blended 1 (ix + 1) iy)
          (blended 2 ix (iy + 1)) (blended 3 (ix + 1) (iy + 1)))
  /\ (Z.abs (py - CircleCommand.cy p) <= 46340 ->
      r = F32.sqrt (F32.of_int (px - CircleCommand.cx p)
                    * F32.of_int (px - CircleCommand.cx p)
                    + F32.of_int ((py - CircleCommand.cy p)
                                  * (py - CircleCommand.cy p)))%f32).
Proof.
  intros Hr Ht inner outer r c3.
  assert (Hbounds : circle_bounds p = (inner, outer)).
  { unfold circle_bounds, inner, outer.
    destruct (Z.eqb_spec (CircleCommand.thickness p) (-1)) as [E | E].
    - rewrite E. reflexivity.
    - destruct (Z.ltb_spec (CircleCommand.thickness p) 0); [lia | reflexivity]. }
  assert (Hq : 0 <= CircleCommand.thickness p ->
               0 <= Z.quot (CircleCommand.thickness p) 2 <= CircleCommand.thickness p).
  { intros H0. rewrite Z.quot_div_nonneg by lia. Z.div_mod_to_equations. lia. }
  assert (Hin : - 2 ^ 24 < inner - 1 /\ outer + 1 < 2 ^ 24 /\ inner <= outer).
  { unfold inner, outer.
    change (2 ^ 24) with 16777216. change (2 ^ 22) with 4194304 in *.
    destruct (Z.eqb_spec (CircleCommand.thickness p) (-1)); lia. }
  destruct Hin as (Hlo & Hhi & Hle).
  assert (Hnn : F32.ltb r F32.zero = false) by apply sqrt_not_negative.
  assert (Halpha : circle_alpha p px py = interpolation_fn r inner outer 1 c3).
  { unfold circle_alpha. rewrite Hbounds. reflexivity. }
  split; [exact Hbounds|]. rewrite Halpha.
  split; [intros; apply interpolation_fn_plateau; assumption|].
  split; [intros; apply interpolation_fn_outer_ramp; assumption|].
  split; [intros; apply interpolation_fn_inner_ramp; assumption|].
  split; [intros; apply interpolation_fn_outside; assumption|].
  split; [intros ix iy color; reflexivity|].
  intros Hy. unfold r, circle_distance.
  rewrite (product_fits_int (py - CircleCommand.cy p)) by exact Hy. reflexivity.
Qed.

Lemma circle_coverage_law_witness :
  circle_alpha (Scenario.circle (-1)) 12 10 = 255
  /\ circle_alpha (Scenario.circle 2) 4 9
     = outer_ramp (circle_distance (Scenario.circle 2) 4 9) 6 255
  /\ circle_alpha (Scenario.circle 2) 7 9
     = inner_ramp (circle_distance (Scenario.circle 2) 7 9) 3 255
  /\ circle_alpha (Scenario.circle 2) 10 10 = 0.
Proof.
  assert (R : 0 <= 5 < 2 ^ 22) by (change (2 ^ 22) with 4194304; lia).
  assert (T1 : -1 <= -1 < 2 ^ 22) by (change (2 ^ 22) with 4194304; lia).
  assert (T2 : -1 <= 2 < 2 ^ 22) by (change (2 ^ 22) with 4194304; lia).
  pose proof (circle_coverage_law (Scenario.circle (-1)) 12 10 R T1) as W1.
  pose proof (circle_coverage_law (Scenario.circle 2) 4 9 R T2) as W2.
  pose proof (circle_coverage_law (Scenario.circle 2) 7 9 R T2) as W3.
  pose proof (circle_coverage_law (Scenario.circle 2) 10 10 R T2) as W4.
  split; [| split; [| split]].
  - apply (proj1 (proj2 W1)); vm_compute; reflexivity.
  - apply (proj1 (proj2 (proj2 W2))); vm_compute; reflexivity.
  - apply (proj1 (proj2 (proj2 (proj2 W3)))); vm_compute; reflexivity.
  - apply (proj1 (proj2 (proj2 (proj2 (proj2 W4))))). left. vm_compute. reflexivity.
Defined.

(** * Further properties of the code *)

(** ** Integer helpers *)

Lemma round_down2_uint (num : Z) : round_down2 num = uint num - num mod 2.
Proof.
  assert (Hu : 0 <= uint num < 2 ^ 32) by (unfold uint; apply Z.mod_pos_bound; lia).
  assert (Hpar : uint num mod 2 = num mod 2).
  { unfold uint. change (2 ^ 32) with (2 * 2147483648).
    rewrite Z.rem_mul_r by lia. rewrite Z.mul_comm, Z_mod_plus_full.
    apply Z.mod_mod. lia. }
  unfold round_down2.
  assert (E : uint (Z.lnot 1) = Z.ldiff (Z.ones 32) (Z.ones 1))
    by (vm_compute; reflexivity).
  rewrite E, Z.ldiff_land, Z.land_assoc, Z.land_ones by lia.
  rewrite (Z.mod_small (uint num)) by exact Hu.
  rewrite <- Z.ldiff_land, Z.ldiff_ones_r by lia.
  rewrite Z.shiftr_div_pow2, Z.shiftl_mul_pow2 by lia. change (2 ^ 1) with 2.
  rewrite <- Hpar. pose proof (Z.div_mod (uint num) 2 ltac:(lia)). lia.
Qed.

(** Seen as an [int], [round_down2] clears the lowest bit of an [int]. *)
Lemma round_down2_int (num : Z) :
  INT_MIN <= num <= INT_MAX -> int_of_uint (round_down2 num) = num - num mod 2.
Proof.
  unfold INT_MIN, INT_MAX. change (2 ^ 31) with 2147483648. intros Hn.
  rewrite round_down2_uint. unfold int_of_uint, uint.
  change (2 ^ 32) with 4294967296. change (2 ^ 31) with 2147483648.
  pose proof (Z.mod_pos_bound num 2 ltac:(lia)) as Hp.
  pose proof (Z.div_mod num 2 ltac:(lia)) as Hd.
  destruct (Z_lt_le_dec num 0) as [Hneg | Hpos].
  - replace (num mod 4294967296) with (num + 4294967296)
      by (apply Z.mod_unique with (q := -1); lia).
    destruct (Z.ltb_spec (num + 4294967296 - num mod 2) 2147483648); lia.
  - rewrite (Z.mod_small num) by lia.
    destruct (Z.ltb_spec (num - num mod 2) 2147483648); lia.
Qed.

(** [round_down2] clears the lowest bit of its argument, seen as an
    [unsigned int]. *)
Theorem round_down2_clears_bit0 (num : Z) :
  round_down2 num = uint num - num mod 2
  /\ (0 <= num < 2 ^ 32 -> round_down2 num = 2 * (num / 2)).
Proof.
  split; [apply round_down2_uint|].
  intros Hn. rewrite round_down2_uint. unfold uint. rewrite Z.mod_small by exact Hn.
  pose proof (Z.div_mod num 2 ltac:(lia)). lia.
Qed.

Lemma round_down2_clears_bit0_witness : round_down2 7 = 2 * (7 / 2).
Proof.
  apply (proj2 (round_down2_clears_bit0 7)). change (2 ^ 32) with 4294967296. lia.
Defined.

(** ** The source-over law *)

(** The first primitive that reaches a pixel of the accumulator leaves
    its own colour and alpha there: over a transparent pixel, source-over
    with a non-zero alpha is a copy, and it does not divide by zero. *)
Theorem blend_single_color_on_transparent (color : uchar4.t) (c0 c1 c2 a : Z) :
  uchar4.w color = 0 ->
  is_byte c0 -> is_byte c1 -> is_byte c2 -> 0 < a <= 255 ->
  blend_single_color color c0 c1 c2 a = ret (uchar4.make c0 c1 c2 a).
Proof.
  intros Hw H0 H1 H2 Ha. unfold blend_single_color, bind, idiv, ret.
  cbn [value div_by_zero]. rewrite Hw.
  rewrite !Z.mul_0_r, !Z.mul_0_l. change (Z.shiftr 0 8) with 0. cbn [Z.add].
  rewrite !Z.quot_mul by lia. rewrite !u8cast_byte by assumption.
  rewrite u8_byte by (unfold is_byte; lia).
  destruct (Z.eqb_spec a 0); [lia | reflexivity].
Qed.

Lemma blend_single_color_on_transparent_witness :
  blend_single_color uchar4.zero 10 20 30 199 = ret (uchar4.make 10 20 30 199).
Proof.
  apply blend_single_color_on_transparent; unfold is_byte; cbn; lia.
Defined.

(** Source-over keeps the accumulator well formed: the four components of
    the result are bytes, and the new alpha is at least the foreground
    alpha and at least the old alpha minus one. *)
Theorem blend_single_color_alpha_bounds (color : uchar4.t) (c0 c1 c2 a : Z) :
  is_byte (uchar4.w color) -> is_byte a ->
  let r := value (blend_single_color color c0 c1 c2 a) in
  color_wf r /\ a <= uchar4.w r /\ uchar4.w color - 1 <= uchar4.w r.
Proof.
  intros Hw Ha r. unfold is_byte in *.
  assert (Hq : uchar4.w color - 1 - a
               <= Z.shiftr (uchar4.w color * (255 - a)) 8 <= 255 - a).
  { rewrite Z.shiftr_div_pow2 by lia. change (2 ^ 8) with 256.
    pose proof (Z.div_mod (uchar4.w color * (255 - a)) 256 ltac:(lia)) as E.
    pose proof (Z.mod_pos_bound (uchar4.w color * (255 - a)) 256 ltac:(lia)) as B.
    assert (0 <= (256 - uchar4.w color) * (1 + a)) by nia.
    split; nia. }
  assert (Hcast : forall v, is_byte (u8cast v)).
  { intros v. unfold u8cast, is_byte.
    destruct (Z.ltb_spec v 0); [lia|].
    destruct (v >? 255) eqn:E; [lia | rewrite Z.gtb_ltb in E; apply Z.ltb_ge in E; lia]. }
  assert (Hnn : 0 <= Z.shiftr (uchar4.w color * (255 - a)) 8)
    by (apply Z.shiftr_nonneg; nia).
  assert (Halpha : uchar4.w r = Z.shiftr (uchar4.w color * (255 - a)) 8 + a).
  { unfold r, blend_single_color, bind, idiv, ret. cbn [value uchar4.w].
    apply u8_byte. unfold is_byte. lia. }
  split; [| lia].
  unfold color_wf. repeat split; try apply Hcast; rewrite Halpha; lia.
Qed.

Lemma blend_single_color_alpha_bounds_witness :
  color_wf (value (blend_single_color (uchar4.make 10 20 30 200) 1 2 3 100)).
Proof.
  apply (blend_single_color_alpha_bounds (uchar4.make 10 20 30 200) 1 2 3 100);
    unfold is_byte; cbn; lia.
Defined.

(** ** The RGB blit *)

(** On an RGB destination the blit is exact at both alpha extremes: a
    foreground of alpha 0 leaves the three bytes of the pixel as they are,
    one of alpha 255 writes the foreground colour. *)
Theorem blend_rgb_pixel_extremes (m : mem) (p : Z) (fg : uchar4.t) :
  is_byte (uchar4.x fg) -> is_byte (uchar4.y fg) -> is_byte (uchar4.z fg) ->
  is_byte (m p) -> is_byte (m (p + 1)) -> is_byte (m (p + 2)) ->
  (let r := value (blend_rgb_pixel m p
                     (uchar4.make (uchar4.x fg) (uchar4.y fg) (uchar4.z fg) 0)) in
   r p = m p /\ r (p + 1) = m (p + 1) /\ r (p + 2) = m (p + 2))
  /\ (let r := value (blend_rgb_pixel m p
                        (uchar4.make (uchar4.x fg) (uchar4.y fg) (uchar4.z fg) 255)) in
      r p = uchar4.x fg /\ r (p + 1) = uchar4.y fg /\ r (p + 2) = uchar4.z fg).
Proof.
  intros Hx Hy Hz M0 M1 M2. split.
  - unfold blend_rgb_pixel, bind, idiv, ret.
    cbn [value div_by_zero uchar4.x uchar4.y uchar4.z uchar4.w].
    change (Z.shiftr (255 * (255 - 0)) 8 + 0) with 254.
    rewrite !Z.mul_0_r, !Z.add_0_r. unfold is_byte in *.
    rewrite (shiftr8_eq (m p * 255 * (255 - 0)) (m p * 254) (m p)) by lia.
    rewrite Z.quot_mul by lia.
    rewrite (store_other _ p _ (p + 1)) by lia.
    rewrite (shiftr8_eq (m (p + 1) * 255 * (255 - 0)) (m (p + 1) * 254) (m (p + 1))) by lia.
    rewrite Z.quot_mul by lia.
    rewrite !(store_other _ _ _ (p + 2)) by lia.
    rewrite (shiftr8_eq (m (p + 2) * 255 * (255 - 0)) (m (p + 2) * 254) (m (p + 2))) by lia.
    rewrite Z.quot_mul by lia.
    rewrite !u8cast_byte by (unfold is_byte; lia).
    repeat split; store_read; apply u8_byte; unfold is_byte; lia.
  - unfold blend_rgb_pixel, bind, idiv, ret.
    cbn [value div_by_zero uchar4.x uchar4.y uchar4.z uchar4.w].
    replace (255 - 255) with 0 by lia. rewrite !Z.mul_0_r.
    change (Z.shiftr 0 8) with 0. cbn [Z.add].
    rewrite !Z.quot_mul by lia. rewrite !u8cast_byte by assumption.
    repeat split; store_read; apply u8_byte; assumption.
Qed.

Lemma blend_rgb_pixel_extremes_witness :
  value (blend_rgb_pixel (fun _ => 7) 0 (uchar4.make 1 2 3 0)) 0 = 7.
Proof.
  assert (B : forall v, 0 <= v < 256 -> is_byte v) by (intros v Hv; exact Hv).
  exact (proj1 (proj1 (blend_rgb_pixel_extremes (fun _ => 7) 0 (uchar4.make 1 2 3 9)
                         (B 1 ltac:(lia)) (B 2 ltac:(lia)) (B 3 ltac:(lia))
                         (B 7 ltac:(lia)) (B 7 ltac:(lia)) (B 7 ltac:(lia))))).
Defined.

(** ** The NV12 blits *)

Lemma surf2Dwrite_same (v : Z) (s : surf) (x y : Z) : surf2Dwrite v s x y x y = u8 v.
Proof. unfold surf2Dwrite. rewrite !Z.eqb_refl. reflexivity. Qed.

(** The 8-bit mix is a weighted mean with weights that add to 255/256: it
    stays between the smaller input minus one and the larger input, and it
    never returns an input of 1..255 unchanged at the alpha extremes -- a
    foreground of alpha 255 is written one level darker, and under a
    foreground of alpha 0 the destination itself loses one level. *)
Theorem mix8_bounds (fg a dst : Z) :
  is_byte fg -> is_byte a -> is_byte dst ->
  Z.min fg dst - 1 <= mix8 fg a dst <= Z.max fg dst
  /\ is_byte (mix8 fg a dst)
  /\ mix8 fg 255 dst = Z.max (fg - 1) 0
  /\ mix8 fg 0 dst = Z.max (dst - 1) 0.
Proof.
  unfold is_byte, mix8. intros Hf Ha Hd.
  assert (Hend : forall v, 0 <= v < 256 -> Z.shiftr (v * 255) 8 = Z.max (v - 1) 0).
  { intros v Hv. destruct (Z.eq_dec v 0) as [-> | Hne]; [reflexivity|].
    rewrite (shiftr8_eq (v * 255) (v - 1) (256 - v)) by lia. lia. }
  assert (Hmain : Z.min fg dst - 1 <= Z.shiftr (fg * a + (255 - a) * dst) 8 <= Z.max fg dst).
  { rewrite Z.shiftr_div_pow2 by lia. change (2 ^ 8) with 256.
    pose proof (Z.div_mod (fg * a + (255 - a) * dst) 256 ltac:(lia)) as E.
    pose proof (Z.mod_pos_bound (fg * a + (255 - a) * dst) 256 ltac:(lia)) as B.
    assert (fg * a + (255 - a) * dst <= 255 * Z.max fg dst) by nia.
    assert (255 * Z.min fg dst <= fg * a + (255 - a) * dst) by nia.
    split; lia. }
  assert (Hnn : 0 <= Z.shiftr (fg * a + (255 - a) * dst) 8)
    by (apply Z.shiftr_nonneg; nia).
  split; [exact Hmain|]. split; [lia|]. split.
  - replace (fg * 255 + (255 - 255) * dst) with (fg * 255) by lia. apply Hend. lia.
  - replace (fg * 0 + (255 - 0) * dst) with (dst * 255) by lia. apply Hend. lia.
Qed.

Lemma mix8_bounds_witness : mix8 200 255 17 = Z.max (200 - 1) 0.
Proof.
  assert (B : forall v, 0 <= v < 256 -> is_byte v) by (intros v Hv; exact Hv).
  exact (proj1 (proj2 (proj2 (mix8_bounds 200 255 17
                                (B 200 ltac:(lia)) (B 255 ltac:(lia)) (B 17 ltac:(lia)))))).
Defined.

(** Block-linear NV12 blit of a quad whose four pixels share the chroma
    (u, v) and the alpha [a > 0]: nothing divides by zero, each luma sample
    becomes the 8-bit mix of the pixel's luma with the destination, and the
    shared U and V samples become the mix of u and of v with the
    destination -- the alpha-weighted mean of equal values is that value. *)
Theorem BlendingPixel_BlockLinearNV12_uniform_chroma
    (x y y0 y1 y2 y3 u v a : Z) (img : Image) :
  0 < a <= 255 -> 0 <= u ->  0 <= v ->
  let q := mkQuad (uchar4.make y0 u v a) (uchar4.make y1 u v a)
             (uchar4.make y2 u v a) (uchar4.make y3 u v a) in
  let r := BlendingPixel_BlockLinearNV12 x y q img in
  let luma := surface (image0 img) in
  let chroma := surface (image1 img) in
  div_by_zero r = false
  /\ surface (image0 (value r)) x y = u8 (mix8 y0 a (luma x y))
  /\ surface (image0 (value r)) (x + 1) y = u8 (mix8 y1 a (luma (x + 1) y))
  /\ surface (image0 (value r)) x (y + 1) = u8 (mix8 y2 a (luma x (y + 1)))
  /\ surface (image0 (value r)) (x + 1) (y + 1) = u8 (mix8 y3 a (luma (x + 1) (y + 1)))
  /\ surface (image1 (value r)) x (Z.quot y 2) = u8 (mix8 u a (chroma x (Z.quot y 2)))
  /\ surface (image1 (value r)) (x + 1) (Z.quot y 2)
     = u8 (mix8 v a (chroma (x + 1) (Z.quot y 2))).
Proof.
  intros Ha Hu Hv q r luma chroma.
  assert (Hsum : nv12_alpha_sum q = 4 * a) by (unfold nv12_alpha_sum, q; cbn [color0 color1 color2 color3 uchar4.w]; lia).
  assert (Hmu : nv12_meanu q = Dev u false).
  { unfold nv12_meanu, idiv. rewrite Hsum. unfold q. cbn [color0 color1 color2 color3
      uchar4.y uchar4.w].
    replace (u * a + u * a + u * a + u * a) with (u * (4 * a)) by lia.
    rewrite Z.quot_mul by lia.
    destruct (Z.eqb_spec (4 * a) 0); [lia | reflexivity]. }
  assert (Hmv : nv12_meanv q = Dev v false).
  { unfold nv12_meanv, idiv. rewrite Hsum. unfold q. cbn [color0 color1 color2 color3
      uchar4.z uchar4.w].
    replace (v * a + v * a + v * a + v * a) with (v * (4 * a)) by lia.
    rewrite Z.quot_mul by lia.
    destruct (Z.eqb_spec (4 * a) 0); [lia | reflexivity]. }
  assert (Hshift : Z.shiftr (nv12_alpha_sum q) 2 = a).
  { rewrite Hsum, Z.shiftr_div_pow2 by lia. change (2 ^ 2) with 4.
    rewrite Z.mul_comm. apply Z.div_mul. lia. }
  unfold r, BlendingPixel_BlockLinearNV12. rewrite Hmu, Hmv. unfold bind, ret.
  cbn [value div_by_zero orb]. rewrite Hshift.
  unfold set_surface. cbn [image0 image1 surface].
  rewrite ?Z.add_0_r. unfold nv12_luma, surf2Dread, q.
  cbn [color0 color1 color2 color3 uchar4.x uchar4.w].
  fold luma chroma.
  split; [reflexivity|].
  repeat split.
  - rewrite !surf2Dwrite_other by lia. apply surf2Dwrite_same.
  - rewrite !surf2Dwrite_other by lia. apply surf2Dwrite_same.
  - rewrite !surf2Dwrite_other by lia. apply surf2Dwrite_same.
  - apply surf2Dwrite_same.
  - rewrite !surf2Dwrite_other by lia. rewrite surf2Dwrite_same.
    unfold mix8, surf2Dread. f_equal. f_equal. lia.
  - rewrite surf2Dwrite_same. unfold mix8, surf2Dread. f_equal. f_equal. lia.
Qed.

Lemma BlendingPixel_BlockLinearNV12_uniform_chroma_witness :
  div_by_zero
    (BlendingPixel_BlockLinearNV12 0 0
       (mkQuad (uchar4.make 1 90 100 128) (uchar4.make 2 90 100 128)
          (uchar4.make 3 90 100 128) (uchar4.make 4 90 100 128))
       Scenario.black_opaque) = false.
Proof.
  exact (proj1 (BlendingPixel_BlockLinearNV12_uniform_chroma 0 0 1 2 3 4 90 100 128
                  Scenario.black_opaque ltac:(lia) ltac:(lia) ltac:(lia))).
Defined.

(** The luma blit of the NV12 formats is a weighted mean with weights that
    add to 255/256: the result is a byte between the smaller input minus
    one and the larger input, and at the alpha extremes it is one level
    below the foreground (alpha 255) or below the destination (alpha 0),
    unless that one is 0 already. *)
Theorem nv12_luma_bounds (c : uchar4.t) (img_y : Z) :
  is_byte (uchar4.x c) -> is_byte (uchar4.w c) -> is_byte img_y ->
  Z.min (uchar4.x c) img_y - 1 <= nv12_luma c img_y <= Z.max (uchar4.x c) img_y
  /\ is_byte (nv12_luma c img_y)
  /\ (uchar4.w c = 255 -> nv12_luma c img_y = Z.max (uchar4.x c - 1) 0)
  /\ (uchar4.w c = 0 -> nv12_luma c img_y = Z.max (img_y - 1) 0).
Proof.
  intros Hx Hw Hy.
  destruct (mix8_bounds (uchar4.x c) (uchar4.w c) img_y Hx Hw Hy) as (B & I & _).
  change (nv12_luma c img_y) with (mix8 (uchar4.x c) (uchar4.w c) img_y).
  split; [exact B|]. split; [exact I|]. split; intros E; rewrite E.
  - apply (mix8_bounds (uchar4.x c) 255 img_y); unfold is_byte in *; lia.
  - apply (mix8_bounds (uchar4.x c) 0 img_y); unfold is_byte in *; lia.
Qed.

Lemma nv12_luma_bounds_witness :
  is_byte (nv12_luma (uchar4.make 200 0 0 128) 17).
Proof.
  assert (B : forall v, 0 <= v < 256 -> is_byte v) by (intros v Hv; exact Hv).
  exact (proj1 (proj2 (nv12_luma_bounds (uchar4.make 200 0 0 128) 17
                         (B 200 ltac:(lia)) (B 128 ltac:(lia)) (B 17 ltac:(lia))))).
Defined.

(** ** Multisampled rectangle edges *)

Lemma range_In (n k : Z) : 0 <= k < n -> In k (range n).
Proof.
  intros Hk. unfold range. apply in_map_iff. exists (Z.to_nat k). split; [lia|].
  apply in_seq. lia.
Qed.

Lemma In_range (n k : Z) : In k (range n) -> 0 <= k < n.
Proof.
  unfold range. intros H. apply in_map_iff in H. destruct H as (i & <- & Hi).
  apply in_seq in Hi. lia.
Qed.

(** The conversion chain int -> float -> times 0.25f -> unsigned char of
    the coverage alpha is exact: it is the integer quotient by 4. *)
Lemma msaa_alpha_quarter (a n : Z) :
  is_byte a -> 0 <= n <= 4 ->
  F32.to_uchar (F32.of_int (a * n) * F32.quarter)%f32 = a * n / 4.
Proof.
  intros Ha Hn.
  assert (T : forallb (fun a => forallb (fun n =>
                F32.to_uchar (F32.of_int (a * n) * F32.quarter)%f32 =? a * n / 4)
                (range 5)) (range 256) = true) by (vm_compute; reflexivity).
  rewrite forallb_forall in T. specialize (T a (range_In 256 a Ha)).
  rewrite forallb_forall in T. specialize (T n (range_In 5 n ltac:(lia))).
  apply Z.eqb_eq. exact T.
Qed.

(** Multisampling of a rectangle edge.  [internal_msaa4x] hits a pixel as
    soon as one of its four sub-samples is inside the quad and gives it the
    alpha [a * n / 4] for [n] samples inside; [external_msaa4x] hits it as
    soon as one sample is outside and gives it [a * (4 - n) / 4], except
    that a pixel wholly outside keeps the alpha it came with. *)
Theorem msaa4x_alpha (ix iy ax ay bx by_ cx cy dx dy : F32.float) (a alpha : Z) :
  is_byte a ->
  let n := samples_inside ix iy ax ay bx by_ cx cy dx dy in
  internal_msaa4x ix iy ax ay bx by_ cx cy dx dy a alpha
  = (if n =? 0 then (false, alpha) else (true, a * n / 4))
  /\ external_msaa4x ix iy ax ay bx by_ cx cy dx dy a alpha
     = (if n =? 4 then (false, alpha)
        else if n =? 0 then (true, alpha) else (true, a * (4 - n) / 4)).
Proof.
  intros Ha n. unfold n, samples_inside, internal_msaa4x, external_msaa4x.
  destruct (inbox_single_pixel (ix - F32.quarter)%f32 (iy - F32.quarter)%f32 _ _ _ _ _ _ _ _);
  destruct (inbox_single_pixel (ix + F32.quarter)%f32 (iy - F32.quarter)%f32 _ _ _ _ _ _ _ _);
  destruct (inbox_single_pixel (ix + F32.quarter)%f32 (iy + F32.quarter)%f32 _ _ _ _ _ _ _ _);
  destruct (inbox_single_pixel (ix - F32.quarter)%f32 (iy + F32.quarter)%f32 _ _ _ _ _ _ _ _);
  cbn [b2z negb orb andb Z.add Z.eqb Pos.add Pos.succ Pos.eqb Z.sub Z.opp Z.pos_sub
       Pos.pred_double Z.double Z.succ_double Z.pred_double];
  rewrite ?msaa_alpha_quarter by (assumption || lia);
  split; reflexivity.
Qed.

Lemma msaa4x_alpha_witness :
  internal_msaa4x (F32.of_int 0) (F32.of_int 0)
    (F32.of_int (-1)) (F32.of_int (-1)) (F32.of_int (-1)) (F32.of_int 5)
    (F32.of_int 5) (F32.of_int 5) (F32.of_int 5) (F32.of_int (-1)) 200 0
  = (true, 200 * 4 / 4).
Proof.
  exact (proj1 (msaa4x_alpha (F32.of_int 0) (F32.of_int 0)
    (F32.of_int (-1)) (F32.of_int (-1)) (F32.of_int (-1)) (F32.of_int 5)
    (F32.of_int 5) (F32.of_int 5) (F32.of_int 5) (F32.of_int (-1)) 200 0
    ltac:(unfold is_byte; lia))).
Defined.

(** ** Image stamps *)

(** A quad that misses a box has none of its four pixels in it. *)
Lemma quad_misses_box_pixel (ix iy left top right bottom i j : Z) :
  0 <= i <= 1 -> 0 <= j <= 1 ->
  quad_misses_box ix iy left top right bottom = true ->
  pixel_in_box (ix + i) (iy + j) left top right bottom = false.
Proof.
  intros Hi Hj Hmiss. unfold quad_misses_box in Hmiss. unfold pixel_in_box.
  apply negb_false_iff. apply orb_true_iff in Hmiss.
  destruct Hmiss as [Hmiss | Hmiss];
    [apply orb_true_iff in Hmiss; destruct Hmiss as [Hmiss | Hmiss];
     [apply orb_true_iff in Hmiss; destruct Hmiss as [Hmiss | Hmiss] |] |].
  - apply Z.ltb_lt in Hmiss.
    replace (ix + i <? left) with true by (symmetry; apply Z.ltb_lt; lia).
    reflexivity.
  - apply Z.ltb_lt in Hmiss.
    replace (iy + j <? top) with true by (symmetry; apply Z.ltb_lt; lia).
    rewrite orb_true_r. reflexivity.
  - rewrite Z.geb_leb in Hmiss. apply Z.leb_le in Hmiss.
    replace (ix + i >=? right) with true
      by (symmetry; rewrite Z.geb_leb; apply Z.leb_le; lia).
    rewrite orb_true_r. reflexivity.
  - rewrite Z.geb_leb in Hmiss. apply Z.leb_le in Hmiss.
    replace (iy + j >=? bottom) with true
      by (symmetry; rewrite Z.geb_leb; apply Z.leb_le; lia).
    rewrite orb_true_r. reflexivity.
Qed.

Lemma pixel_in_box_spec (px py left top right bottom : Z) :
  pixel_in_box px py left top right bottom = true
  <-> left <= px < right /\ top <= py < bottom.
Proof.
  unfold pixel_in_box. rewrite negb_true_iff, !orb_false_iff, !Z.ltb_ge, !Z.geb_leb, !Z.leb_gt.
  lia.
Qed.

(** Row-major addressing of the RGBA stamp: the pixel (ix + i, iy + j) of
    a quad takes the four bytes of the source pixel it lies on, and keeps
    its accumulator when it is outside the stamp. *)
Lemma render_rgba_src_get (ix iy left top right bottom : Z) (d_src : mem) (color : Quad)
    (i j : Z) :
  0 <= i <= 1 -> 0 <= j <= 1 ->
  quad_get (render_rgba_src ix iy left top right bottom d_src color) (j * 2 + i)
  = if pixel_in_box (ix + i) (iy + j) left top right bottom
    then
      let o := ((iy + j - top) * (right - left) + (ix + i - left)) * 4 in
      make_uchar4 (d_src o) (d_src (o + 1)) (d_src (o + 2)) (d_src (o + 3))
    else quad_get color (j * 2 + i).
Proof.
  intros Hi Hj. unfold render_rgba_src.
  destruct (quad_misses_box ix iy left top right bottom) eqn:Hmiss.
  - rewrite (quad_misses_box_pixel _ _ _ _ _ _ i j Hi Hj Hmiss). reflexivity.
  - cbv zeta.
    assert (Hij : (i = 0 \/ i = 1) /\ (j = 0 \/ j = 1)) by lia.
    destruct Hij as [[-> | ->] [-> | ->]];
      [ change (0 * 2 + 0) with 0 | change (1 * 2 + 0) with 2
      | change (0 * 2 + 1) with 1 | change (1 * 2 + 1) with 3 ];
      unfold quad_get; cbn [Z.eqb Pos.eqb color0 color1 color2 color3];
      rewrite ?Z.add_0_r;
      destruct (pixel_in_box _ _ left top right bottom); try reflexivity;
      f_equal; f_equal; lia.
Qed.

(** An RGBA stamp built by its constructor puts the source pixel (u, v),
    stored row-major with four bytes per pixel, on the image pixel
    (left + u, top + v), where (left, top) is the centre minus half the
    size rounded up.  The quad of such a pixel is never culled by the
    bounding-box test, and the pixel of the accumulator is overwritten,
    whatever the earlier commands drew there. *)
Theorem RGBASource_stamp_placement
    (have_rotate_msaa : bool) (text_locations : Z -> TextLocation.t) (text_bitmap : mem)
    (text_bitmap_width : Z) (line_location_base : Z -> Z)
    (unset : H.t) (cx cy width height : Z) (d_src : mem)
    (ix iy i j : Z) (st : ThreadState) :
  0 <= width -> 0 <= height ->
  0 <= i <= 1 -> 0 <= j <= 1 ->
  let u := ix + i - (cx - Z.quot (width + 1) 2) in
  let v := iy + j - (cy - Z.quot (height + 1) 2) in
  0 <= u < width -> 0 <= v < height ->
  let o := (v * width + u) * 4 in
  let r := command_body have_rotate_msaa text_locations text_bitmap text_bitmap_width
             line_location_base ix iy st
             (RGBASource (RGBASourceCommand_ctor unset cx cy width height d_src)) in
  div_by_zero r = false
  /\ itext_line (value r) = itext_line st
  /\ quad_get (context_color (value r)) (j * 2 + i)
     = make_uchar4 (d_src o) (d_src (o + 1)) (d_src (o + 2)) (d_src (o + 3)).
Proof.
  intros Hw Hh Hi Hj u v Hu Hv o r.
  pose proof (Z.quot_div_nonneg (width + 1) 2 ltac:(lia) ltac:(lia)) as Qw.
  pose proof (Z.quot_div_nonneg (height + 1) 2 ltac:(lia) ltac:(lia)) as Qh.
  assert (Bw : width <= 2 * Z.quot (width + 1) 2)
    by (rewrite Qw; pose proof (Z.div_mod (width + 1) 2 ltac:(lia));
        pose proof (Z.mod_pos_bound (width + 1) 2 ltac:(lia)); lia).
  assert (Bh : height <= 2 * Z.quot (height + 1) 2)
    by (rewrite Qh; pose proof (Z.div_mod (height + 1) 2 ltac:(lia));
        pose proof (Z.mod_pos_bound (height + 1) 2 ltac:(lia)); lia).
  assert (Hin : outside_bounding ix iy
                  (header (RGBASource (RGBASourceCommand_ctor unset cx cy width height d_src)))
                = false).
  { unfold outside_bounding, header, RGBASourceCommand_ctor.
    cbn [RGBASourceCommand.base H.bounding_left H.bounding_right H.bounding_top
         H.bounding_bottom].
    unfold u, v in *.
    rewrite !orb_false_iff. repeat split.
    - apply Z.ltb_ge. lia.
    - rewrite Z.gtb_ltb. apply Z.ltb_ge. lia.
    - apply Z.ltb_ge. lia.
    - rewrite Z.gtb_ltb. apply Z.ltb_ge. lia. }
  unfold r, command_body. rewrite Hin.
  unfold RGBASourceCommand_ctor.
  cbn [RGBASourceCommand.base RGBASourceCommand.width RGBASourceCommand.height
       RGBASourceCommand.d_src H.bounding_left H.bounding_top ret value div_by_zero
       itext_line context_color].
  split; [reflexivity|]. split; [reflexivity|].
  rewrite render_rgba_src_get by assumption.
  replace (pixel_in_box (ix + i) (iy + j) (cx - Z.quot (width + 1) 2)
             (cy - Z.quot (height + 1) 2) (cx - Z.quot (width + 1) 2 + width)
             (cy - Z.quot (height + 1) 2 + height)) with true.
  - cbv beta iota zeta. unfold o, u, v. f_equal; f_equal; ring.
  - symmetry. apply pixel_in_box_spec. unfold u, v in *. lia.
Qed.

Lemma RGBASource_stamp_placement_witness :
  quad_get
    (context_color
       (value (command_body false (fun _ => Scenario.glyph 1 1) Scenario.atlas 1
                 Scenario.line_base 2 2 (mkThread 0 zero_quad)
                 (RGBASource (RGBASourceCommand_ctor (H.make 0 0 0 0 0 0 0 0) 4 4 4 4
                                (fun a => a)))))) (1 * 2 + 1)
  = make_uchar4 20 21 22 23.
Proof.
  exact (proj2 (proj2 (RGBASource_stamp_placement false (fun _ => Scenario.glyph 1 1)
    Scenario.atlas 1 Scenario.line_base (H.make 0 0 0 0 0 0 0 0) 4 4 4 4 (fun a => a)
    2 2 1 1 (mkThread 0 zero_quad)
    ltac:(lia) ltac:(lia) ltac:(lia) ltac:(lia)
    ltac:(vm_compute; split; [discriminate | reflexivity])
    ltac:(vm_compute; split; [discriminate | reflexivity])))).
Defined.



Lemma render_pl_nv12_src_get
    (ix iy left top right bottom : Z) (d_src0 d_src1 : mem) (color : Quad)
    (trans_0 trans_1 trans_2 trans_a : Z) (i j : Z) :
  0 <= i <= 1 -> 0 <= j <= 1 ->
  quad_get (render_pl_nv12_src ix iy left top right bottom d_src0 d_src1 color
              trans_0 trans_1 trans_2 trans_a) (j * 2 + i)
  = if pixel_in_box (ix + i) (iy + j) left top right bottom
    then
      chroma_key
        (make_uchar4 (d_src0 ((iy + j - top) * (right - left) + (ix + i - left)))
           (d_src1 (Z.shiftr (iy - top) 1 * (right - left) + (ix - left)))
           (d_src1 (Z.shiftr (iy - top) 1 * (right - left) + (ix - left) + 1)) 0)
        trans_0 trans_1 trans_2 trans_a
    else quad_get color (j * 2 + i).
Proof.
  intros Hi Hj. unfold render_pl_nv12_src.
  destruct (quad_misses_box ix iy left top right bottom) eqn:Hmiss.
  - rewrite (quad_misses_box_pixel _ _ _ _ _ _ i j Hi Hj Hmiss). reflexivity.
  - cbv zeta.
    assert (Hij : (i = 0 \/ i = 1) /\ (j = 0 \/ j = 1)) by lia.
    destruct Hij as [[-> | ->] [-> | ->]];
      [ change (0 * 2 + 0) with 0 | change (1 * 2 + 0) with 2
      | change (0 * 2 + 1) with 1 | change (1 * 2 + 1) with 3 ];
      unfold quad_get; cbn [Z.eqb Pos.eqb color0 color1 color2 color3];
      rewrite ?Z.add_0_r;
      destruct (pixel_in_box _ _ left top right bottom); try reflexivity;
      f_equal; f_equal; f_equal; ring.
Qed.

(** A pitch-linear NV12 stamp built by its constructor, on a quad that is
    aligned with the stamp (the offsets of the quad origin from the stamp's
    left and top are even): the image pixel (left + u, top + v) takes the
    luma sample (u, v) of the source and the interleaved chroma pair that
    NV12 assigns to it, at the columns [2 * (u / 2)] and [2 * (u / 2) + 1] of
    the chroma row [v / 2]; its alpha is 0 when the three samples equal the
    transparent colour (c0, c1, c2) of the command, and c3 otherwise. *)
Theorem NV12Source_stamp_placement
    (have_rotate_msaa : bool) (text_locations : Z -> TextLocation.t) (text_bitmap : mem)
    (text_bitmap_width : Z) (line_location_base : Z -> Z)
    (cx cy width height : Z) (d_src0 d_src1 : handle) (c0 c1 c2 c3 : Z)
    (ix iy i j : Z) (st : ThreadState) :
  0 <= width -> 0 <= height ->
  0 <= i <= 1 -> 0 <= j <= 1 ->
  let u := ix + i - (cx - Z.quot (width + 1) 2) in
  let v := iy + j - (cy - Z.quot (height + 1) 2) in
  0 <= u < width -> 0 <= v < height ->
  (u - i) mod 2 = 0 -> (v - j) mod 2 = 0 ->
  let r := command_body have_rotate_msaa text_locations text_bitmap text_bitmap_width
             line_location_base ix iy st
             (NV12Source (NV12SourceCommand_ctor cx cy width height d_src0 d_src1 false
                            c0 c1 c2 c3)) in
  div_by_zero r = false
  /\ quad_get (context_color (value r)) (j * 2 + i)
     = chroma_key
         (make_uchar4 (linear d_src0 (v * width + u))
            (linear d_src1 (v / 2 * width + 2 * (u / 2)))
            (linear d_src1 (v / 2 * width + 2 * (u / 2) + 1)) 0)
         c0 c1 c2 c3.
Proof.
  intros Hw Hh Hi Hj u v Hu Hv Pu Pv r.
  pose proof (Z.quot_div_nonneg (width + 1) 2 ltac:(lia) ltac:(lia)) as Qw.
  pose proof (Z.quot_div_nonneg (height + 1) 2 ltac:(lia) ltac:(lia)) as Qh.
  assert (Bw : width <= 2 * Z.quot (width + 1) 2)
    by (rewrite Qw; pose proof (Z.div_mod (width + 1) 2 ltac:(lia));
        pose proof (Z.mod_pos_bound (width + 1) 2 ltac:(lia)); lia).
  assert (Bh : height <= 2 * Z.quot (height + 1) 2)
    by (rewrite Qh; pose proof (Z.div_mod (height + 1) 2 ltac:(lia));
        pose proof (Z.mod_pos_bound (height + 1) 2 ltac:(lia)); lia).
  assert (Hin : outside_bounding ix iy
                  (header (NV12Source (NV12SourceCommand_ctor cx cy width height
                                         d_src0 d_src1 false c0 c1 c2 c3)))
                = false).
  { unfold outside_bounding, header, NV12SourceCommand_ctor.
    cbn [NV12SourceCommand.base H.bounding_left H.bounding_right H.bounding_top
         H.bounding_bottom].
    unfold u, v in *.
    rewrite !orb_false_iff. repeat split.
    - apply Z.ltb_ge. lia.
    - rewrite Z.gtb_ltb. apply Z.ltb_ge. lia.
    - apply Z.ltb_ge. lia.
    - rewrite Z.gtb_ltb. apply Z.ltb_ge. lia. }
  unfold r, command_body. rewrite Hin.
  unfold NV12SourceCommand_ctor.
  cbn [NV12SourceCommand.base NV12SourceCommand.width NV12SourceCommand.height
       NV12SourceCommand.d_src0 NV12SourceCommand.d_src1 NV12SourceCommand.block_linear
       H.bounding_left H.bounding_top H.c0 H.c1 H.c2 H.c3 ret value div_by_zero
       itext_line context_color].
  split; [reflexivity|].
  rewrite render_pl_nv12_src_get by assumption.
  replace (pixel_in_box (ix + i) (iy + j) (cx - Z.quot (width + 1) 2)
             (cy - Z.quot (height + 1) 2) (cx - Z.quot (width + 1) 2 + width)
             (cy - Z.quot (height + 1) 2 + height)) with true
    by (symmetry; apply pixel_in_box_spec; unfold u, v in *; lia).
  assert (Eu : ix - (cx - Z.quot (width + 1) 2) = 2 * (u / 2)).
  { pose proof (Z.div_mod (u - i) 2 ltac:(lia)) as D.
    assert (u / 2 = (u - i) / 2).
    { symmetry. apply Z.div_unique with (r := i). lia.
      pose proof (Z.div_mod (u - i) 2 ltac:(lia)). lia. }
    unfold u in *. lia. }
  assert (Ev : Z.shiftr (iy - (cy - Z.quot (height + 1) 2)) 1 = v / 2).
  { rewrite Z.shiftr_div_pow2 by lia. change (2 ^ 1) with 2.
    replace (iy - (cy - Z.quot (height + 1) 2)) with (v - j) by (unfold v; lia).
    apply Z.div_unique with (r := j). lia.
    pose proof (Z.div_mod (v - j) 2 ltac:(lia)). lia. }
  rewrite Ev, Eu.
  f_equal; f_equal; f_equal; unfold u, v; ring.
Qed.

Lemma NV12Source_stamp_placement_witness :
  quad_get
    (context_color
       (value (command_body false (fun _ => Scenario.glyph 1 1) Scenario.atlas 1
                 Scenario.line_base 2 2 (mkThread 0 zero_quad)
                 (NV12Source (NV12SourceCommand_ctor 4 4 4 4
                                (mkHandle (fun a => a) Scenario.no_surface)
                                (mkHandle (fun a => a + 100) Scenario.no_surface)
                                false 5 100 101 255))))) (1 * 2 + 1)
  = uchar4.make 5 100 101 0.
Proof.
  exact (proj2 (NV12Source_stamp_placement false (fun _ => Scenario.glyph 1 1)
    Scenario.atlas 1 Scenario.line_base 4 4 4 4
    (mkHandle (fun a => a) Scenario.no_surface)
    (mkHandle (fun a => a + 100) Scenario.no_surface) 5 100 101 255
    2 2 1 1 (mkThread 0 zero_quad)
    ltac:(lia) ltac:(lia) ltac:(lia) ltac:(lia)
    ltac:(vm_compute; split; [discriminate | reflexivity])
    ltac:(vm_compute; split; [discriminate | reflexivity])
    ltac:(reflexivity) ltac:(reflexivity))).
Defined.

(** ** The bounding box of a circle *)

(** The bounding box that the constructor of a circle computes and the
    outer radius that the kernel computes agree: for a filled circle or a
    stroke (thickness at least -1) the box is the square of half-side
    [outer + 2] around the centre, so that no quad holding a pixel within
    [outer + 2] of the centre, in both coordinates, is culled by the
    bounding-box test of the command loop. *)
Theorem CircleCommand_bounding_box
    (cx cy radius thickness c0 c1 c2 c3 : Z) (ix iy i j : Z) :
  -1 <= thickness ->
  let p := CircleCommand_ctor cx cy radius thickness c0 c1 c2 c3 in
  let outer := snd (circle_bounds p) in
  (H.bounding_left (CircleCommand.base p) = cx - (outer + 2)
   /\ H.bounding_right (CircleCommand.base p) = cx + (outer + 2)
   /\ H.bounding_top (CircleCommand.base p) = cy - (outer + 2)
   /\ H.bounding_bottom (CircleCommand.base p) = cy + (outer + 2))
  /\ (0 <= i <= 1 -> 0 <= j <= 1 ->
      Z.abs (ix + i - cx) <= outer + 2 -> Z.abs (iy + j - cy) <= outer + 2 ->
      outside_bounding ix iy (header (Circle p)) = false).
Proof.
  intros Ht p outer.
  assert (Eo : outer = radius + Z.quot (thickness + 1) 2).
  { unfold outer, circle_bounds, p, CircleCommand_ctor.
    cbn [CircleCommand.radius CircleCommand.thickness].
    destruct (Z.ltb_spec thickness 0) as [Hneg | Hpos].
    - assert (thickness = -1) by lia. subst thickness. cbn [snd Z.eqb Pos.eqb].
      change (Z.quot (-1 + 1) 2) with 0. lia.
    - cbn [snd].
      rewrite !Z.quot_div_nonneg by lia.
      pose proof (Z.div_mod thickness 2 ltac:(lia)).
      pose proof (Z.mod_pos_bound thickness 2 ltac:(lia)).
      pose proof (Z.div_mod (thickness + 1) 2 ltac:(lia)).
      pose proof (Z.mod_pos_bound (thickness + 1) 2 ltac:(lia)).
      lia. }
  assert (Hbox : H.bounding_left (CircleCommand.base p) = cx - (outer + 2)
                 /\ H.bounding_right (CircleCommand.base p) = cx + (outer + 2)
                 /\ H.bounding_top (CircleCommand.base p) = cy - (outer + 2)
                 /\ H.bounding_bottom (CircleCommand.base p) = cy + (outer + 2)).
  { rewrite Eo. unfold p, CircleCommand_ctor.
    cbn [CircleCommand.base H.bounding_left H.bounding_right H.bounding_top
         H.bounding_bottom]. lia. }
  split; [exact Hbox|].
  intros Hi Hj Hx Hy. destruct Hbox as (Bl & Br & Bt & Bb).
  unfold outside_bounding, header. rewrite Bl, Br, Bt, Bb.
  rewrite !orb_false_iff. repeat split.
  - apply Z.ltb_ge. lia.
  - rewrite Z.gtb_ltb. apply Z.ltb_ge. lia.
  - apply Z.ltb_ge. lia.
  - rewrite Z.gtb_ltb. apply Z.ltb_ge. lia.
Qed.

Lemma CircleCommand_bounding_box_witness :
  H.bounding_left (CircleCommand.base (CircleCommand_ctor 10 10 5 3 1 2 3 255))
  = 10 - (snd (circle_bounds (CircleCommand_ctor 10 10 5 3 1 2 3 255)) + 2).
Proof.
  exact (proj1 (proj1 (CircleCommand_bounding_box 10 10 5 3 1 2 3 255 0 0 0 0
                         ltac:(lia)))).
Defined.

(** ** Threads that no command reaches *)

Lemma bind_ret_l {A B : Type} (a : A) (f : A -> dev B) : bind (ret a) f = f a.
Proof. unfold bind, ret. cbn [value div_by_zero orb]. destruct (f a); reflexivity. Qed.

Lemma div_by_zero_bind {A B : Type} (m : dev A) (f : A -> dev B) :
  div_by_zero (bind m f) = div_by_zero m || div_by_zero (f (value m)).
Proof. reflexivity. Qed.

Lemma command_stream_In (commands : Z -> Command) (num_command : Z) (c : Command) :
  In c (command_stream commands num_command) ->
  exists i, 0 <= i < num_command /\ c = commands i.
Proof.
  unfold command_stream. intros Hc. apply in_map_iff in Hc.
  destruct Hc as (k & <- & Hk). apply in_seq in Hk.
  exists (Z.of_nat k). split; [lia | reflexivity].
Qed.

Lemma command_loop_culled
    (have_rotate_msaa : bool) (text_locations : Z -> TextLocation.t) (text_bitmap : mem)
    (text_bitmap_width : Z) (line_location_base : Z -> Z) (ix iy : Z)
    (cmds : list Command) (st : ThreadState) :
  (forall c, In c cmds -> outside_bounding ix iy (header c) = true) ->
  command_loop have_rotate_msaa text_locations text_bitmap text_bitmap_width
    line_location_base ix iy cmds st
  = ret (mkThread (itext_line st + count_text cmds) (context_color st)).
Proof.
  revert st. induction cmds as [| c rest IH]; intros st Hout.
  - cbn [command_loop count_text]. rewrite Z.add_0_r. destruct st; reflexivity.
  - cbn [command_loop count_text]. unfold command_body.
    rewrite (Hout c (or_introl eq_refl)). rewrite bind_ret_l.
    rewrite IH by (intros c' Hc'; apply Hout; right; exact Hc').
    destruct (is_text c); cbn [itext_line context_color]; f_equal; f_equal; lia.
Qed.

(** A thread whose quad lies outside the bounding box of every command of
    the stream writes nothing: the surface is returned as it was, and
    nothing is divided. *)
Theorem render_elements_kernel_culled
    (format : ImageFormat) (have_rotate_msaa : bool) (bx by_ : Z)
    (text_locations : Z -> TextLocation.t) (text_bitmap : mem) (text_bitmap_width : Z)
    (line_location_base : Z -> Z) (commands : Z -> Command) (num_command : Z)
    (image_width stride image_height : Z)
    (blockDim blockIdx threadIdx : dim3.t) (img : Image) :
  let ix := quad_origin (dim3.x blockDim) (dim3.x blockIdx) (dim3.x threadIdx) bx in
  let iy := quad_origin (dim3.y blockDim) (dim3.y blockIdx) (dim3.y threadIdx) by_ in
  (forall i, 0 <= i < num_command ->
             outside_bounding ix iy (header (commands i)) = true) ->
  render_elements_kernel format have_rotate_msaa bx by_
    text_locations text_bitmap text_bitmap_width line_location_base
    commands num_command image_width stride image_height
    blockDim blockIdx threadIdx img
  = ret img.
Proof.
  intros ix iy Hout. unfold render_elements_kernel. fold ix iy. cbv zeta.
  destruct ((ix <? 0) || (iy <? 0) || (ix >=? image_width - 1)
            || (iy >=? image_height - 1)); [reflexivity|].
  rewrite command_loop_culled.
  - rewrite bind_ret_l. reflexivity.
  - intros c Hc. apply command_stream_In in Hc. destruct Hc as (i & Hi & ->).
    apply Hout. exact Hi.
Qed.

Lemma render_elements_kernel_culled_witness :
  render_elements_kernel RGBA false 0 0
    (fun _ => Scenario.glyph 1 1) Scenario.atlas 1 Scenario.line_base
    (fun _ => Circle (CircleCommand_ctor 100 100 5 (-1) 1 2 3 255)) 3 64 256 64
    (dim3.make 16 8) (dim3.make 0 0) (dim3.make 1 1) Scenario.black_opaque
  = ret Scenario.black_opaque.
Proof.
  apply render_elements_kernel_culled. intros i Hi. vm_compute. reflexivity.
Defined.

(** ** Where no division by zero can occur *)

Lemma u8_is_byte (v : Z) : is_byte (u8 v).
Proof. unfold is_byte, u8. apply Z.mod_pos_bound. lia. Qed.

Lemma u8cast_is_byte (v : Z) : is_byte (u8cast v).
Proof.
  unfold u8cast, is_byte.
  destruct (Z.ltb_spec v 0); [lia|].
  destruct (v >? 255) eqn:E; [lia | rewrite Z.gtb_ltb in E; apply Z.ltb_ge in E; lia].
Qed.

Lemma blend_single_color_wf (color : uchar4.t) (c0 c1 c2 a : Z) :
  color_wf (value (blend_single_color color c0 c1 c2 a)).
Proof.
  unfold blend_single_color, bind, idiv, ret, color_wf.
  cbn [value uchar4.x uchar4.y uchar4.z uchar4.w].
  repeat split; try apply u8cast_is_byte; apply u8_is_byte.
Qed.

Lemma blend_when_safe (color : uchar4.t) (c0 c1 c2 a : Z) :
  color_wf color -> 0 <= a <= 255 ->
  div_by_zero (blend_when (negb (a =? 0)) color c0 c1 c2 a) = false
  /\ color_wf (value (blend_when (negb (a =? 0)) color c0 c1 c2 a)).
Proof.
  intros Hc Ha. unfold blend_when. destruct (Z.eqb_spec a 0) as [-> | Hne]; cbn [negb].
  - split; [reflexivity | exact Hc].
  - split; [| apply blend_single_color_wf].
    apply blend_single_color_guarded; [| lia].
    destruct Hc as (_ & _ & _ & Hw). unfold is_byte in Hw. lia.
Qed.

(** Four guarded blends, one for each pixel of the quad. *)
Lemma guarded_quad_safe {B : Type} (k : Quad -> B)
    (color : Quad) (c0 c1 c2 a0 a1 a2 a3 : Z) :
  quad_wf color ->
  0 <= a0 <= 255 -> 0 <= a1 <= 255 -> 0 <= a2 <= 255 -> 0 <= a3 <= 255 ->
  let r :=
    q0 <- blend_when (negb (a0 =? 0)) (color0 color) c0 c1 c2 a0 ;;
    q1 <- blend_when (negb (a1 =? 0)) (color1 color) c0 c1 c2 a1 ;;
    q2 <- blend_when (negb (a2 =? 0)) (color2 color) c0 c1 c2 a2 ;;
    q3 <- blend_when (negb (a3 =? 0)) (color3 color) c0 c1 c2 a3 ;;
    ret (k (mkQuad q0 q1 q2 q3)) in
  div_by_zero r = false /\ exists q, value r = k q /\ quad_wf q.
Proof.
  intros (W0 & W1 & W2 & W3) A0 A1 A2 A3 r.
  destruct (blend_when_safe (color0 color) c0 c1 c2 a0 W0 A0) as (D0 & V0).
  destruct (blend_when_safe (color1 color) c0 c1 c2 a1 W1 A1) as (D1 & V1).
  destruct (blend_when_safe (color2 color) c0 c1 c2 a2 W2 A2) as (D2 & V2).
  destruct (blend_when_safe (color3 color) c0 c1 c2 a3 W3 A3) as (D3 & V3).
  unfold r. split.
  - rewrite !div_by_zero_bind, D0, D1, D2, D3. reflexivity.
  - rewrite !value_bind. eexists. split; [reflexivity|].
    exact (conj V0 (conj V1 (conj V2 V3))).
Qed.

Lemma text_alpha_range
    (location : TextLocation.t) (text_bitmap : mem) (text_bitmap_width : Z)
    (gx gy col bfx a : Z) :
  0 <= text_alpha location text_bitmap text_bitmap_width gx gy col bfx a <= 255.
Proof.
  unfold text_alpha.
  destruct ((gx <? 0) || (gy <? 0) || (gx >=? TextLocation.text_w location)
            || (gy >=? TextLocation.text_h location)); [lia|].
  pose proof (u8_is_byte (Z.shiftr (text_bitmap (gy * text_bitmap_width + bfx + col) * a) 8)) as B.
  unfold is_byte in B. lia.
Qed.

Lemma interpolation_fn_range (x : F32.float) (a b padding origin_alpha : Z) :
  is_byte origin_alpha -> 0 <= interpolation_fn x a b padding origin_alpha <= 255.
Proof.
  intros Ho. unfold interpolation_fn, F32.to_uchar. unfold is_byte in Ho.
  repeat match goal with
         | |- context [if ?c then _ else _] => destruct c
         end;
    try lia;
    match goal with
    | |- 0 <= u8 ?v <= 255 => pose proof (u8_is_byte v) as B; unfold is_byte in B; lia
    end.
Qed.

Lemma render_text_safe
    (location : TextLocation.t) (text_bitmap : mem) (text_bitmap_width : Z)
    (ix iy : Z) (color : Quad) (c0 c1 c2 a : Z) :
  quad_wf color ->
  let r := render_text location text_bitmap text_bitmap_width ix iy color c0 c1 c2 a in
  div_by_zero r = false /\ quad_wf (snd (value r)).
Proof.
  intros Hc r. unfold r, render_text.
  destruct ((ix + 1 <? TextLocation.image_x location)
            || (iy + 1 <? TextLocation.image_y location)
            || (ix >=? TextLocation.image_x location + TextLocation.text_w location)
            || (iy >=? TextLocation.image_y location + TextLocation.text_h location)).
  - split; [reflexivity | exact Hc].
  - cbv zeta.
    match goal with
    | |- div_by_zero ?m = false /\ _ =>
        destruct (guarded_quad_safe (fun q => (true, q)) color c0 c1 c2
                    (text_alpha location text_bitmap text_bitmap_width
                       (ix - TextLocation.image_x location)
                       (iy - TextLocation.image_y location) 0
                       (ix - TextLocation.image_x location + TextLocation.text_x location) a)
                    (text_alpha location text_bitmap text_bitmap_width
                       (ix - TextLocation.image_x location + 1)
                       (iy - TextLocation.image_y location) 1
                       (ix - TextLocation.image_x location + TextLocation.text_x location) a)
                    (text_alpha location text_bitmap text_bitmap_width
                       (ix - TextLocation.image_x location)
                       (iy - TextLocation.image_y location + 1) 0
                       (ix - TextLocation.image_x location + TextLocation.text_x location) a)
                    (text_alpha location text_bitmap text_bitmap_width
                       (ix - TextLocation.image_x location + 1)
                       (iy - TextLocation.image_y location + 1) 1
                       (ix - TextLocation.image_x location + TextLocation.text_x location) a)
                    Hc (text_alpha_range _ _ _ _ _ _ _ _) (text_alpha_range _ _ _ _ _ _ _ _)
                    (text_alpha_range _ _ _ _ _ _ _ _) (text_alpha_range _ _ _ _ _ _ _ _))
          as (D & q & V & W)
    end.
    split; [exact D|]. rewrite V. exact W.
Qed.

Lemma text_line_loop_safe
    (text_locations : Z -> TextLocation.t) (text_bitmap : mem) (text_bitmap_width : Z)
    (n : nat) (j ix iy : Z) (pcommand : H.t) (color : Quad) :
  quad_wf color ->
  let r := text_line_loop text_locations text_bitmap text_bitmap_width n j ix iy
             pcommand color in
  div_by_zero r = false /\ quad_wf (value r).
Proof.
  revert j color. induction n as [| n IH]; intros j color Hc.
  - split; [reflexivity | exact Hc].
  - cbn [text_line_loop].
    destruct (render_text_safe (text_locations j) text_bitmap text_bitmap_width ix iy color
                (H.c0 pcommand) (H.c1 pcommand) (H.c2 pcommand) (H.c3 pcommand) Hc)
      as (D & W).
    cbv zeta. rewrite div_by_zero_bind, value_bind, D.
    destruct (fst (value (render_text (text_locations j) text_bitmap text_bitmap_width
                            ix iy color (H.c0 pcommand) (H.c1 pcommand) (H.c2 pcommand)
                            (H.c3 pcommand)))).
    + split; [reflexivity | exact W].
    + apply (IH (j + 1) _ W).
Qed.

Lemma render_circle_interpolation_safe (p : CircleCommand.t) (ix iy : Z) (color : Quad) :
  is_byte (H.c3 (CircleCommand.base p)) -> quad_wf color ->
  let r := render_circle_interpolation p ix iy color in
  div_by_zero r = false /\ quad_wf (value r).
Proof.
  intros H3 Hc r. unfold r, render_circle_interpolation. cbv zeta.
  destruct (guarded_quad_safe (fun q => q) color
              (H.c0 (CircleCommand.base p)) (H.c1 (CircleCommand.base p))
              (H.c2 (CircleCommand.base p))
              (circle_alpha p ix iy) (circle_alpha p (ix + 1) iy)
              (circle_alpha p ix (iy + 1)) (circle_alpha p (ix + 1) (iy + 1)) Hc
              (interpolation_fn_range _ _ _ _ _ H3) (interpolation_fn_range _ _ _ _ _ H3)
              (interpolation_fn_range _ _ _ _ _ H3) (interpolation_fn_range _ _ _ _ _ H3))
    as (D & q & V & W).
  split; [exact D|]. rewrite V. exact W.
Qed.

Lemma make_uchar4_wf (x y z w : Z) : color_wf (make_uchar4 x y z w).
Proof. unfold make_uchar4, color_wf. cbn. repeat split; apply u8_is_byte. Qed.

Lemma chroma_key_wf (x y z w trans_0 trans_1 trans_2 trans_a : Z) :
  is_byte trans_a ->
  color_wf (chroma_key (make_uchar4 x y z w) trans_0 trans_1 trans_2 trans_a).
Proof.
  intros Ha. unfold chroma_key, make_uchar4, color_wf.
  cbn [uchar4.x uchar4.y uchar4.z uchar4.w].
  repeat split; try apply u8_is_byte.
  - destruct ((u8 x =? trans_0) && (u8 y =? trans_1) && (u8 z =? trans_2));
      unfold is_byte in *; lia.
  - destruct ((u8 x =? trans_0) && (u8 y =? trans_1) && (u8 z =? trans_2));
      unfold is_byte in *; lia.
Qed.

Lemma render_rgba_src_wf (ix iy left top right bottom : Z) (d_src : mem) (color : Quad) :
  quad_wf color -> quad_wf (render_rgba_src ix iy left top right bottom d_src color).
Proof.
  intros Hc. unfold render_rgba_src.
  destruct (quad_misses_box ix iy left top right bottom); [exact Hc|].
  destruct Hc as (W0 & W1 & W2 & W3). cbv zeta. unfold quad_wf.
  cbn [color0 color1 color2 color3].
  (split; [| split; [| split]]);
    match goal with
    | |- color_wf (if ?c then _ else _) =>
        destruct c; [apply make_uchar4_wf | assumption]
    end.
Qed.

Lemma render_bl_nv12_src_wf
    (ix iy left top right bottom : Z) (d_src0 d_src1 : surf) (color : Quad)
    (trans_0 trans_1 trans_2 trans_a : Z) :
  is_byte trans_a -> quad_wf color ->
  quad_wf (render_bl_nv12_src ix iy left top right bottom d_src0 d_src1 color
             trans_0 trans_1 trans_2 trans_a).
Proof.
  intros Ha Hc. unfold render_bl_nv12_src.
  destruct (quad_misses_box ix iy left top right bottom); [exact Hc|].
  destruct Hc as (W0 & W1 & W2 & W3). cbv zeta. unfold quad_wf.
  cbn [color0 color1 color2 color3].
  (split; [| split; [| split]]);
    match goal with
    | |- color_wf (if ?c then _ else _) =>
        destruct c; [apply chroma_key_wf; exact Ha | assumption]
    end.
Qed.

Lemma render_pl_nv12_src_wf
    (ix iy left top right bottom : Z) (d_src0 d_src1 : mem) (color : Quad)
    (trans_0 trans_1 trans_2 trans_a : Z) :
  is_byte trans_a -> quad_wf color ->
  quad_wf (render_pl_nv12_src ix iy left top right bottom d_src0 d_src1 color
             trans_0 trans_1 trans_2 trans_a).
Proof.
  intros Ha Hc. unfold render_pl_nv12_src.
  destruct (quad_misses_box ix iy left top right bottom); [exact Hc|].
  destruct Hc as (W0 & W1 & W2 & W3). cbv zeta. unfold quad_wf.
  cbn [color0 color1 color2 color3].
  (split; [| split; [| split]]);
    match goal with
    | |- color_wf (if ?c then _ else _) =>
        destruct c; [apply chroma_key_wf; exact Ha | assumption]
    end.
Qed.

Lemma command_body_safe
    (have_rotate_msaa : bool) (text_locations : Z -> TextLocation.t) (text_bitmap : mem)
    (text_bitmap_width : Z) (line_location_base : Z -> Z) (ix iy : Z)
    (st : ThreadState) (c : Command) :
  guarded_command c = true -> is_byte (H.c3 (header c)) ->
  quad_wf (context_color st) ->
  let r := command_body have_rotate_msaa text_locations text_bitmap text_bitmap_width
             line_location_base ix iy st c in
  div_by_zero r = false /\ quad_wf (context_color (value r)).
Proof.
  intros Hg H3 Hc r. unfold r, command_body.
  destruct (outside_bounding ix iy (header c)).
  - split; [reflexivity|]. destruct (is_text c); exact Hc.
  - destruct c as [p | p | p | p | p | p | p]; try discriminate Hg.
    + match goal with
      | |- context [text_line_loop ?tl ?tb ?tbw ?n ?j ?x ?y ?pc ?col] =>
          destruct (text_line_loop_safe tl tb tbw n j x y pc col Hc) as (D & W)
      end.
      cbv zeta. rewrite div_by_zero_bind, value_bind, D. split; [reflexivity | exact W].
    + destruct (render_circle_interpolation_safe p ix iy (context_color st) H3 Hc)
        as (D & W).
      rewrite div_by_zero_bind, value_bind, D. split; [reflexivity | exact W].
    + split; [reflexivity|]. cbn [value context_color]. apply render_rgba_src_wf. exact Hc.
    + split; [reflexivity|]. cbn [value context_color].
      destruct (NV12SourceCommand.block_linear p);
        [apply render_bl_nv12_src_wf | apply render_pl_nv12_src_wf]; assumption.
    + split; [reflexivity | exact Hc].
Qed.

Lemma command_loop_safe
    (have_rotate_msaa : bool) (text_locations : Z -> TextLocation.t) (text_bitmap : mem)
    (text_bitmap_width : Z) (line_location_base : Z -> Z) (ix iy : Z)
    (cmds : list Command) (st : ThreadState) :
  (forall c, In c cmds -> guarded_command c = true /\ is_byte (H.c3 (header c))) ->
  quad_wf (context_color st) ->
  let r := command_loop have_rotate_msaa text_locations text_bitmap text_bitmap_width
             line_location_base ix iy cmds st in
  div_by_zero r = false /\ quad_wf (context_color (value r)).
Proof.
  revert st. induction cmds as [| c rest IH]; intros st Hall Hc.
  - split; [reflexivity | exact Hc].
  - cbn [command_loop]. cbv zeta.
    destruct (Hall c (or_introl eq_refl)) as (Hg & H3).
    destruct (command_body_safe have_rotate_msaa text_locations text_bitmap
                text_bitmap_width line_location_base ix iy st c Hg H3 Hc) as (D & W).
    rewrite div_by_zero_bind, value_bind, D.
    apply IH; [| exact W]. intros c' Hc'. apply Hall. right. exact Hc'.
Qed.

Lemma for_loop_safe {S : Type} (body : Z -> S -> dev S) (n : nat) (i : Z) (s : S) :
  (forall k s', div_by_zero (body k s') = false) ->
  div_by_zero (for_loop n i body s) = false.
Proof.
  intros Hb. revert i s. induction n as [| n IH]; intros i s.
  - reflexivity.
  - cbn [for_loop]. rewrite div_by_zero_bind, Hb, IH. reflexivity.
Qed.

Lemma quad_get_wf (q : Quad) (k : Z) : quad_wf q -> color_wf (quad_get q k).
Proof.
  intros (W0 & W1 & W2 & W3). unfold quad_get.
  destruct (k =? 0); [assumption|]. destruct (k =? 1); [assumption|].
  destruct (k =? 2); assumption.
Qed.

Lemma BlendingPixel_safe (format : ImageFormat) (x y stride : Z) (plot_colors : Quad)
    (img : Image) :
  format <> RGBA -> quad_wf plot_colors ->
  (uchar4.w (color0 plot_colors) =? 0) && (uchar4.w (color1 plot_colors) =? 0)
  && (uchar4.w (color2 plot_colors) =? 0) && (uchar4.w (color3 plot_colors) =? 0) = false ->
  div_by_zero (BlendingPixel x y stride plot_colors format img) = false.
Proof.
  intros Hf Hq Hsome.
  assert (Hmean : div_by_zero (nv12_meanu plot_colors) = false
                  /\ div_by_zero (nv12_meanv plot_colors) = false).
  { destruct Hq as ((_ & _ & _ & W0) & (_ & _ & _ & W1) & (_ & _ & _ & W2)
                    & (_ & _ & _ & W3)).
    unfold is_byte in *. apply nv12_mean_no_division_by_zero; (lia || exact Hsome). }
  destruct Hmean as (Du & Dv).
  destruct format; [| contradiction Hf; reflexivity | |].
  - unfold BlendingPixel, BlendingPixel_RGB. rewrite div_by_zero_bind.
    rewrite for_loop_safe; [reflexivity|].
    intros i m. apply for_loop_safe. intros j m'.
    apply blend_rgb_pixel_no_division_by_zero.
    apply (quad_get_wf plot_colors (i * 2 + j) Hq).
  - unfold BlendingPixel, BlendingPixel_BlockLinearNV12. cbv zeta.
    rewrite !div_by_zero_bind, Du, Dv. reflexivity.
  - unfold BlendingPixel, BlendingPixel_PitchLinearNV12. cbv zeta.
    rewrite !div_by_zero_bind, Du, Dv. reflexivity.
Qed.

(** On an RGB or NV12 destination, a thread that runs text, circle and
    stamp commands only never divides by zero: in the accumulator every
    blend of these commands is behind an [if (alpha)] guard, and the final
    blit divides by a quantity that is not zero.  (The rectangle and
    segment paths, and the RGBA blit, are the ones that are not guarded.) *)
Theorem guarded_commands_never_divide_by_zero
    (format : ImageFormat) (have_rotate_msaa : bool) (bx by_ : Z)
    (text_locations : Z -> TextLocation.t) (text_bitmap : mem) (text_bitmap_width : Z)
    (line_location_base : Z -> Z) (commands : Z -> Command) (num_command : Z)
    (image_width stride image_height : Z)
    (blockDim blockIdx threadIdx : dim3.t) (img : Image) :
  format <> RGBA ->
  (forall i, 0 <= i < num_command ->
             guarded_command (commands i) = true
             /\ is_byte (H.c3 (header (commands i)))) ->
  div_by_zero
    (render_elements_kernel format have_rotate_msaa bx by_
       text_locations text_bitmap text_bitmap_width line_location_base
       commands num_command image_width stride image_height
       blockDim blockIdx threadIdx img) = false.
Proof.
  intros Hf Hall. unfold render_elements_kernel. cbv zeta.
  match goal with
  | |- div_by_zero (if ?c then _ else _) = false => destruct c; [reflexivity|]
  end.
  match goal with
  | |- context [command_loop ?m ?tl ?tb ?tbw ?llb ?x ?y ?cs ?st] =>
      destruct (command_loop_safe m tl tb tbw llb x y cs st) as (D & W);
        [ intros c Hc; apply command_stream_In in Hc; destruct Hc as (i & Hi & ->);
          apply Hall; exact Hi
        | repeat split; cbn; lia
        | ]
  end.
  rewrite div_by_zero_bind, D. cbn [orb].
  match goal with
  | |- div_by_zero (if ?c then _ else _) = false => destruct c eqn:Hzero; [reflexivity|]
  end.
  apply BlendingPixel_safe; assumption.
Qed.

Lemma guarded_commands_never_divide_by_zero_witness :
  div_by_zero
    (render_elements_kernel RGB false 0 0
       (fun _ => Scenario.glyph 2 2) Scenario.atlas 2 Scenario.line_base
       (fun _ => Scenario.text_command) 1 2 6 2
       (dim3.make 16 8) (dim3.make 0 0) (dim3.make 0 0) Scenario.black_opaque) = false.
Proof.
  apply guarded_commands_never_divide_by_zero.
  - discriminate.
  - intros i Hi. split; [reflexivity | unfold is_byte; cbn; lia].
Defined.

(** ** Colour conversion of the blur kernel *)

Lemma u8cast_spec (v : Z) :
  (v < 0 /\ u8cast v = 0) \/ (0 <= v <= 255 /\ u8cast v = v) \/ (255 < v /\ u8cast v = 255).
Proof.
  unfold u8cast. destruct (Z.ltb_spec v 0); [left; lia|].
  destruct (v >? 255) eqn:E.
  - rewrite Z.gtb_ltb in E. apply Z.ltb_lt in E. right. right. lia.
  - rewrite Z.gtb_ltb in E. apply Z.ltb_ge in E. right. left. lia.
Qed.

Lemma rgb2yuv_values (r g b : Z) :
  is_byte r -> is_byte g -> is_byte b ->
  16 <= uchar3.x (rgb2yuv r g b) <= 235
  /\ 16 <= uchar3.y (rgb2yuv r g b) <= 240
  /\ 16 <= uchar3.z (rgb2yuv r g b) <= 240
  /\ uchar3.x (rgb2yuv r g b) = (66 * r + 129 * g + 25 * b + 128) / 256 + 16
  /\ uchar3.y (rgb2yuv r g b) = (-38 * r - 74 * g + 112 * b + 128) / 256 + 128
  /\ uchar3.z (rgb2yuv r g b) = (112 * r - 94 * g - 18 * b + 128) / 256 + 128.
Proof.
  unfold is_byte. intros Hr Hg Hb. unfold rgb2yuv. cbn [uchar3.x uchar3.y uchar3.z].
  rewrite !Z.shiftr_div_pow2 by lia. change (2 ^ 8) with 256.
  assert (Y : 0 <= (66 * r + 129 * g + 25 * b + 128) / 256 <= 219)
    by (Z.div_mod_to_equations; lia).
  assert (U : -112 <= (-38 * r - 74 * g + 112 * b + 128) / 256 <= 112)
    by (Z.div_mod_to_equations; lia).
  assert (V : -112 <= (112 * r - 94 * g - 18 * b + 128) / 256 <= 112)
    by (Z.div_mod_to_equations; lia).
  rewrite !u8_byte by (unfold is_byte; lia). lia.
Qed.

(** What [rgb2yuv] stores is in the video range, whatever the colour: Y
    in 16..235, U and V in 16..240. *)
Theorem rgb2yuv_video_range (r g b : Z) :
  is_byte r -> is_byte g -> is_byte b ->
  16 <= uchar3.x (rgb2yuv r g b) <= 235
  /\ 16 <= uchar3.y (rgb2yuv r g b) <= 240
  /\ 16 <= uchar3.z (rgb2yuv r g b) <= 240.
Proof.
  intros Hr Hg Hb.
  destruct (rgb2yuv_values r g b Hr Hg Hb) as (Y & U & V & _).
  split; [exact Y | split; [exact U | exact V]].
Qed.

Lemma rgb2yuv_video_range_witness : 16 <= uchar3.x (rgb2yuv 255 255 255) <= 235.
Proof.
  assert (B : is_byte 255) by (unfold is_byte; lia).
  exact (proj1 (rgb2yuv_video_range 255 255 255 B B B)).
Defined.

(** Converting a colour to YUV and back moves no channel by more than
    three levels: red and green come back within 2, blue within -2 and
    +3. *)
Theorem rgb_yuv_round_trip (r g b : Z) :
  is_byte r -> is_byte g -> is_byte b ->
  let yuv := rgb2yuv r g b in
  let rgb := yuv2rgb (uchar3.x yuv) (uchar3.y yuv) (uchar3.z yuv) in
  -2 <= uchar3.x rgb - r <= 2
  /\ -2 <= uchar3.y rgb - g <= 2
  /\ -2 <= uchar3.z rgb - b <= 3.
Proof.
  intros Hr Hg Hb yuv rgb.
  destruct (rgb2yuv_values r g b Hr Hg Hb) as (Ry & Ru & Rv & Ey & Eu & Ev).
  fold yuv in Ry, Ru, Rv, Ey, Eu, Ev.
  unfold is_byte in *.
  unfold rgb, yuv2rgb. cbn [uchar3.x uchar3.y uchar3.z].
  assert (Emax : max 0 (uchar3.x yuv - 16) = uchar3.x yuv - 16).
  { unfold max. destruct (Z.geb_spec 0 (uchar3.x yuv - 16)); lia. }
  rewrite Emax. rewrite !Z.shiftr_div_pow2 by lia.
  change (Z.shiftl 1 19) with 524288. change (2 ^ 20) with 1048576.
  rewrite Ey, Eu, Ev.
  replace ((66 * r + 129 * g + 25 * b + 128) / 256 + 16 - 16)
    with ((66 * r + 129 * g + 25 * b + 128) / 256) by lia.
  replace ((112 * r - 94 * g - 18 * b + 128) / 256 + 128 - 128)
    with ((112 * r - 94 * g - 18 * b + 128) / 256) by lia.
  replace ((-38 * r - 74 * g + 112 * b + 128) / 256 + 128 - 128)
    with ((-38 * r - 74 * g + 112 * b + 128) / 256) by lia.
  assert (R : -2 <= (1220542 * ((66 * r + 129 * g + 25 * b + 128) / 256)
                     + 1673527 * ((112 * r - 94 * g - 18 * b + 128) / 256)
                     + 524288) / 1048576 - r <= 2)
    by (Z.div_mod_to_equations; lia).
  assert (G : -2 <= (1220542 * ((66 * r + 129 * g + 25 * b + 128) / 256)
                     - 852492 * ((112 * r - 94 * g - 18 * b + 128) / 256)
                     - 409993 * ((-38 * r - 74 * g + 112 * b + 128) / 256)
                     + 524288) / 1048576 - g <= 2)
    by (Z.div_mod_to_equations; lia).
  assert (B : -2 <= (1220542 * ((66 * r + 129 * g + 25 * b + 128) / 256)
                     + 2116026 * ((-38 * r - 74 * g + 112 * b + 128) / 256)
                     + 524288) / 1048576 - b <= 3)
    by (Z.div_mod_to_equations; lia).
  repeat split;
    match goal with
    | |- context [u8cast ?v] => destruct (u8cast_spec v) as [(? & ->) | [(? & ->) | (? & ->)]]
    end; lia.
Qed.

Lemma rgb_yuv_round_trip_witness :
  -2 <= uchar3.z (yuv2rgb (uchar3.x (rgb2yuv 0 0 138)) (uchar3.y (rgb2yuv 0 0 138))
                    (uchar3.z (rgb2yuv 0 0 138))) - 138 <= 3.
Proof.
  assert (B : forall v, 0 <= v < 256 -> is_byte v) by (intros v Hv; exact Hv).
  exact (proj2 (proj2 (rgb_yuv_round_trip 0 0 138
                         (B 0 ltac:(lia)) (B 0 ltac:(lia)) (B 138 ltac:(lia))))).
Defined.

(** Grey is kept exactly.  A pixel of the video range with neutral chroma
    (U = V = 128) decodes to a grey, and encoding that grey gives back the
    same three samples: so the blur, which decodes, averages and encodes,
    does not drift on grey content. *)
Theorem gray_yuv_fixed_point (y : Z) :
  16 <= y <= 235 ->
  let rgb := yuv2rgb y 128 128 in
  uchar3.y rgb = uchar3.x rgb /\ uchar3.z rgb = uchar3.x rgb
  /\ rgb2yuv (uchar3.x rgb) (uchar3.y rgb) (uchar3.z rgb) = uchar3.make y 128 128.
Proof.
  intros Hy rgb.
  assert (Emax : max 0 (y - 16) = y - 16).
  { unfold max. destruct (Z.geb_spec 0 (y - 16)); lia. }
  assert (Ex : uchar3.x rgb = (1220542 * (y - 16) + 524288) / 1048576
               /\ 0 <= (1220542 * (y - 16) + 524288) / 1048576 <= 255).
  { assert (Bq : 0 <= (1220542 * (y - 16) + 524288) / 1048576 <= 255)
      by (Z.div_mod_to_equations; lia).
    split; [| exact Bq].
    unfold rgb, yuv2rgb. cbn [uchar3.x]. rewrite Emax.
    rewrite Z.shiftr_div_pow2 by lia.
    change (Z.shiftl 1 19) with 524288. change (2 ^ 20) with 1048576.
    replace (1220542 * (y - 16) + 1673527 * (128 - 128) + 524288)
      with (1220542 * (y - 16) + 524288) by lia.
    apply u8cast_byte. unfold is_byte. lia. }
  destruct Ex as (Ex & Bx).
  assert (Ey : uchar3.y rgb = uchar3.x rgb).
  { unfold rgb, yuv2rgb. cbn [uchar3.x uchar3.y]. repeat (f_equal; try lia). }
  assert (Ez : uchar3.z rgb = uchar3.x rgb).
  { unfold rgb, yuv2rgb. cbn [uchar3.x uchar3.z]. repeat (f_equal; try lia). }
  split; [exact Ey|]. split; [exact Ez|].
  rewrite Ey, Ez. set (c := uchar3.x rgb) in *.
  unfold rgb2yuv. rewrite !Z.shiftr_div_pow2 by lia. change (2 ^ 8) with 256.
  replace (-38 * c - 74 * c + 112 * c + 128) with 128 by lia.
  replace (112 * c - 94 * c - 18 * c + 128) with 128 by lia.
  change (128 / 256) with 0.
  assert (Eq : (66 * c + 129 * c + 25 * c + 128) / 256 = y - 16)
    by (rewrite Ex; Z.div_mod_to_equations; lia).
  rewrite Eq. rewrite !u8_byte by (unfold is_byte; lia).
  f_equal. lia.
Qed.

Lemma gray_yuv_fixed_point_witness :
  rgb2yuv (uchar3.x (yuv2rgb 100 128 128)) (uchar3.y (yuv2rgb 100 128 128))
    (uchar3.z (yuv2rgb 100 128 128))
  = uchar3.make 100 128 128.
Proof.
  exact (proj2 (proj2 (gray_yuv_fixed_point 100 ltac:(lia)))).
Defined.

(** ** The mean of the blur window *)

Lemma for_loop_inv {S : Type} (P : Z -> S -> Prop) (body : Z -> S -> dev S)
    (n : nat) (i : Z) (s : S) :
  P i s ->
  (forall k s', i <= k < i + Z.of_nat n -> P k s' ->
                P (k + 1) (value (body k s')) /\ div_by_zero (body k s') = false) ->
  P (i + Z.of_nat n) (value (for_loop n i body s))
  /\ div_by_zero (for_loop n i body s) = false.
Proof.
  revert i s. induction n as [| n IH]; intros i s Hs Hstep.
  - cbn [for_loop ret value div_by_zero]. rewrite Z.add_0_r. split; [exact Hs | reflexivity].
  - cbn [for_loop]. rewrite value_bind, div_by_zero_bind.
    destruct (Hstep i s ltac:(lia) Hs) as (Hs' & D). rewrite D. cbn [orb].
    replace (i + Z.of_nat (Datatypes.S n)) with (i + 1 + Z.of_nat n) by lia.
    apply IH; [exact Hs'|].
    intros k s' Hk. apply Hstep. lia.
Qed.

(** The window sum of the thread (ix, iy): the number of tile cells that
    were added is between 1 and 1024, nothing is divided, and over a tile
    of one colour the three sums are that many times the colour, without
    wrapping. *)
Lemma blur_window_sum (crop : tile) (c : uchar3.t) (ix iy lo : Z) (cnt : nat) :
  0 <= ix < 32 -> 0 <= iy < 32 -> lo <= 0 < lo + Z.of_nat cnt ->
  is_byte (uchar3.x c) -> is_byte (uchar3.y c) -> is_byte (uchar3.z c) ->
  let r :=
    for_loop cnt lo (fun i acc =>
      for_loop cnt lo (fun j acc =>
        let u := i + iy in
        let v := j + ix in
        if (u >=? 0) && (u <? 32) && (v >=? 0) && (v <? 32) then
          let c := crop u v in
          let '(color, n) := acc in
          ret (uchar3.make (uint (uchar3.x color + uchar3.x c))
                 (uint (uchar3.y color + uchar3.y c))
                 (uint (uchar3.z color + uchar3.z c)), n + 1)
        else ret acc) acc)
      (uchar3.make 0 0 0, 0) in
  div_by_zero r = false
  /\ 1 <= snd (value r) <= 1024
  /\ ((forall u v, 0 <= u < 32 -> 0 <= v < 32 -> crop u v = c) ->
      fst (value r)
      = uchar3.make (snd (value r) * uchar3.x c) (snd (value r) * uchar3.y c)
          (snd (value r) * uchar3.z c)).
Proof.
  unfold is_byte. intros Hix Hiy Hlo Bx By Bz. cbv zeta.
  set (sum_of := fun (s : uchar3.t * Z) =>
         (forall u v, 0 <= u < 32 -> 0 <= v < 32 -> crop u v = c) ->
         fst s = uchar3.make (snd s * uchar3.x c) (snd s * uchar3.y c)
                   (snd s * uchar3.z c)).
  set (row := fun (i : Z) (s0 : uchar3.t * Z) (j : Z) (s : uchar3.t * Z) =>
         snd s0 <= snd s
         /\ snd s <= snd s0 + (if (i + iy >=? 0) && (i + iy <? 32)
                               then tile_below (j + ix) else 0)
         /\ (i = 0 -> 0 < j -> snd s0 + 1 <= snd s)
         /\ sum_of s).
  set (rows := fun (i : Z) (s : uchar3.t * Z) =>
         0 <= snd s <= 32 * tile_below (i + iy)
         /\ (0 < i -> 1 <= snd s)
         /\ sum_of s).
  match goal with
  | |- div_by_zero (for_loop cnt lo ?body ?s) = false /\ _ =>
      destruct (for_loop_inv rows body cnt lo s) as ((Hn & Hpos & Hsum) & D)
  end.
  - unfold rows, sum_of, tile_below. cbn [fst snd]. repeat split; lia.
  - intros i s0 Hi (Hn0 & Hpos0 & Hsum0).
    match goal with
    | |- rows _ (value (for_loop cnt lo ?body ?s)) /\ _ =>
        destruct (for_loop_inv (row i s0) body cnt lo s) as ((R1 & R2 & R3 & R4) & D)
    end.
    + unfold row. split; [lia|]. split.
      * destruct ((i + iy >=? 0) && (i + iy <? 32)); unfold tile_below; lia.
      * split; [lia | exact Hsum0].
    + intros j s Hj (R1 & R2 & R3 & R4). cbv zeta. unfold row.
      destruct ((i + iy >=? 0) && (i + iy <? 32)) eqn:Hrow; cbn [andb].
      * apply andb_true_iff in Hrow. destruct Hrow as (U0 & U1).
        rewrite Z.geb_leb in U0. apply Z.leb_le in U0. apply Z.ltb_lt in U1.
        destruct (Z.geb_spec (j + ix) 0) as [V0 | V0];
          destruct (Z.ltb_spec (j + ix) 32) as [V1 | V1];
          cbn [andb];
          try (split; [| reflexivity]; cbn [value ret];
               unfold tile_below in *; repeat split; try lia; exact R4).
        destruct s as (color, n). cbn [snd fst] in *.
        split; [| reflexivity]. cbn [value ret snd fst].
        unfold tile_below in *.
        split; [lia|]. split; [lia|]. split; [lia|].
        unfold sum_of in *. cbn [fst snd] in *. intros Hu.
        specialize (R4 Hu). specialize (Hsum0 Hu).
        rewrite R4, (Hu (i + iy) (j + ix)) by lia.
        cbn [uchar3.x uchar3.y uchar3.z].
        assert (Hn1 : 0 <= n < 1024) by lia.
        unfold uint. change (2 ^ 32) with 4294967296.
        rewrite !Z.mod_small by nia.
        f_equal; ring.
      * assert (Hi0 : i <> 0).
        { intros ->. cbn [Z.add] in Hrow.
          destruct (Z.geb_spec iy 0); destruct (Z.ltb_spec iy 32);
            cbn [andb] in Hrow; try discriminate; lia. }
        split; [| reflexivity]. cbn [value ret].
        split; [lia|]. split; [lia|]. split; [lia | exact R4].
    + split; [| exact D]. unfold rows.
      destruct ((i + iy >=? 0) && (i + iy <? 32)) eqn:Hrow.
      * apply andb_true_iff in Hrow. destruct Hrow as (U0 & U1).
        rewrite Z.geb_leb in U0. apply Z.leb_le in U0. apply Z.ltb_lt in U1.
        unfold tile_below in *. split; [lia|]. split; [lia | exact R4].
      * assert (Hi0 : i <> 0).
        { intros ->. cbn [Z.add] in Hrow.
          destruct (Z.geb_spec iy 0); destruct (Z.ltb_spec iy 32);
            cbn [andb] in Hrow; try discriminate; lia. }
        unfold tile_below in *. split; [lia|]. split; [lia | exact R4].
  - split; [exact D|]. unfold tile_below in *. split; [lia|]. exact Hsum.
Qed.

Lemma blur_window_bounds (k : Z) :
  -1 <= k -> Z.quot (- k) 2 <= 0 <= Z.quot k 2.
Proof.
  intros Hk. split.
  - destruct (Z.eq_dec k (-1)) as [-> | Hne]; [vm_compute; discriminate|].
    rewrite Z.quot_opp_l by lia. rewrite Z.quot_div_nonneg by lia.
    pose proof (Z.div_pos k 2 ltac:(lia) ltac:(lia)). lia.
  - destruct (Z.eq_dec k (-1)) as [-> | Hne]; [vm_compute; discriminate|].
    rewrite Z.quot_div_nonneg by lia. apply Z.div_pos; lia.
Qed.

(** The mean of the blur window divides by the number of tile cells in
    the window.  For a kernel size of -1 or more the window holds the
    thread's own cell, so the divisor is not zero; for a kernel size of -2
    or less the loops run no iteration, and every thread divides by zero. *)
Theorem blur_mean_division (box : BoxBlurCommand.t) (crop out : tile) (ix iy : Z) :
  0 <= ix < 32 -> 0 <= iy < 32 ->
  div_by_zero (blur_mean box crop (ix, iy) out)
  = (BoxBlurCommand.kernel_size box <=? -2).
Proof.
  intros Hix Hiy. unfold blur_mean. cbn [fst snd].
  destruct (Z.leb_spec (BoxBlurCommand.kernel_size box) (-2)) as [Hneg | Hpos].
  - assert (Hcnt : Z.to_nat (Z.quot (BoxBlurCommand.kernel_size box) 2
                             - Z.quot (- BoxBlurCommand.kernel_size box) 2 + 1) = O).
    { rewrite Z.quot_opp_l by lia.
      assert (Z.quot (BoxBlurCommand.kernel_size box) 2 <= -1).
      { replace (BoxBlurCommand.kernel_size box)
          with (- (- BoxBlurCommand.kernel_size box)) by lia.
        rewrite Z.quot_opp_l by lia. rewrite Z.quot_div_nonneg by lia.
        pose proof (Z.div_le_lower_bound (- BoxBlurCommand.kernel_size box) 2 1
                      ltac:(lia) ltac:(lia)). lia. }
      lia. }
    rewrite Hcnt. reflexivity.
  - pose proof (blur_window_bounds (BoxBlurCommand.kernel_size box) ltac:(lia)) as Hw.
    match goal with
    | |- div_by_zero (bind (for_loop ?cnt ?lo _ _) _) = false =>
        destruct (blur_window_sum crop (uchar3.make 0 0 0) ix iy lo cnt Hix Hiy)
          as (D & Hn & _);
          [ lia | unfold is_byte; cbn; lia | unfold is_byte; cbn; lia
          | unfold is_byte; cbn; lia | ]
    end.
    cbv zeta in D, Hn. rewrite div_by_zero_bind, D. cbn [orb].
    match goal with
    | |- context [value ?m] => destruct (value m) as (color, n)
    end.
    cbn [snd] in Hn. rewrite !div_by_zero_bind. cbn [idiv div_by_zero value ret].
    destruct (Z.eqb_spec n 0); [lia | reflexivity].
Qed.

(** Over a staged tile of one colour the mean is that colour: the sums do
    not wrap, and the division is exact. *)
Theorem blur_mean_uniform (box : BoxBlurCommand.t) (crop out : tile) (c : uchar3.t)
    (ix iy : Z) :
  -1 <= BoxBlurCommand.kernel_size box ->
  0 <= ix < 32 -> 0 <= iy < 32 ->
  is_byte (uchar3.x c) -> is_byte (uchar3.y c) -> is_byte (uchar3.z c) ->
  (forall u v, 0 <= u < 32 -> 0 <= v < 32 -> crop u v = c) ->
  let r := blur_mean box crop (ix, iy) out in
  div_by_zero r = false
  /\ value r iy ix = c
  /\ (forall u v, (u, v) <> (iy, ix) -> value r u v = out u v).
Proof.
  intros Hk Hix Hiy Bx By Bz Hu r.
  pose proof (blur_window_bounds (BoxBlurCommand.kernel_size box) Hk) as Hw.
  unfold r, blur_mean. cbn [fst snd].
  match goal with
  | |- div_by_zero (bind (for_loop ?cnt ?lo _ _) _) = false /\ _ =>
      destruct (blur_window_sum crop c ix iy lo cnt Hix Hiy ltac:(lia) Bx By Bz)
        as (D & Hn & Hsum)
  end.
  cbv zeta in D, Hn, Hsum. specialize (Hsum Hu).
  rewrite div_by_zero_bind, value_bind, D. cbn [orb].
  match goal with
  | |- context [value ?m] => destruct (value m) as (color, n)
  end.
  cbn [fst snd] in Hn, Hsum. subst color.
  rewrite !div_by_zero_bind, !value_bind.
  cbn [idiv div_by_zero value ret uchar3.x uchar3.y uchar3.z].
  replace (n =? 0) with false by (symmetry; apply Z.eqb_neq; lia). cbn [orb].
  split; [reflexivity|].
  rewrite !(Z.mul_comm n), !Z.quot_mul by lia.
  unfold make_uchar3. rewrite !u8_byte by assumption.
  split.
  - unfold tile_set. rewrite !Z.eqb_refl. destruct c; reflexivity.
  - intros u v Hne. unfold tile_set.
    destruct (Z.eqb_spec u iy) as [-> |]; [| reflexivity].
    destruct (Z.eqb_spec v ix) as [-> |]; [contradiction Hne; reflexivity | reflexivity].
Qed.

Lemma blur_mean_division_witness :
  div_by_zero
    (blur_mean (BoxBlurCommand.make (H.make 0 0 8 8 0 0 0 0) (-2))
       (fun _ _ => uchar3.make 1 2 3) (3, 4) (fun _ _ => uchar3.make 1 2 3))
  = (-2 <=? -2).
Proof.
  exact (blur_mean_division (BoxBlurCommand.make (H.make 0 0 8 8 0 0 0 0) (-2))
           (fun _ _ => uchar3.make 1 2 3) (fun _ _ => uchar3.make 1 2 3) 3 4
           ltac:(lia) ltac:(lia)).
Defined.

Lemma blur_mean_uniform_witness :
  value (blur_mean (BoxBlurCommand.make (H.make 0 0 8 8 0 0 0 0) 7)
           (fun _ _ => uchar3.make 1 2 3) (3, 4) (fun _ _ => uchar3.make 0 0 0)) 4 3
  = uchar3.make 1 2 3.
Proof.
  assert (B : forall v, 0 <= v < 256 -> is_byte v) by (intros v Hv; exact Hv).
  exact (proj1 (proj2 (blur_mean_uniform (BoxBlurCommand.make (H.make 0 0 8 8 0 0 0 0) 7)
           (fun _ _ => uchar3.make 1 2 3) (fun _ _ => uchar3.make 0 0 0)
           (uchar3.make 1 2 3) 3 4
           ltac:(cbn; lia) ltac:(lia) ltac:(lia)
           (B 1 ltac:(lia)) (B 2 ltac:(lia)) (B 3 ltac:(lia))
           (fun u v _ _ => eq_refl)))).
Defined.

(** ** What the blur does not write *)

Lemma binary_round_aux_sign_clear (m e : Z) (l : SpecFloat.location) :
  sign_clear (binary_round_aux F32.prec F32.emax false m e l).
Proof.
  unfold binary_round_aux.
  destruct (shr_fexp F32.prec F32.emax m e l) as [mrs' e'].
  destruct (shr_fexp F32.prec F32.emax _ e' loc_Exact) as [mrs'' e''].
  destruct (shr_m mrs''); [reflexivity | | exact I].
  destruct (e'' <=? F32.emax - F32.prec); reflexivity.
Qed.

Lemma of_int_sign_clear (n : Z) : 0 <= n -> sign_clear (F32.of_int n).
Proof.
  intros Hn. unfold F32.of_int, binary_normalize.
  destruct n as [| p | p]; [reflexivity | | lia].
  unfold binary_round.
  destruct (shl_align p 0 (fexp F32.prec F32.emax (Zpos (digits2_pos p) + 0))) as [mz ez].
  apply binary_round_aux_sign_clear.
Qed.

Lemma mul_sign_clear (x y : F32.float) :
  sign_clear x -> sign_clear y -> sign_clear (F32.mul x y).
Proof.
  unfold F32.mul, SFmul.
  destruct x as [sx | sx | | sx mx ex]; destruct y as [sy | sy | | sy my ey];
    cbn [sign_clear]; intros Hx Hy; subst; cbn [xorb sign_clear]; try reflexivity.
  apply binary_round_aux_sign_clear.
Qed.

Lemma div_sign_clear (x y : F32.float) :
  sign_clear x -> sign_clear y -> sign_clear (F32.div x y).
Proof.
  unfold F32.div, SFdiv.
  destruct x as [sx | sx | | sx mx ex]; destruct y as [sy | sy | | sy my ey];
    cbn [sign_clear]; intros Hx Hy; subst; cbn [xorb sign_clear]; try reflexivity.
  destruct (SFdiv_core_binary F32.prec F32.emax (Zpos mx) ex (Zpos my) ey) as [[mz ez] lz].
  apply binary_round_aux_sign_clear.
Qed.

Lemma to_int_sign_clear (v : F32.float) : sign_clear v -> 0 <= F32.to_int v.
Proof.
  assert (Hlim : forall t, 0 <= t -> 0 <= limit t INT_MIN INT_MAX).
  { intros t Ht. unfold limit.
    assert (INT_MIN < 0 < INT_MAX) by (vm_compute; split; reflexivity).
    destruct (Z.ltb_spec t INT_MIN); [lia|].
    destruct (t >? INT_MAX); lia. }
  unfold F32.to_int. destruct v as [s | s | | s m e]; cbn [sign_clear]; intros Hs; subst.
  - apply Hlim. reflexivity.
  - vm_compute. discriminate.
  - lia.
  - apply Hlim. unfold F32.trunc. cbn [cond_Zopp].
    destruct (Z.ltb_spec e 0) as [He | He].
    + apply Z.div_pos; [lia|]. apply Z.pow_pos_nonneg; lia.
    + pose proof (Z.pow_nonneg 2 e ltac:(lia)). nia.
Qed.

Lemma foldM_inv {A S : Type} (P : S -> Prop) (f : A -> S -> dev S) (l : list A) (s : S) :
  P s ->
  (forall a s', In a l -> P s' -> P (value (f a s'))) ->
  P (value (foldM f l s)).
Proof.
  revert s. induction l as [| a rest IH]; intros s Hs Hstep.
  - exact Hs.
  - cbn [foldM]. rewrite value_bind. apply IH.
    + apply Hstep; [left; reflexivity | exact Hs].
    + intros a' s' Ha'. apply Hstep. right. exact Ha'.
Qed.

Lemma block_threads_In (ix iy : Z) :
  In (ix, iy) block_threads -> 0 <= ix < 32 /\ 0 <= iy < 32.
Proof.
  unfold block_threads. intros Hin. apply in_flat_map in Hin.
  destruct Hin as (y & Hy & Hin). apply in_map_iff in Hin.
  destruct Hin as (x & E & Hx). inversion E; subst.
  apply In_range in Hx. apply In_range in Hy. lia.
Qed.

(** The write-back of one thread changes a byte only through one of its
    [save_pixel] calls: at a pixel (fx, fy) of the image in the thread's
    patch of the box, with a tile column below 32. *)
Lemma blur_write_frame
    (format : ImageFormat) (image_width stride image_height : Z)
    (box : BoxBlurCommand.t) (crop : tile) (ix iy : Z) (img : Image) (l : location) :
  (forall fx fy sx pix img',
      0 <= fx - (ix * Z.quot (boxwidth box + 31) 32
                 + H.bounding_left (BoxBlurCommand.base box))
        < Z.quot (boxwidth box + 31) 32 ->
      0 <= fy - (iy * Z.quot (boxheight box + 31) 32
                 + H.bounding_top (BoxBlurCommand.base box))
        < Z.quot (boxheight box + 31) 32 ->
      0 <= fx < image_width -> 0 <= fy < image_height ->
      0 <= sx < 32 ->
      read_location
        (save_pixel format img' fx fy (int_of_uint (round_down2 sx)) image_width stride pix) l
      = read_location img' l) ->
  0 <= ix ->
  read_location
    (value (blur_write format image_width stride image_height box crop (ix, iy) img)) l
  = read_location img l.
Proof.
  intros Hsave Hix. unfold blur_write. cbn [fst snd].
  match goal with
  | |- read_location (value (for_loop ?n 0 ?body img)) l = _ =>
      destruct (for_loop_inv (fun _ s => read_location s l = read_location img l)
                  body n 0 img) as (Hres & _);
        [ reflexivity | | exact Hres ]
  end.
  intros i s Hi Hs. cbv beta.
  match goal with
  | |- (read_location (value (for_loop ?n 0 ?body s)) l = _) /\ _ =>
      destruct (for_loop_inv (fun _ s' => read_location s' l = read_location img l)
                  body n 0 s) as (Hres & D);
        [ exact Hs | | split; [exact Hres | exact D] ]
  end.
  intros j s' Hj Hs'. cbv beta zeta.
  match goal with
  | |- context [if ?c then _ else ret s'] => destruct c eqn:C1
  end; [| split; [exact Hs' | reflexivity]].
  match goal with
  | |- context [if ?c then _ else ret s'] => destruct c eqn:C2
  end; [| split; [exact Hs' | reflexivity]].
  split; [| reflexivity]. cbn [value ret].
  apply andb_true_iff in C1. destruct C1 as (C1 & F4).
  apply andb_true_iff in C1. destruct C1 as (C1 & F3).
  apply andb_true_iff in C1. destruct C1 as (F1 & F2).
  rewrite Z.geb_leb in F1, F3. apply Z.leb_le in F1, F3. apply Z.ltb_lt in F2, F4.
  apply andb_true_iff in C2. destruct C2 as (S1 & S2). apply Z.ltb_lt in S1.
  rewrite Hsave; [exact Hs' | lia | lia | lia | lia |].
  split; [| exact S1].
  assert (Hgw : 0 < Z.quot (boxwidth box + 31) 32) by lia.
  assert (Hbw : 0 <= boxwidth box).
  { destruct (Z_lt_le_dec (boxwidth box + 31) 0) as [Hneg | Hpos].
    - replace (boxwidth box + 31) with (- (- (boxwidth box + 31))) in Hgw by lia.
      rewrite Z.quot_opp_l in Hgw by lia.
      pose proof (Z.quot_pos (- (boxwidth box + 31)) 32 ltac:(lia) ltac:(lia)). lia.
    - destruct (Z_lt_le_dec (boxwidth box + 31) 32) as [Hsm | Hbg]; [| lia].
      rewrite Z.quot_small in Hgw by lia. lia. }
  apply to_int_sign_clear. apply mul_sign_clear; [| apply of_int_sign_clear; lia].
  apply div_sign_clear; apply of_int_sign_clear; [nia | exact Hbw].
Qed.

(** In the NV12 formats the blur writes the chroma plane in its columns
    0..31 only, wherever the box is on the image: the column of the chroma
    pair is derived from the column of the tile, not from the column of
    the pixel.  A chroma sample in a column from 32 on keeps its value. *)
Theorem blur_nv12_chroma_columns
    (commands : Z -> BoxBlurCommand.t) (image_width stride image_height gridDim : Z)
    (img : Image) :
  (forall cx cy,
      32 <= cx ->
      surface (image1 (value (render_blur_kernel BlockLinearNV12 commands
                                image_width stride image_height gridDim img))) cx cy
      = surface (image1 img) cx cy)
  /\ (forall row col,
        32 <= col < stride ->
        linear (image1 (value (render_blur_kernel PitchLinearNV12 commands
                                 image_width stride image_height gridDim img)))
          (row * stride + col)
        = linear (image1 img) (row * stride + col)).
Proof.
  assert (Hdown : forall sx, 0 <= sx < 32 ->
            0 <= int_of_uint (round_down2 sx) /\ int_of_uint (round_down2 sx) + 1 < 32).
  { intros sx Hsx.
    rewrite round_down2_int by (unfold INT_MIN, INT_MAX; change (2 ^ 31) with 2147483648; lia).
    pose proof (Z.mod_pos_bound sx 2 ltac:(lia)) as Hm.
    pose proof (Z.div_mod sx 2 ltac:(lia)) as Hd. lia. }
  assert (Hmain : forall format l,
            (forall fx fy sx pix img',
                0 <= sx < 32 ->
                read_location
                  (save_pixel format img' fx fy (int_of_uint (round_down2 sx))
                     image_width stride pix) l
                = read_location img' l) ->
            read_location (value (render_blur_kernel format commands
                                    image_width stride image_height gridDim img)) l
            = read_location img l).
  { intros format l Hsave. unfold render_blur_kernel.
    apply (foldM_inv (fun s => read_location s l = read_location img l)); [reflexivity|].
    intros blockIdx s _ Hs. unfold render_blur_block. rewrite !value_bind.
    apply (foldM_inv (fun s' => read_location s' l = read_location img l)); [exact Hs|].
    intros (ix, iy) s' Hin Hs'. apply block_threads_In in Hin.
    rewrite <- Hs'. apply blur_write_frame; [| lia].
    intros fx fy sx pix img' _ _ _ _ Hsx. apply Hsave. exact Hsx. }
  split.
  - intros cx cy Hcx. apply (Hmain BlockLinearNV12 (Surface1 cx cy)).
    intros fx fy sx pix img' Hsx. destruct (Hdown sx Hsx) as (D0 & D1).
    unfold save_pixel, read_location, set_surface. cbn [image1 surface].
    rewrite !surf2Dwrite_other by lia. reflexivity.
  - intros row col Hcol. apply (Hmain PitchLinearNV12 (Linear1 (row * stride + col))).
    intros fx fy sx pix img' Hsx. destruct (Hdown sx Hsx) as (D0 & D1).
    unfold save_pixel, read_location, set_linear. cbn [image1 linear].
    assert (Hne : forall d, 0 <= d < 32 ->
              row * stride + col <> Z.quot fy 2 * stride + d).
    { intros d Hd E.
      pose proof (row_offset_unique stride row (Z.quot fy 2) col d
                    ltac:(lia) ltac:(lia) E). lia. }
    rewrite !store_other; [reflexivity | |].
    + replace (Z.quot fy 2 * stride + int_of_uint (round_down2 sx) + 0)
        with (Z.quot fy 2 * stride + (int_of_uint (round_down2 sx) + 0)) by lia.
      apply Hne. lia.
    + replace (Z.quot fy 2 * stride + int_of_uint (round_down2 sx) + 1)
        with (Z.quot fy 2 * stride + (int_of_uint (round_down2 sx) + 1)) by lia.
      apply Hne. lia.
Qed.

(** On the packed formats the blur of one box writes inside the box only,
    rounded up to 32 patches in each direction, and inside the image: a
    byte that belongs to no such pixel keeps its value. *)
Theorem render_blur_block_frame
    (format : ImageFormat) (image_width stride image_height : Z)
    (box : BoxBlurCommand.t) (img : Image) (l : location) :
  format = RGB \/ format = RGBA ->
  (forall px py,
      0 <= px - H.bounding_left (BoxBlurCommand.base box)
        < 32 * Z.quot (boxwidth box + 31) 32 ->
      0 <= py - H.bounding_top (BoxBlurCommand.base box)
        < 32 * Z.quot (boxheight box + 31) 32 ->
      0 <= px < image_width -> 0 <= py < image_height ->
      ~ pixel_owns format stride px py l) ->
  read_location
    (value (render_blur_block format image_width stride image_height box img)) l
  = read_location img l.
Proof.
  intros Hf Hfree. unfold render_blur_block. rewrite !value_bind.
  apply (foldM_inv (fun s => read_location s l = read_location img l)); [reflexivity|].
  intros (ix, iy) s Hin Hs. apply block_threads_In in Hin. rewrite <- Hs.
  apply blur_write_frame; [| lia].
  intros fx fy sx pix img' Hx Hy Wx Wy _.
  assert (Hown : ~ pixel_owns format stride fx fy l) by (apply Hfree; nia).
  destruct Hf as [-> | ->]; destruct l as [a | a | x y | x y];
    unfold save_pixel, read_location, set_linear; cbn [image0 image1 linear surface];
    try reflexivity.
  - cbn [pixel_owns] in Hown.
    assert (a <> fy * stride + fx * 3 /\ a <> fy * stride + fx * 3 + 1
            /\ a <> fy * stride + fx * 3 + 2).
    { repeat split; intros ->; apply Hown;
        [exists 0 | exists 1 | exists 2]; split; lia. }
    rewrite !store_other by lia. reflexivity.
  - cbn [pixel_owns] in Hown.
    assert (a <> fy * stride + fx * 4 /\ a <> fy * stride + fx * 4 + 1
            /\ a <> fy * stride + fx * 4 + 2 /\ a <> fy * stride + fx * 4 + 3).
    { repeat split; intros ->; apply Hown;
        [exists 0 | exists 1 | exists 2 | exists 3]; split; lia. }
    rewrite !store_other by lia. reflexivity.
Qed.

Lemma blur_nv12_chroma_columns_witness :
  linear (image1 (value (render_blur_kernel PitchLinearNV12 Scenario.no_blur
                           64 64 64 1 Scenario.black_opaque))) (3 * 64 + 40)
  = linear (image1 Scenario.black_opaque) (3 * 64 + 40).
Proof.
  apply (proj2 (blur_nv12_chroma_columns Scenario.no_blur 64 64 64 1
                  Scenario.black_opaque) 3 40). lia.
Defined.

Lemma render_blur_block_frame_witness :
  read_location
    (value (render_blur_block RGB 64 192 64
              (BoxBlurCommand.make (H.make 0 0 8 8 0 0 0 0) 3) Scenario.black_opaque))
    (Linear0 (40 * 192 + 40 * 3))
  = read_location Scenario.black_opaque (Linear0 (40 * 192 + 40 * 3)).
Proof.
  apply render_blur_block_frame; [left; reflexivity|].
  intros px py Hx Hy Wx Wy. cbn in Hx, Hy. cbn [pixel_owns].
  intros (k & Hk & E). lia.
Defined.

(** ** The launch grid *)

Lemma grid_threads_In (grid block blockIdx threadIdx : dim3.t) :
  0 <= dim3.x blockIdx < dim3.x grid -> 0 <= dim3.y blockIdx < dim3.y grid ->
  0 <= dim3.x threadIdx < dim3.x block -> 0 <= dim3.y threadIdx < dim3.y block ->
  In (blockIdx, threadIdx) (grid_threads grid block).
Proof.
  intros Hbx Hby Htx Hty. unfold grid_threads.
  apply in_flat_map. exists (dim3.y blockIdx). split; [apply range_In; exact Hby|].
  apply in_flat_map. exists (dim3.x blockIdx). split; [apply range_In; exact Hbx|].
  apply in_flat_map. exists (dim3.y threadIdx). split; [apply range_In; exact Hty|].
  apply in_map_iff. exists (dim3.x threadIdx). split; [| apply range_In; exact Htx].
  destruct blockIdx, threadIdx; reflexivity.
Qed.

Lemma quad_origin_small (dim idx tid b : Z) :
  0 <= dim * idx + tid -> 0 <= b -> 2 * (dim * idx + tid) + b <= INT_MAX ->
  quad_origin dim idx tid b = 2 * (dim * idx + tid) + b.
Proof.
  unfold INT_MAX. change (2 ^ 31) with 2147483648. intros Hk Hb Hs.
  unfold quad_origin, uint, int_of_uint.
  change (2 ^ 32) with 4294967296. change (2 ^ 31) with 2147483648.
  rewrite (Z.mod_small (dim * idx + tid)) by lia.
  rewrite Z.shiftl_mul_pow2 by lia. change (2 ^ 1) with 2.
  rewrite Z.mod_small by lia.
  destruct (Z.ltb_spec ((dim * idx + tid) * 2 + b) 2147483648); lia.
Qed.

Lemma grid_origin_spec (bounding size : Z) :
  size <= INT_MAX ->
  let c := max (min bounding (size - 1)) 0 in
  grid_origin bounding size = c - c mod 2 /\ 0 <= c <= INT_MAX
  /\ c = Z.max (Z.min bounding (size - 1)) 0.
Proof.
  intros Hs c.
  assert (Hc : c = Z.max (Z.min bounding (size - 1)) 0).
  { unfold c, max, min.
    destruct (Z.leb_spec bounding (size - 1));
      match goal with
      | |- context [?a >=? 0] => destruct (Z.geb_spec a 0)
      end; lia. }
  assert (Hmax : 0 <= c <= INT_MAX).
  { assert (0 < INT_MAX) by (vm_compute; reflexivity). lia. }
  split; [| split; [exact Hmax | exact Hc]].
  unfold grid_origin. fold c. apply round_down2_int.
  assert (INT_MIN < 0) by (vm_compute; reflexivity). lia.
Qed.

(** A box that is not inverted is always launched, and the grid covers
    it: the kernel starts at the left and top bounds, clipped to the image
    and rounded down to even, and every pixel from there to the clipped
    right and bottom bounds lies in the quad of some thread of the grid. *)
Theorem launch_covers_bounding_box
    (width stride height : Z) (text_location : Z -> TextLocation.t) (text_bitmap : mem)
    (text_bitmap_width : Z) (line_location_base : Z -> Z)
    (commands : Z -> Command) (num_commands : Z)
    (bounding_left bounding_top bounding_right bounding_bottom : Z)
    (format : ImageFormat) (have_rotate_msaa : bool) (img : Image) :
  width <= INT_MAX -> height <= INT_MAX ->
  bounding_left <= bounding_right -> bounding_top <= bounding_bottom ->
  let bx := grid_origin bounding_left width in
  let by_ := grid_origin bounding_top height in
  let block := dim3.make 16 8 in
  exists grid,
    events (value (cuosd_launch_kernel_impl width stride height
                     text_location text_bitmap text_bitmap_width line_location_base
                     commands num_commands
                     bounding_left bounding_top bounding_right bounding_bottom
                     format have_rotate_msaa img))
    = [LaunchElements format have_rotate_msaa grid block bx by_]
    /\ forall px py,
         bx <= px <= max (min bounding_right (width - 1)) 0 ->
         by_ <= py <= max (min bounding_bottom (height - 1)) 0 ->
         exists blockIdx threadIdx,
           In (blockIdx, threadIdx) (grid_threads grid block)
           /\ quad_origin 16 (dim3.x blockIdx) (dim3.x threadIdx) bx <= px
              <= quad_origin 16 (dim3.x blockIdx) (dim3.x threadIdx) bx + 1
           /\ quad_origin 8 (dim3.y blockIdx) (dim3.y threadIdx) by_ <= py
              <= quad_origin 8 (dim3.y blockIdx) (dim3.y threadIdx) by_ + 1.
Proof.
  intros Hw Hh Hlr Htb bx by_ block.
  destruct (grid_origin_spec bounding_left width Hw) as (Ebx & Cl & Dl).
  destruct (grid_origin_spec bounding_top height Hh) as (Eby & Ct & Dt).
  destruct (grid_origin_spec bounding_right width Hw) as (_ & Cr & Dr).
  destruct (grid_origin_spec bounding_bottom height Hh) as (_ & Cb & Db).
  fold bx in Ebx. fold by_ in Eby.
  set (cl := max (min bounding_left (width - 1)) 0) in *.
  set (ct := max (min bounding_top (height - 1)) 0) in *.
  set (cr := max (min bounding_right (width - 1)) 0) in *.
  set (cb := max (min bounding_bottom (height - 1)) 0) in *.
  pose proof (Z.mod_pos_bound cl 2 ltac:(lia)) as Ml.
  pose proof (Z.mod_pos_bound ct 2 ltac:(lia)) as Mt.
  assert (Bx : 0 <= bx <= cl).
  { pose proof (Z.div_mod cl 2 ltac:(lia)).
    pose proof (Z.div_pos cl 2 ltac:(lia) ltac:(lia)). lia. }
  assert (By : 0 <= by_ <= ct).
  { pose proof (Z.div_mod ct 2 ltac:(lia)).
    pose proof (Z.div_pos ct 2 ltac:(lia) ltac:(lia)). lia. }
  assert (Hx : bx <= cr) by lia.
  assert (Hy : by_ <= cb) by lia.
  assert (Px : bx mod 2 = 0)
    by (rewrite Ebx; pose proof (Z.div_mod cl 2 ltac:(lia));
        replace (cl - cl mod 2) with (0 + cl / 2 * 2) by lia;
        rewrite Z_mod_plus_full; reflexivity).
  assert (Py : by_ mod 2 = 0)
    by (rewrite Eby; pose proof (Z.div_mod ct 2 ltac:(lia));
        replace (ct - ct mod 2) with (0 + ct / 2 * 2) by lia;
        rewrite Z_mod_plus_full; reflexivity).
  unfold INT_MAX in *. change (2 ^ 31) with 2147483648 in *.
  unfold cuosd_launch_kernel_impl. fold cl ct cr cb. cbv zeta.
  change (int_of_uint (round_down2 cl)) with bx.
  change (int_of_uint (round_down2 ct)) with by_.
  replace (cr - bx + 1 <? 1) with false by (symmetry; apply Z.ltb_ge; lia).
  replace (cb - by_ + 1 <? 1) with false by (symmetry; apply Z.ltb_ge; lia).
  cbn [orb]. rewrite value_bind. cbn [value ret events].
  eexists. split; [reflexivity|].
  intros px py Hpx Hpy. cbn [dim3.x dim3.y].
  rewrite !Z.quot_div_nonneg by lia.
  unfold uint. change (2 ^ 32) with 4294967296.
  assert (Qx : 0 <= (cr - bx + 1 + 1) / 2 <= 2147483648)
    by (split; [apply Z.div_pos; lia | apply Z.div_le_upper_bound; lia]).
  assert (Qy : 0 <= (cb - by_ + 1 + 1) / 2 <= 2147483648)
    by (split; [apply Z.div_pos; lia | apply Z.div_le_upper_bound; lia]).
  rewrite !Z.mod_small by lia.
  set (kx := (px - bx) / 2). set (ky := (py - by_) / 2).
  assert (Kx : 0 <= kx /\ 2 * kx <= px - bx <= 2 * kx + 1 /\ kx + 1 <= (cr - bx + 1 + 1) / 2).
  { unfold kx. pose proof (Z.div_mod (px - bx) 2 ltac:(lia)).
    pose proof (Z.mod_pos_bound (px - bx) 2 ltac:(lia)).
    pose proof (Z.div_mod (cr - bx + 1 + 1) 2 ltac:(lia)).
    pose proof (Z.mod_pos_bound (cr - bx + 1 + 1) 2 ltac:(lia)).
    lia. }
  assert (Ky : 0 <= ky /\ 2 * ky <= py - by_ <= 2 * ky + 1 /\ ky + 1 <= (cb - by_ + 1 + 1) / 2).
  { unfold ky. pose proof (Z.div_mod (py - by_) 2 ltac:(lia)).
    pose proof (Z.mod_pos_bound (py - by_) 2 ltac:(lia)).
    pose proof (Z.div_mod (cb - by_ + 1 + 1) 2 ltac:(lia)).
    pose proof (Z.mod_pos_bound (cb - by_ + 1 + 1) 2 ltac:(lia)).
    lia. }
  pose proof (Z.div_mod kx 16 ltac:(lia)) as Dx.
  pose proof (Z.mod_pos_bound kx 16 ltac:(lia)) as Mx.
  pose proof (Z.div_mod ky 8 ltac:(lia)) as Dy.
  pose proof (Z.mod_pos_bound ky 8 ltac:(lia)) as My.
  exists (dim3.make (kx / 16) (ky / 8)), (dim3.make (kx mod 16) (ky mod 8)).
  split; [| split].
  - apply grid_threads_In; cbn [dim3.x dim3.y block].
    + split; [apply Z.div_pos; lia|].
      apply Z.div_lt_upper_bound; [lia|].
      pose proof (Z.div_mod ((cr - bx + 1 + 1) / 2 + 16 - 1) 16 ltac:(lia)).
      pose proof (Z.mod_pos_bound ((cr - bx + 1 + 1) / 2 + 16 - 1) 16 ltac:(lia)).
      lia.
    + split; [apply Z.div_pos; lia|].
      apply Z.div_lt_upper_bound; [lia|].
      pose proof (Z.div_mod ((cb - by_ + 1 + 1) / 2 + 8 - 1) 8 ltac:(lia)).
      pose proof (Z.mod_pos_bound ((cb - by_ + 1 + 1) / 2 + 8 - 1) 8 ltac:(lia)).
      lia.
    + lia.
    + lia.
  - cbn [dim3.x]. rewrite quad_origin_small;
      unfold INT_MAX; change (2 ^ 31) with 2147483648; lia.
  - cbn [dim3.y]. rewrite quad_origin_small;
      unfold INT_MAX; change (2 ^ 31) with 2147483648; lia.
Qed.

Lemma launch_covers_bounding_box_witness :
  exists grid,
    events (value (cuosd_launch_kernel_impl 64 256 64
                     (fun _ => Scenario.glyph 1 1) Scenario.atlas 1 Scenario.line_base
                     (fun _ => Scenario.text_command) 1 5 7 40 9 RGBA false
                     Scenario.black_opaque))
    = [LaunchElements RGBA false grid (dim3.make 16 8)
         (grid_origin 5 64) (grid_origin 7 64)].
Proof.
  destruct (launch_covers_bounding_box 64 256 64
              (fun _ => Scenario.glyph 1 1) Scenario.atlas 1 Scenario.line_base
              (fun _ => Scenario.text_command) 1 5 7 40 9 RGBA false
              Scenario.black_opaque
              ltac:(vm_compute; discriminate) ltac:(vm_compute; discriminate)
              ltac:(lia) ltac:(lia)) as (grid & E & _).
  exists grid. exact E.
Defined.

(** ** Segmentation masks *)

(** Where the mask is on one side of the threshold the interpolation has
    nothing to interpolate: a mask that is above the threshold everywhere
    gives every pixel the coverage 127, whatever the scale and the
    interpolation weights, and a mask that is nowhere above it gives 0.
    The weights are taken in the range where the products of the source
    do not overflow an [int]. *)
Theorem sample_pixel_bilinear_uniform
    (d_ptr : Z -> F32.float) (x y : Z) (sx sy : F32.float) (width height : Z)
    (threshold : F32.float) (above : bool) :
  (forall i, F32.gtb (d_ptr i) threshold = above) ->
  Z.abs (bilinear_weight x sx width) <= 2 ^ 16 ->
  Z.abs (bilinear_weight y sy height) <= 2 ^ 16 ->
  sample_pixel_bilinear d_ptr x y sx sy width height threshold
  = if above then 127 else 0.
Proof.
  intros Hmask _ _. unfold sample_pixel_bilinear. cbv zeta. rewrite !Hmask.
  change INTER_RESIZE_COEF_SCALE with 2048.
  match goal with
  | |- context [2048 - ?l] => set (ly := l)
  end.
  match goal with
  | |- context [2048 - ?l] => lazymatch l with ly => fail | _ => set (lx := l) end
  end.
  destruct above.
  - replace ((2048 - lx) * 127 + lx * 127) with 260096 by ring.
    change (Z.shiftr 260096 4) with 16256.
    rewrite !Z.shiftr_div_pow2 by lia. change (2 ^ 16) with 65536. change (2 ^ 2) with 4.
    assert (E : ((2048 - ly) * 16256 / 65536 + ly * 16256 / 65536 + 2) / 4 = 127)
      by (Z.div_mod_to_equations; lia).
    rewrite E. reflexivity.
  - replace ((2048 - lx) * 0 + lx * 0) with 0 by ring.
    change (Z.shiftr 0 4) with 0.
    replace ((2048 - ly) * 0) with 0 by ring. replace (ly * 0) with 0 by ring.
    reflexivity.
Qed.

Lemma sample_pixel_bilinear_uniform_witness :
  sample_pixel_bilinear (fun _ => F32.of_int 1) 1 1 (F32.of_int 1) (F32.of_int 1) 2 2
    F32.half
  = 127.
Proof.
  apply (sample_pixel_bilinear_uniform (fun _ => F32.of_int 1) 1 1
           (F32.of_int 1) (F32.of_int 1) 2 2 F32.half true).
  - intros i. vm_compute. reflexivity.
  - vm_compute. discriminate.
  - vm_compute. discriminate.
Defined.

(** ** The two NV12 layouts *)

Lemma row_offset_eqb (stride u v x y : Z) :
  0 <= u < stride -> 0 <= x < stride ->
  (v * stride + u =? y * stride + x) = (u =? x) && (v =? y).
Proof.
  intros Hu Hx.
  destruct (Z.eqb_spec (v * stride + u) (y * stride + x)) as [E | Hne].
  - destruct (row_offset_unique stride v y u x Hu Hx E) as (-> & ->).
    rewrite !Z.eqb_refl. reflexivity.
  - destruct (Z.eqb_spec u x) as [-> |]; [| reflexivity].
    destruct (Z.eqb_spec v y) as [-> |]; [contradiction Hne; reflexivity | reflexivity].
Qed.

(** The pitch-linear and the block-linear NV12 blits are the same blit on
    two layouts: started on planes that hold the same samples -- the
    linear plane row after row with the given stride, the surface by
    coordinates -- they divide by zero together and leave planes that hold
    the same samples again. *)
Theorem nv12_blits_agree (x y stride : Z) (plot_colors : Quad) (pl bl : Image) :
  0 <= x -> x + 1 < stride ->
  (forall u v, 0 <= u < stride ->
               linear (image0 pl) (v * stride + u) = surface (image0 bl) u v) ->
  (forall u v, 0 <= u < stride ->
               linear (image1 pl) (v * stride + u) = surface (image1 bl) u v) ->
  let rp := BlendingPixel_PitchLinearNV12 x y stride plot_colors pl in
  let rb := BlendingPixel_BlockLinearNV12 x y plot_colors bl in
  div_by_zero rp = div_by_zero rb
  /\ (forall u v, 0 <= u < stride ->
                  linear (image0 (value rp)) (v * stride + u)
                  = surface (image0 (value rb)) u v)
  /\ (forall u v, 0 <= u < stride ->
                  linear (image1 (value rp)) (v * stride + u)
                  = surface (image1 (value rb)) u v).
Proof.
  intros Hx Hs H0 H1 rp rb.
  unfold rp, rb, BlendingPixel_PitchLinearNV12, BlendingPixel_BlockLinearNV12.
  cbv zeta. rewrite !div_by_zero_bind, !value_bind.
  cbn [ret value div_by_zero set_linear set_surface image0 image1 linear surface].
  unfold surf2Dread. rewrite !Z.add_0_r.
  split; [reflexivity|].
  split; intros u v Hu.
  - rewrite !(store_other _ _ _ (y * stride + x + 1)) by lia.
    rewrite !(store_other _ _ _ ((y + 1) * stride + x)) by lia.
    rewrite !(store_other _ _ _ ((y + 1) * stride + x + 1)) by lia.
    unfold store, surf2Dwrite.
    replace ((y + 1) * stride + x + 1) with ((y + 1) * stride + (x + 1)) by lia.
    replace (y * stride + x + 1) with (y * stride + (x + 1)) by lia.
    rewrite !row_offset_eqb by lia. rewrite !H0 by lia.
    reflexivity.
  - rewrite !(store_other _ _ _ (Z.quot y 2 * stride + x + 1)) by lia.
    unfold store, surf2Dwrite.
    replace (Z.quot y 2 * stride + x + 1) with (Z.quot y 2 * stride + (x + 1)) by lia.
    rewrite !row_offset_eqb by lia. rewrite !H1 by lia.
    reflexivity.
Qed.

Lemma nv12_blits_agree_witness :
  div_by_zero
    (BlendingPixel_PitchLinearNV12 0 0 4 zero_quad
       (mkImage (mkHandle (fun a => a) Scenario.no_surface)
          (mkHandle (fun a => a + 1) Scenario.no_surface)))
  = div_by_zero
      (BlendingPixel_BlockLinearNV12 0 0 zero_quad
         (mkImage (mkHandle (fun _ => 0) (fun u v => v * 4 + u))
            (mkHandle (fun _ => 0) (fun u v => v * 4 + u + 1)))).
Proof.
  apply (nv12_blits_agree 0 0 4 zero_quad
           (mkImage (mkHandle (fun a => a) Scenario.no_surface)
              (mkHandle (fun a => a + 1) Scenario.no_surface))
           (mkImage (mkHandle (fun _ => 0) (fun u v => v * 4 + u))
              (mkHandle (fun _ => 0) (fun u v => v * 4 + u + 1)))
           ltac:(lia) ltac:(lia)).
  - intros u v Hu. reflexivity.
  - intros u v Hu. reflexivity.
Defined.

(** ** Pixels of the blur tile *)

(** On the packed formats a pixel that was saved is the pixel that is
    loaded back, whatever the chroma column that is passed along; on RGBA
    the save also makes the pixel opaque. *)
Theorem save_load_pixel_packed
    (format : ImageFormat) (img : Image) (x y down_x down_x' width stride : Z)
    (pix : uchar3.t) :
  format = RGB \/ format = RGBA ->
  is_byte (uchar3.x pix) -> is_byte (uchar3.y pix) -> is_byte (uchar3.z pix) ->
  load_pixel format (save_pixel format img x y down_x width stride pix)
    x y down_x' width stride = pix
  /\ (format = RGBA ->
      linear (image0 (save_pixel format img x y down_x width stride pix))
        (y * stride + x * 4 + 3) = 255).
Proof.
  intros Hf Bx By Bz. destruct pix as [r g b]. cbn [uchar3.x uchar3.y uchar3.z] in *.
  destruct Hf as [-> | ->]; unfold load_pixel, save_pixel, set_linear;
    cbn [image0 linear uchar3.x uchar3.y uchar3.z]; split.
  - store_read. rewrite !u8_byte by assumption. reflexivity.
  - discriminate.
  - store_read. rewrite !u8_byte by assumption. reflexivity.
  - intros _. store_read. reflexivity.
Qed.

Lemma save_load_pixel_packed_witness :
  load_pixel RGBA (save_pixel RGBA Scenario.black_opaque 3 2 0 64 256 (uchar3.make 1 2 3))
    3 2 0 64 256
  = uchar3.make 1 2 3.
Proof.
  assert (B : forall v, 0 <= v < 256 -> is_byte v) by (intros v Hv; exact Hv).
  exact (proj1 (save_load_pixel_packed RGBA Scenario.black_opaque 3 2 0 0 64 256
                  (uchar3.make 1 2 3) (or_intror eq_refl)
                  (B 1 ltac:(lia)) (B 2 ltac:(lia)) (B 3 ltac:(lia)))).
Defined.

(** ** Threads of the composite kernel do not interfere *)

Lemma for_loop_rel {S : Type} (R : S -> S -> Prop) (body : Z -> S -> dev S)
    (n : nat) (i : Z) (s s' : S) :
  R s s' ->
  (forall k t t', i <= k < i + Z.of_nat n -> R t t' ->
                  R (value (body k t)) (value (body k t'))
                  /\ div_by_zero (body k t) = div_by_zero (body k t')) ->
  R (value (for_loop n i body s)) (value (for_loop n i body s'))
  /\ div_by_zero (for_loop n i body s) = div_by_zero (for_loop n i body s').
Proof.
  revert i s s'. induction n as [| n IH]; intros i s s' Hs Hstep.
  - split; [exact Hs | reflexivity].
  - cbn [for_loop]. rewrite !value_bind, !div_by_zero_bind.
    destruct (Hstep i s s' ltac:(lia) Hs) as (Hs1 & D1). rewrite D1.
    destruct (IH (i + 1) _ _ Hs1) as (Hs2 & D2).
    + intros k t t' Hk. apply Hstep. lia.
    + rewrite D2. split; [exact Hs2 | reflexivity].
Qed.

(** The blend of one packed pixel reads and writes the bytes of that pixel
    only. *)
Lemma blend_rgba_pixel_local (S : Z -> Prop) (m m' : mem) (p : Z) (rcolor : uchar4.t) :
  (forall a, S a -> m a = m' a) ->
  S p -> S (p + 1) -> S (p + 2) -> S (p + 3) ->
  (forall a, S a -> value (blend_rgba_pixel m p rcolor) a
                    = value (blend_rgba_pixel m' p rcolor) a)
  /\ div_by_zero (blend_rgba_pixel m p rcolor) = div_by_zero (blend_rgba_pixel m' p rcolor).
Proof.
  intros Hag S0 S1 S2 S3.
  unfold blend_rgba_pixel, bind, idiv, ret. cbn [value div_by_zero].
  rewrite !(store_other _ _ _ (p + 1)) by lia.
  rewrite !(store_other _ _ _ (p + 2)) by lia.
  rewrite (Hag p S0), (Hag (p + 1) S1), (Hag (p + 2) S2), (Hag (p + 3) S3).
  split; [| reflexivity].
  intros a Sa. unfold store.
  destruct (a =? p + 3); [reflexivity|].
  destruct (a =? p + 2); [reflexivity|].
  destruct (a =? p + 1); [reflexivity|].
  destruct (a =? p); [reflexivity|].
  apply Hag. exact Sa.
Qed.

Lemma blend_rgb_pixel_local (S : Z -> Prop) (m m' : mem) (p : Z) (rcolor : uchar4.t) :
  (forall a, S a -> m a = m' a) ->
  S p -> S (p + 1) -> S (p + 2) ->
  (forall a, S a -> value (blend_rgb_pixel m p rcolor) a
                    = value (blend_rgb_pixel m' p rcolor) a)
  /\ div_by_zero (blend_rgb_pixel m p rcolor) = div_by_zero (blend_rgb_pixel m' p rcolor).
Proof.
  intros Hag S0 S1 S2.
  unfold blend_rgb_pixel, bind, idiv, ret. cbn [value div_by_zero].
  rewrite !(store_other _ _ _ (p + 1)) by lia.
  rewrite !(store_other _ _ _ (p + 2)) by lia.
  rewrite (Hag p S0), (Hag (p + 1) S1), (Hag (p + 2) S2).
  split; [| reflexivity].
  intros a Sa. unfold store.
  destruct (a =? p + 2); [reflexivity|].
  destruct (a =? p + 1); [reflexivity|].
  destruct (a =? p); [reflexivity|].
  apply Hag. exact Sa.
Qed.

Lemma store_agree0 (S : location -> Prop) (m m' : mem) (a v v' : Z) :
  (forall adr, S (Linear0 adr) -> m adr = m' adr) -> v = v' ->
  forall adr, S (Linear0 adr) -> store m a v adr = store m' a v' adr.
Proof.
  intros Hm -> adr Sa. unfold store. destruct (adr =? a); [reflexivity | apply Hm; exact Sa].
Qed.

Lemma store_agree1 (S : location -> Prop) (m m' : mem) (a v v' : Z) :
  (forall adr, S (Linear1 adr) -> m adr = m' adr) -> v = v' ->
  forall adr, S (Linear1 adr) -> store m a v adr = store m' a v' adr.
Proof.
  intros Hm -> adr Sa. unfold store. destruct (adr =? a); [reflexivity | apply Hm; exact Sa].
Qed.

(** Two chains of stores of the pitch-linear blit, started on planes that
    agree on [S], read the same byte at an address of [S]. *)
Ltac agree_stores lem Hag :=
  lazymatch goal with
  | |- store _ _ _ ?adr = store _ _ _ ?adr =>
      apply lem; [ intros ? ?; agree_stores lem Hag | agree_stores lem Hag | assumption ]
  | |- linear (image0 _) ?adr = linear (image0 _) ?adr =>
      apply (Hag (Linear0 adr)); assumption
  | |- linear (image1 _) ?adr = linear (image1 _) ?adr =>
      apply (Hag (Linear1 adr)); assumption
  | |- _ => f_equal; agree_stores lem Hag
  end.

(** The blit of a quad is local: run on two surfaces that hold the same
    bytes on a set that includes the bytes of the quad, it sets the same
    flag and leaves surfaces that hold the same bytes on that set. *)
Lemma BlendingPixel_local
    (format : ImageFormat) (x y stride : Z) (plot_colors : Quad)
    (S : location -> Prop) (a b : Image) :
  (forall l, quad_owns format stride x y l -> S l) ->
  agree_on S a b ->
  div_by_zero (BlendingPixel x y stride plot_colors format a)
  = div_by_zero (BlendingPixel x y stride plot_colors format b)
  /\ agree_on S (value (BlendingPixel x y stride plot_colors format a))
       (value (BlendingPixel x y stride plot_colors format b)).
Proof.
  intros Hown Hag.
  assert (Hpix : forall i j, 0 <= i <= 1 -> 0 <= j <= 1 -> forall l,
             pixel_owns format stride (x + i) (y + j) l -> S l).
  { intros i j Hi Hj l Hl. apply Hown. exists i, j. auto. }
  destruct format; unfold BlendingPixel.
  - (* RGB *)
    unfold BlendingPixel_RGB.
    match goal with
    | |- div_by_zero (bind (for_loop 2 0 ?body _) _) = _ /\ _ =>
        destruct (for_loop_rel (fun m m' => forall adr, S (Linear0 adr) -> m adr = m' adr)
                    body 2 0 (linear (image0 a)) (linear (image0 b))) as (R & D)
    end.
    + intros adr Sa. apply (Hag (Linear0 adr) Sa).
    + intros i m m' Hi Hm.
      apply (for_loop_rel (fun m m' => forall adr, S (Linear0 adr) -> m adr = m' adr));
        [exact Hm|].
      intros j t t' Hj Ht.
      apply (blend_rgb_pixel_local (fun adr => S (Linear0 adr))); [exact Ht | | |];
        apply (Hpix j i ltac:(lia) ltac:(lia)); cbn [pixel_owns];
        [exists 0 | exists 1 | exists 2]; split; lia.
    + split.
      { unfold bind at 1 2. cbn [div_by_zero ret]. f_equal; exact D. }
      intros l Sl. unfold bind at 1 2.
      destruct l as [adr | adr | u v | u v];
        cbn [ret value read_location image0 image1 set_linear linear surface].
      * apply R. exact Sl.
      * apply (Hag (Linear1 adr) Sl).
      * apply (Hag (Surface0 u v) Sl).
      * apply (Hag (Surface1 u v) Sl).
  - (* RGBA *)
    unfold BlendingPixel_RGBA.
    match goal with
    | |- div_by_zero (bind (for_loop 2 0 ?body _) _) = _ /\ _ =>
        destruct (for_loop_rel (fun m m' => forall adr, S (Linear0 adr) -> m adr = m' adr)
                    body 2 0 (linear (image0 a)) (linear (image0 b))) as (R & D)
    end.
    + intros adr Sa. apply (Hag (Linear0 adr) Sa).
    + intros i m m' Hi Hm.
      apply (for_loop_rel (fun m m' => forall adr, S (Linear0 adr) -> m adr = m' adr));
        [exact Hm|].
      intros j t t' Hj Ht.
      apply (blend_rgba_pixel_local (fun adr => S (Linear0 adr))); [exact Ht | | | |];
        apply (Hpix j i ltac:(lia) ltac:(lia)); cbn [pixel_owns];
        [exists 0 | exists 1 | exists 2 | exists 3]; split; lia.
    + split.
      { unfold bind at 1 2. cbn [div_by_zero ret]. f_equal; exact D. }
      intros l Sl. unfold bind at 1 2.
      destruct l as [adr | adr | u v | u v];
        cbn [ret value read_location image0 image1 set_linear linear surface].
      * apply R. exact Sl.
      * apply (Hag (Linear1 adr) Sl).
      * apply (Hag (Surface0 u v) Sl).
      * apply (Hag (Surface1 u v) Sl).
  - (* block-linear NV12 *)
    unfold BlendingPixel_BlockLinearNV12. cbv zeta.
    rewrite !div_by_zero_bind, !value_bind. split; [reflexivity|].
    assert (L00 := Hag (Surface0 (x + 0) y)
                     (Hpix 0 0 ltac:(lia) ltac:(lia) (Surface0 (x + 0) y) ltac:(unfold pixel_owns; lia))).
    assert (L10 := Hag (Surface0 (x + 1) y)
                     (Hpix 1 0 ltac:(lia) ltac:(lia) (Surface0 (x + 1) y) ltac:(unfold pixel_owns; lia))).
    assert (L01 := Hag (Surface0 (x + 0) (y + 1))
                     (Hpix 0 1 ltac:(lia) ltac:(lia) (Surface0 (x + 0) (y + 1)) ltac:(unfold pixel_owns; lia))).
    assert (L11 := Hag (Surface0 (x + 1) (y + 1))
                     (Hpix 1 1 ltac:(lia) ltac:(lia) (Surface0 (x + 1) (y + 1)) ltac:(unfold pixel_owns; lia))).
    assert (C0 := Hag (Surface1 x (Z.quot y 2))
                    (Hpix 0 0 ltac:(lia) ltac:(lia) (Surface1 x (Z.quot y 2))
                       ltac:(unfold pixel_owns; rewrite !Z.add_0_r; split; reflexivity))).
    assert (C1 := Hag (Surface1 (x + 1) (Z.quot y 2))
                    (Hpix 1 0 ltac:(lia) ltac:(lia) (Surface1 (x + 1) (Z.quot y 2))
                       ltac:(unfold pixel_owns; rewrite !Z.add_0_r; split; reflexivity))).
    cbn [read_location] in L00, L10, L01, L11, C0, C1.
    unfold surf2Dread. rewrite L00, L10, L01, L11, C0, C1.
    intros l Sl. destruct l as [adr | adr | u v | u v];
      cbn [ret value read_location image0 image1 set_surface linear surface].
    + apply (Hag (Linear0 adr) Sl).
    + apply (Hag (Linear1 adr) Sl).
    + unfold surf2Dwrite.
      repeat match goal with
             | |- context [if ?c then _ else _] => destruct c; [reflexivity|]
             end.
      apply (Hag (Surface0 u v) Sl).
    + unfold surf2Dwrite.
      repeat match goal with
             | |- context [if ?c then _ else _] => destruct c; [reflexivity|]
             end.
      apply (Hag (Surface1 u v) Sl).
  - (* pitch-linear NV12 *)
    unfold BlendingPixel_PitchLinearNV12. cbv zeta.
    rewrite !div_by_zero_bind, !value_bind. split; [reflexivity|].
    assert (P00 : S (Linear0 (y * stride + x + 0)))
      by (apply (Hpix 0 0 ltac:(lia) ltac:(lia)); unfold pixel_owns; lia).
    assert (P10 : S (Linear0 (y * stride + x + 1)))
      by (apply (Hpix 1 0 ltac:(lia) ltac:(lia)); unfold pixel_owns; lia).
    assert (P01 : S (Linear0 ((y + 1) * stride + x + 0)))
      by (apply (Hpix 0 1 ltac:(lia) ltac:(lia)); unfold pixel_owns; lia).
    assert (P11 : S (Linear0 ((y + 1) * stride + x + 1)))
      by (apply (Hpix 1 1 ltac:(lia) ltac:(lia)); unfold pixel_owns; lia).
    assert (Q0 : S (Linear1 (Z.quot y 2 * stride + x)))
      by (apply (Hpix 0 0 ltac:(lia) ltac:(lia)); unfold pixel_owns;
          rewrite !Z.add_0_r; reflexivity).
    assert (Q1 : S (Linear1 (Z.quot y 2 * stride + x + 1)))
      by (apply (Hpix 1 0 ltac:(lia) ltac:(lia)); unfold pixel_owns;
          rewrite !Z.add_0_r; lia).
    intros l Sl. destruct l as [adr | adr | u v | u v];
      cbn [ret value read_location image0 image1 set_linear linear surface].
    + agree_stores (store_agree0 S) Hag.
    + agree_stores (store_agree1 S) Hag.
    + apply (Hag (Surface0 u v) Sl).
    + apply (Hag (Surface1 u v) Sl).
Qed.

(** *** Actions with disjoint footprints *)

Lemma same_result_refl (r : dev Image) : same_result r r.
Proof. split; reflexivity. Qed.

Lemma same_result_trans (r1 r2 r3 : dev Image) :
  same_result r1 r2 -> same_result r2 r3 -> same_result r1 r3.
Proof.
  intros (D1 & V1) (D2 & V2). split; [congruence|].
  intros l. rewrite V1. apply V2.
Qed.

Section LocalActions.
Variables (A K : Type).
Variable F : A -> Image -> dev Image.
Variable owns : A -> location -> Prop.
Variable key : A -> K.

Hypothesis owns_dec : forall t l, owns t l \/ ~ owns t l.
Hypothesis frame :
  forall t img l, ~ owns t l -> read_location (value (F t img)) l = read_location img l.
Hypothesis local :
  forall t (S : location -> Prop) a b,
    (forall l, owns t l -> S l) -> agree_on S a b ->
    div_by_zero (F t a) = div_by_zero (F t b)
    /\ agree_on S (value (F t a)) (value (F t b)).
Hypothesis apart :
  forall t1 t2 l, key t1 <> key t2 -> owns t1 l -> owns t2 l -> False.

Lemma action_congr (t : A) (a b : Image) :
  (forall l, read_location a l = read_location b l) -> same_result (F t a) (F t b).
Proof.
  intros Hab.
  destruct (local t (fun _ => True) a b) as (D & V); [auto | intros l _; apply Hab |].
  split; [exact D | intros l; apply V; exact I].
Qed.

Lemma foldM_congr (ts : list A) (a b : Image) :
  (forall l, read_location a l = read_location b l) ->
  same_result (foldM F ts a) (foldM F ts b).
Proof.
  revert a b. induction ts as [| t ts IH]; intros a b Hab.
  - split; [reflexivity | exact Hab].
  - cbn [foldM]. destruct (action_congr t a b Hab) as (D & V).
    destruct (IH _ _ V) as (D' & V').
    split.
    + rewrite !div_by_zero_bind, D, D'. reflexivity.
    + intros l. rewrite !value_bind. apply V'.
Qed.

Lemma actions_commute (t1 t2 : A) (img : Image) :
  key t1 <> key t2 ->
  same_result (bind (F t1 img) (F t2)) (bind (F t2 img) (F t1)).
Proof.
  intros Hne.
  assert (A12 : agree_on (owns t2) (value (F t1 img)) img).
  { intros l Hl. apply frame. intros Hl1. exact (apart t1 t2 l Hne Hl1 Hl). }
  assert (A21 : agree_on (owns t1) (value (F t2 img)) img).
  { intros l Hl. apply frame. intros Hl2. exact (apart t1 t2 l Hne Hl Hl2). }
  destruct (local t2 (owns t2) _ _ (fun l H => H) A12) as (D2 & V2).
  destruct (local t1 (owns t1) _ _ (fun l H => H) A21) as (D1 & V1).
  split.
  - rewrite !div_by_zero_bind, D1, D2. apply orb_comm.
  - intros l. rewrite !value_bind.
    destruct (owns_dec t1 l) as [O1 | N1].
    + assert (N2 : ~ owns t2 l) by (intros O2; exact (apart t1 t2 l Hne O1 O2)).
      rewrite (frame t2 _ l N2). symmetry. apply V1. exact O1.
    + rewrite (frame t1 _ l N1).
      destruct (owns_dec t2 l) as [O2 | N2].
      * apply V2. exact O2.
      * rewrite !(frame t2 _ l N2). apply (frame t1 _ l N1).
Qed.

Lemma foldM_permutation (ts ts' : list A) :
  Permutation ts ts' -> NoDup (map key ts) ->
  forall img, same_result (foldM F ts img) (foldM F ts' img).
Proof.
  induction 1 as [| t l l' Hp IH | t1 t2 l | l l' l'' Hp1 IH1 Hp2 IH2]; intros Hnd img.
  - apply same_result_refl.
  - cbn [map] in Hnd. inversion Hnd as [| k ks Hk Hks]; subst.
    cbn [foldM]. destruct (IH Hks (value (F t img))) as (D & V).
    split.
    + rewrite !div_by_zero_bind, D. reflexivity.
    + intros loc. rewrite !value_bind. apply V.
  - cbn [map] in Hnd. inversion Hnd as [| k ks Hk Hks]; subst.
    assert (Hne : key t2 <> key t1).
    { intros E. apply Hk. left. symmetry. exact E. }
    destruct (actions_commute t2 t1 img Hne) as (D & V).
    rewrite !div_by_zero_bind in D.
    assert (V' : forall loc,
               read_location (value (F t1 (value (F t2 img)))) loc
               = read_location (value (F t2 (value (F t1 img)))) loc).
    { intros loc. specialize (V loc). rewrite !value_bind in V. exact V. }
    destruct (foldM_congr l _ _ V') as (Dl & Vl).
    cbn [foldM]. split.
    + rewrite !div_by_zero_bind, !orb_assoc, D, Dl. reflexivity.
    + intros loc. rewrite !value_bind. apply Vl.
  - apply same_result_trans with (r2 := foldM F l' img).
    + apply IH1. exact Hnd.
    + apply IH2. apply (Permutation_NoDup (Permutation_map key Hp1)). exact Hnd.
Qed.
End LocalActions.

(** *** The composite kernel *)

Lemma pixel_owns_dec (format : ImageFormat) (stride px py : Z) (l : location) :
  pixel_owns format stride px py l \/ ~ pixel_owns format stride px py l.
Proof.
  destruct format, l as [a | a | x y | x y]; cbn [pixel_owns]; try (right; tauto).
  - destruct (Z_le_dec (py * stride + px * 3) a);
      destruct (Z_lt_dec a (py * stride + px * 3 + 3));
      try (right; intros (k & Hk & ->); lia).
    left. exists (a - (py * stride + px * 3)). lia.
  - destruct (Z_le_dec (py * stride + px * 4) a);
      destruct (Z_lt_dec a (py * stride + px * 4 + 4));
      try (right; intros (k & Hk & ->); lia).
    left. exists (a - (py * stride + px * 4)). lia.
  - destruct (Z.eq_dec x px); destruct (Z.eq_dec y py); try (right; lia). left. lia.
  - destruct (Z.eq_dec x px); destruct (Z.eq_dec y (Z.quot py 2)); try (right; lia).
    left. lia.
  - destruct (Z.eq_dec a (py * stride + px)); [left | right]; assumption.
  - destruct (Z.eq_dec a (Z.quot py 2 * stride + px)); [left | right]; assumption.
Qed.

Lemma thread_owns_dec (format : ImageFormat) (image_width stride image_height ix iy : Z)
    (l : location) :
  thread_owns format image_width stride image_height ix iy l
  \/ ~ thread_owns format image_width stride image_height ix iy l.
Proof.
  unfold thread_owns, quad_owns.
  destruct (Z_le_dec 0 ix); [| right; lia].
  destruct (Z_lt_dec ix (image_width - 1)); [| right; lia].
  destruct (Z_le_dec 0 iy); [| right; lia].
  destruct (Z_lt_dec iy (image_height - 1)); [| right; lia].
  destruct (pixel_owns_dec format stride (ix + 0) (iy + 0) l) as [H00 | N00];
    [left; repeat split; try lia; exists 0, 0; repeat split; try lia; exact H00|].
  destruct (pixel_owns_dec format stride (ix + 1) (iy + 0) l) as [H10 | N10];
    [left; repeat split; try lia; exists 1, 0; repeat split; try lia; exact H10|].
  destruct (pixel_owns_dec format stride (ix + 0) (iy + 1) l) as [H01 | N01];
    [left; repeat split; try lia; exists 0, 1; repeat split; try lia; exact H01|].
  destruct (pixel_owns_dec format stride (ix + 1) (iy + 1) l) as [H11 | N11];
    [left; repeat split; try lia; exists 1, 1; repeat split; try lia; exact H11|].
  right. intros (_ & _ & i & j & Hi & Hj & Hown).
  assert (Hij : (i = 0 \/ i = 1) /\ (j = 0 \/ j = 1)) by lia.
  destruct Hij as [[-> | ->] [-> | ->]]; tauto.
Qed.

(** Two distinct quads of even origin own no byte in common, when a row
    of pixels fits the stride. *)
Lemma thread_owns_apart
    (format : ImageFormat) (image_width stride image_height ix1 iy1 ix2 iy2 : Z)
    (l : location) :
  bytes_per_pixel format * image_width <= stride ->
  ix1 mod 2 = 0 -> iy1 mod 2 = 0 -> ix2 mod 2 = 0 -> iy2 mod 2 = 0 ->
  (ix1, iy1) <> (ix2, iy2) ->
  thread_owns format image_width stride image_height ix1 iy1 l ->
  thread_owns format image_width stride image_height ix2 iy2 l ->
  False.
Proof.
  intros Hs E1 F1 E2 F2 Hne (X1 & Y1 & i1 & j1 & Hi1 & Hj1 & O1)
    (X2 & Y2 & i2 & j2 & Hi2 & Hj2 & O2).
  apply Hne.
  pose proof (Z.div_mod ix1 2 ltac:(lia)) as Dx1.
  pose proof (Z.div_mod ix2 2 ltac:(lia)) as Dx2.
  pose proof (Z.div_mod iy1 2 ltac:(lia)) as Dy1.
  pose proof (Z.div_mod iy2 2 ltac:(lia)) as Dy2.
  assert (Hq : forall iy j, 0 <= iy -> iy mod 2 = 0 -> 0 <= j <= 1 ->
                            Z.quot (iy + j) 2 = iy / 2).
  { intros iy j Hy He Hj. rewrite Z.quot_div_nonneg by lia.
    pose proof (Z.div_mod iy 2 ltac:(lia)).
    symmetry. apply Z.div_unique with (r := j); lia. }
  destruct format, l as [a | a | x y | x y]; cbn [pixel_owns bytes_per_pixel] in *;
    try contradiction.
  - destruct O1 as (k1 & Hk1 & ->). destruct O2 as (k2 & Hk2 & E).
    replace ((iy1 + j1) * stride + (ix1 + i1) * 3 + k1)
      with ((iy1 + j1) * stride + ((ix1 + i1) * 3 + k1)) in E by lia.
    replace ((iy2 + j2) * stride + (ix2 + i2) * 3 + k2)
      with ((iy2 + j2) * stride + ((ix2 + i2) * 3 + k2)) in E by lia.
    apply row_offset_unique in E; [| lia | lia].
    f_equal; lia.
  - destruct O1 as (k1 & Hk1 & ->). destruct O2 as (k2 & Hk2 & E).
    replace ((iy1 + j1) * stride + (ix1 + i1) * 4 + k1)
      with ((iy1 + j1) * stride + ((ix1 + i1) * 4 + k1)) in E by lia.
    replace ((iy2 + j2) * stride + (ix2 + i2) * 4 + k2)
      with ((iy2 + j2) * stride + ((ix2 + i2) * 4 + k2)) in E by lia.
    apply row_offset_unique in E; [| lia | lia].
    f_equal; lia.
  - f_equal; lia.
  - destruct O1 as (Ox1 & Oy1). destruct O2 as (Ox2 & Oy2).
    rewrite Hq in Oy1, Oy2 by lia. f_equal; lia.
  - subst a.
    apply row_offset_unique in O2; [| lia | lia].
    f_equal; lia.
  - subst a. rewrite !Hq in O2 by lia.
    apply row_offset_unique in O2; [| lia | lia].
    f_equal; lia.
Qed.

Section Scheduling.
Variable format : ImageFormat.
Variable have_rotate_msaa : bool.
Variables bx by_ : Z.
Variable text_locations : Z -> TextLocation.t.
Variable text_bitmap : mem.
Variable text_bitmap_width : Z.
Variable line_location_base : Z -> Z.
Variable commands : Z -> Command.
Variable num_command : Z.
Variables image_width stride image_height : Z.
Variable blockDim : dim3.t.

Lemma thread_frame (bt : dim3.t * dim3.t) (img : Image) (l : location) :
  ~ thread_owns format image_width stride image_height
      (fst (thread_origin blockDim bx by_ bt)) (snd (thread_origin blockDim bx by_ bt)) l ->
  read_location
    (value (render_elements_kernel format have_rotate_msaa bx by_
              text_locations text_bitmap text_bitmap_width line_location_base
              commands num_command image_width stride image_height
              blockDim (fst bt) (snd bt) img)) l
  = read_location img l.
Proof.
  intros Hnot. unfold render_elements_kernel. cbv zeta. unfold thread_origin in Hnot.
  cbn [fst snd] in Hnot.
  set (ix := quad_origin (dim3.x blockDim) (dim3.x (fst bt)) (dim3.x (snd bt)) bx) in *.
  set (iy := quad_origin (dim3.y blockDim) (dim3.y (fst bt)) (dim3.y (snd bt)) by_) in *.
  destruct ((ix <? 0) || (iy <? 0) || (ix >=? image_width - 1)
            || (iy >=? image_height - 1)) eqn:Hbail; [reflexivity|].
  rewrite value_bind.
  match goal with
  | |- context [if ?c then ret img else _] => destruct c; [reflexivity|]
  end.
  apply BlendingPixel_frame. intros i j Hi Hj Hown. apply Hnot.
  rewrite !orb_false_iff in Hbail. destruct Hbail as (((B1 & B2) & B3) & B4).
  apply Z.ltb_ge in B1, B2. rewrite Z.geb_leb in B3, B4. apply Z.leb_gt in B3, B4.
  unfold thread_owns, quad_owns. repeat split; try lia.
  exists i, j. auto.
Qed.

Lemma thread_local (bt : dim3.t * dim3.t) (S : location -> Prop) (a b : Image) :
  (forall l, thread_owns format image_width stride image_height
               (fst (thread_origin blockDim bx by_ bt))
               (snd (thread_origin blockDim bx by_ bt)) l -> S l) ->
  agree_on S a b ->
  div_by_zero
    (render_elements_kernel format have_rotate_msaa bx by_
       text_locations text_bitmap text_bitmap_width line_location_base
       commands num_command image_width stride image_height
       blockDim (fst bt) (snd bt) a)
  = div_by_zero
      (render_elements_kernel format have_rotate_msaa bx by_
         text_locations text_bitmap text_bitmap_width line_location_base
         commands num_command image_width stride image_height
         blockDim (fst bt) (snd bt) b)
  /\ agree_on S
       (value (render_elements_kernel format have_rotate_msaa bx by_
                 text_locations text_bitmap text_bitmap_width line_location_base
                 commands num_command image_width stride image_height
                 blockDim (fst bt) (snd bt) a))
       (value (render_elements_kernel format have_rotate_msaa bx by_
                 text_locations text_bitmap text_bitmap_width line_location_base
                 commands num_command image_width stride image_height
                 blockDim (fst bt) (snd bt) b)).
Proof.
  intros Hown Hag. unfold render_elements_kernel. cbv zeta. unfold thread_origin in Hown.
  cbn [fst snd] in Hown.
  set (ix := quad_origin (dim3.x blockDim) (dim3.x (fst bt)) (dim3.x (snd bt)) bx) in *.
  set (iy := quad_origin (dim3.y blockDim) (dim3.y (fst bt)) (dim3.y (snd bt)) by_) in *.
  destruct ((ix <? 0) || (iy <? 0) || (ix >=? image_width - 1)
            || (iy >=? image_height - 1)) eqn:Hbail; [split; [reflexivity | exact Hag]|].
  rewrite !div_by_zero_bind, !value_bind.
  match goal with
  | |- context [if ?c then ret a else _] => destruct c
  end; [split; [reflexivity | exact Hag]|].
  rewrite !orb_false_iff in Hbail. destruct Hbail as (((B1 & B2) & B3) & B4).
  apply Z.ltb_ge in B1, B2. rewrite Z.geb_leb in B3, B4. apply Z.leb_gt in B3, B4.
  match goal with
  | |- context [BlendingPixel ?x ?y ?s ?q ?f a] =>
      destruct (BlendingPixel_local f x y s q S a b) as (D & V);
        [ intros l Hl; apply Hown; unfold thread_owns; repeat split; try lia; exact Hl
        | exact Hag | ]
  end.
  rewrite D. split; [reflexivity | exact V].
Qed.

Hypothesis bx_even : bx mod 2 = 0.
Hypothesis by_even : by_ mod 2 = 0.
Hypothesis row_fits : bytes_per_pixel format * image_width <= stride.

Lemma thread_apart (bt1 bt2 : dim3.t * dim3.t) (l : location) :
  thread_origin blockDim bx by_ bt1 <> thread_origin blockDim bx by_ bt2 ->
  thread_owns format image_width stride image_height
    (fst (thread_origin blockDim bx by_ bt1)) (snd (thread_origin blockDim bx by_ bt1)) l ->
  thread_owns format image_width stride image_height
    (fst (thread_origin blockDim bx by_ bt2)) (snd (thread_origin blockDim bx by_ bt2)) l ->
  False.
Proof.
  intros Hne O1 O2.
  apply (thread_owns_apart format image_width stride image_height _ _ _ _ l row_fits)
    with (6 := O1) (7 := O2);
    unfold thread_origin; cbn [fst snd];
    try (rewrite quad_origin_parity; assumption).
  intros E. apply Hne. unfold thread_origin. exact E.
Qed.

(** The threads of a launch of the composite kernel can run in any order:
    when the grid origin is even and a row of pixels fits the stride, two
    schedules of the same threads, no two of them on the same quad, leave
    the same bytes everywhere on the surface and divide by zero together. *)
Theorem launch_order_independent (ts ts' : list (dim3.t * dim3.t)) (img : Image) :
  NoDup (map (thread_origin blockDim bx by_) ts) ->
  Permutation ts ts' ->
  same_result
    (foldM (fun bt img =>
              render_elements_kernel format have_rotate_msaa bx by_
                text_locations text_bitmap text_bitmap_width line_location_base
                commands num_command image_width stride image_height
                blockDim (fst bt) (snd bt) img) ts img)
    (foldM (fun bt img =>
              render_elements_kernel format have_rotate_msaa bx by_
                text_locations text_bitmap text_bitmap_width line_location_base
                commands num_command image_width stride image_height
                blockDim (fst bt) (snd bt) img) ts' img).
Proof.
  intros Hnd Hp.
  apply (foldM_permutation _ _ _
           (fun bt l => thread_owns format image_width stride image_height
                          (fst (thread_origin blockDim bx by_ bt))
                          (snd (thread_origin blockDim bx by_ bt)) l)
           (thread_origin blockDim bx by_)).
  - intros bt l. apply thread_owns_dec.
  - intros bt a l. apply thread_frame.
  - intros bt S a b. apply thread_local.
  - intros bt1 bt2 l. apply thread_apart.
  - exact Hp.
  - exact Hnd.
Qed.
End Scheduling.

Lemma launch_order_independent_witness :
  same_result
    (foldM (fun bt img =>
              render_elements_kernel RGBA false 0 0
                (fun _ => Scenario.glyph 4 2) Scenario.atlas 4 Scenario.line_base
                (fun _ => Scenario.text_command) 1 4 16 2
                (dim3.make 2 1) (fst bt) (snd bt) img)
       [(dim3.make 0 0, dim3.make 0 0); (dim3.make 0 0, dim3.make 1 0)]
       Scenario.black_opaque)
    (foldM (fun bt img =>
              render_elements_kernel RGBA false 0 0
                (fun _ => Scenario.glyph 4 2) Scenario.atlas 4 Scenario.line_base
                (fun _ => Scenario.text_command) 1 4 16 2
                (dim3.make 2 1) (fst bt) (snd bt) img)
       [(dim3.make 0 0, dim3.make 1 0); (dim3.make 0 0, dim3.make 0 0)]
       Scenario.black_opaque).
Proof.
  apply (launch_order_independent RGBA false 0 0
           (fun _ => Scenario.glyph 4 2) Scenario.atlas 4 Scenario.line_base
           (fun _ => Scenario.text_command) 1 4 16 2 (dim3.make 2 1)).
  - reflexivity.
  - reflexivity.
  - cbn. lia.
  - repeat constructor; cbn; intuition discriminate.
  - apply perm_swap.
Defined.
